(** * BaseComponent (formio.js, src/components/base/Base.js)

    A shallow embedding of the value-synchronisation engine, the listener
    bookkeeping and the external-library loader of [BaseComponent], with the
    properties its specification states about them; and, with further
    properties read off the code, of the rendering of rows and their
    buttons, input masks, select elements, calculated values, validity and
    localization.

    Conventions of the embedding.
    - JavaScript values are the inductive [JsValue]; arrays are references
      into a store of arrays ([heap]), so that [===] on arrays is identity
      and [push]/[splice] mutate in place.
    - Numbers are the integer-valued ones plus [NaN]: [JNum z] is the
      Number value for the integer [z].
    - The data object and the library registry are finite maps on property
      names: the own properties of a plain object. This is what the code
      sees of a plain object at a name that [Object.prototype] does not
      define, when the object has no own property [hasOwnProperty]; the
      embedding is of components with such keys and of libraries with such
      names. [PlainObject] below has the reading, the assignment and
      [hasOwnProperty] of a plain object at every name; [ordinary_key],
      [plain_data] and [plain_world] say when the finite map agrees with
      it.
    - A rendered input is a text input ([elementInfo] gives it the type
      [text]): its [value] keeps the string of what is assigned to it,
      without line breaks ([input_text]), and reading it gives that string
      back.
    - Methods are computations over the instance state that either return
      or raise ([Outcome]); the state reached is kept in both cases, as
      mutations made before a JavaScript exception persist. *)

From stdpp Require Import base gmap list strings pretty.
From Stdlib Require Import ZArith Ascii.

(** ** JavaScript values *)

Module Js.

Inductive JsValue : Type :=
| JUndefined
| JNull
| JBool (b : bool)
| JNum (n : Z)
| JNaN
| JStr (s : string)
| JArr (a : nat).

(** [!!v] *)
Definition truthy (v : JsValue) : bool :=
  match v with
  | JUndefined | JNull | JNaN => false
  | JBool b => b
  | JNum n => negb (n =? 0)%Z
  | JStr s => negb (String.eqb s "")
  | JArr _ => true
  end.

(** [v === w] *)
Definition strict_eq (v w : JsValue) : bool :=
  match v, w with
  | JUndefined, JUndefined => true
  | JNull, JNull => true
  | JBool b, JBool c => Bool.eqb b c
  | JNum n, JNum m => (n =? m)%Z
  | JStr s, JStr t => String.eqb s t
  | JArr a, JArr b => (a =? b)%nat
  | _, _ => false
  end.

(** [_isArray(v)] *)
Definition isArray (v : JsValue) : bool :=
  match v with JArr _ => true | _ => false end.

(** [v === null || v === undefined] *)
Definition nullish (v : JsValue) : bool :=
  strict_eq v JNull || strict_eq v JUndefined.

(** *** The string of a value *)

(** A number [JNum z] is the Number value for the integer [z]: the nearest
    integer with a 53 bit significand, the even one of two equally near
    ([z] itself up to 2^53 and wherever it is such an integer); here for a
    [x] that is not negative. *)
Definition nearest_double (x : Z) : Z :=
  let b := (Z.log2 x + 1)%Z in
  if (b <=? 53)%Z then x
  else
    let e := (b - 53)%Z in
    let q := (x / 2 ^ e)%Z in
    let r := (x mod 2 ^ e)%Z in
    let half := (2 ^ (e - 1))%Z in
    ((if (half <? r) || ((r =? half) && Z.odd q) then q + 1 else q) * 2 ^ e)%Z.

(** Whether the integer [y] is read as the Number value [x]: [y] lies
    within half a unit in the last place of the significand of [x], the
    bounds included when the significand is even. *)
Definition reads_as (x y : Z) : bool :=
  let b := (Z.log2 x + 1)%Z in
  let e := (b - 53)%Z in
  let up := (2 ^ (e - 1))%Z in
  let down := if (x =? 2 ^ (b - 1))%Z then (2 ^ (e - 2))%Z else up in
  if Z.even (x / 2 ^ e)
  then ((x - down <=? y) && (y <=? x + up))%Z
  else ((x - down <? y) && (y <? x + up))%Z.

(** The [k] digits [s] and the decimal length [n] with which [x] is
    printed, if [k] digits are enough: [s * 10 ^ (n - k)] reads as [x], and
    of two such the nearer, of two equally near the even. *)
Definition printed_with (x k : Z) : option (Z * Z) :=
  let d := Z.of_nat (String.length (pretty x)) in
  let p := (10 ^ (d - k))%Z in
  let s := (x / p)%Z in
  let lo := reads_as x (s * p) in
  let hi := reads_as x ((s + 1) * p) in
  let nearer := (((s + 1) * p - x <? x - s * p)
                 || (((s + 1) * p - x =? x - s * p) && Z.odd s))%Z in
  if hi && (negb lo || nearer)
  then (if (s + 1 =? 10 ^ k)%Z then Some (10 ^ (k - 1), d + 1)
        else Some (s + 1, d))%Z
  else if lo then Some (s, d) else None.

(** The fewest digits that read as [x]; seventeen are always enough. *)
Fixpoint shortest_digits (fuel : nat) (x k : Z) : Z * Z :=
  match fuel with
  | O => (x, Z.of_nat (String.length (pretty x)))
  | S fuel =>
      match printed_with x k with
      | Some r => r
      | None => shortest_digits fuel x (k + 1)
      end
  end.

(** [String(x)] for a Number value [x] that is a non-negative integer: the
    fewest digits that read as [x], followed by zeros up to 21 digits and
    in exponent notation beyond; [Infinity] from 2^1024 on. *)
Definition magnitude_text (x : Z) : string :=
  if (2 ^ 1024 <=? x)%Z then "Infinity"
  else
    let '(s, n) := shortest_digits 21 x 1 in
    let k := Z.of_nat (String.length (pretty s)) in
    if (n <=? 21)%Z then pretty (s * 10 ^ (n - k))%Z
    else
      match pretty s with
      | String c EmptyString => String c EmptyString
      | String c rest => String c ("." +:+ rest)
      | EmptyString => EmptyString
      end +:+ "e+" +:+ pretty (n - 1)%Z.

(** [String(z)] for a number *)
Definition number_text (z : Z) : string :=
  (if (z <? 0)%Z then "-" else "") +:+ magnitude_text (nearest_double (Z.abs z)).

(** [arr.join(',')] for the array at [a] of the store [h], as
    [Array.prototype.toString] makes it: an element that is null or
    undefined gives the empty string, and so does an array that is being
    joined already ([visiting]). *)
Fixpoint join_text (fuel : nat) (h : list (list JsValue)) (visiting : list nat)
    (a : nat) : string :=
  match fuel with
  | O => EmptyString
  | S fuel =>
      if decide (a ∈ visiting) then EmptyString
      else
        String.concat ","
          (map (λ e, match e with
                     | JUndefined | JNull => EmptyString
                     | JBool true => "true"
                     | JBool false => "false"
                     | JNum z => number_text z
                     | JNaN => "NaN"
                     | JStr s => s
                     | JArr b => join_text fuel h (a :: visiting) b
                     end) (default [] (h !! a)))
  end.

(** [String(v)], for the arrays of the store [h] *)
Definition to_string (h : list (list JsValue)) (v : JsValue) : string :=
  match v with
  | JUndefined => "undefined"
  | JNull => "null"
  | JBool true => "true"
  | JBool false => "false"
  | JNum z => number_text z
  | JNaN => "NaN"
  | JStr s => s
  | JArr a => join_text (S (length h)) h [] a
  end.

(** The value sanitization of a text input: line feeds and carriage
    returns are stripped. *)
Fixpoint strip_newlines (s : string) : string :=
  match s with
  | EmptyString => EmptyString
  | String c rest =>
      if Ascii.eqb c "010"%char || Ascii.eqb c "013"%char
      then strip_newlines rest
      else String c (strip_newlines rest)
  end.

(** What a text input keeps of a value assigned to its [value]: the string
    of the value, the empty string for null, without line breaks. *)
Definition input_text (h : list (list JsValue)) (v : JsValue) : string :=
  strip_newlines (match v with
                  | JNull => EmptyString
                  | _ => to_string h v
                  end).

Inductive Exn : Type := ReferenceError | TypeError | InvalidCharacterError.

(** The result of running a method from a state: it returns [a], or it
    raises [e]; [s] is the state reached. *)
Inductive Outcome (S A : Type) : Type :=
| Ok (a : A) (s : S)
| Throw (e : Exn) (s : S).
Arguments Ok {S A} a s.
Arguments Throw {S A} e s.

Definition Eff (S A : Type) : Type := S → Outcome S A.

Definition ret {S A} (a : A) : Eff S A := λ s, Ok a s.

Definition bind {S A B} (m : Eff S A) (k : A → Eff S B) : Eff S B :=
  λ s, match m s with
       | Ok a s' => k a s'
       | Throw e s' => Throw e s'
       end.

Definition gets {S A} (f : S → A) : Eff S A := λ s, Ok (f s) s.
Definition modify {S} (f : S → S) : Eff S unit := λ s, Ok tt (f s).
Definition throw {S A} (e : Exn) : Eff S A := λ s, Throw e s.

(** The state a computation leaves, whether it returned or raised. *)
Definition state_of {S A} (o : Outcome S A) : S :=
  match o with Ok _ s => s | Throw _ s => s end.

Definition returned {S A} (o : Outcome S A) : bool :=
  match o with Ok _ _ => true | Throw _ _ => false end.

(** [for (x of l) body(x)] *)
Fixpoint for_each {S A} (l : list A) (body : A → Eff S unit) : Eff S unit :=
  match l with
  | [] => ret tt
  | x :: rest => bind (body x) (λ _, for_each rest body)
  end.

End Js.

Export Js.

Notation "'let*' x ':=' m 'in' k" := (bind m (λ x, k))
  (at level 10, x name, m at level 200, k at level 200, only parsing).

(** ** Plain objects used as maps *)

(** The data object and the library registry are plain objects: own
    properties ([gmap]) over [Object.prototype]. Reading, assigning and
    [hasOwnProperty] at a property name, for every name. The values kept
    in such an object are no functions. *)
Module PlainObject.

(** The property names [Object.prototype] defines. *)
Definition builtin : list string :=
  ["constructor"; "__defineGetter__"; "__defineSetter__"; "hasOwnProperty";
   "__lookupGetter__"; "__lookupSetter__"; "isPrototypeOf";
   "propertyIsEnumerable"; "toString"; "valueOf"; "__proto__";
   "toLocaleString"].

(** A name that [Object.prototype] does not define. *)
Definition ordinary (k : string) : bool := bool_decide (k ∉ builtin).

(** What [o[k]] finds: an own property, a member of [Object.prototype], or
    nothing ([undefined]). *)
Inductive Read (V : Type) : Type :=
| Own (v : V)
| Inherited (member : string)
| Missing.
Global Arguments Own {V} v.
Global Arguments Inherited {V} member.
Global Arguments Missing {V}.

(** [o[k]] *)
Definition get {V} (k : string) (o : gmap string V) : Read V :=
  match o !! k with
  | Some v => Own v
  | None => if bool_decide (k ∈ builtin) then Inherited k else Missing
  end.

(** What [o[k] = v] does: it stores an own property; or, at [__proto__]
    when that is no own property, it calls the setter of
    [Object.prototype], which makes an object or null the prototype of [o]
    and ignores any other value. *)
Inductive Write (V : Type) : Type :=
| Stored (o : gmap string V)
| PrototypeSet (v : V)
| Ignored.
Global Arguments Stored {V} o.
Global Arguments PrototypeSet {V} v.
Global Arguments Ignored {V}.

(** [o[k] = v]; [object_or_null] tells the values that are objects or
    null. *)
Definition set {V} (object_or_null : V → bool) (k : string) (v : V)
    (o : gmap string V) : Write V :=
  if bool_decide (is_Some (o !! k)) || negb (String.eqb k "__proto__")
  then Stored (<[k := v]> o)
  else if object_or_null v then PrototypeSet v else Ignored.

(** The own properties after an assignment. *)
Definition own_after {V} (w : Write V) (o : gmap string V) : gmap string V :=
  match w with
  | Stored o' => o'
  | PrototypeSet _ | Ignored => o
  end.

(** [o.hasOwnProperty(k)]: an own property [hasOwnProperty] hides the
    method, and calling what is no function raises a TypeError ([None]). *)
Definition hasOwnProperty {V} (k : string) (o : gmap string V) : option bool :=
  match o !! "hasOwnProperty" with
  | Some _ => None
  | None => Some (bool_decide (is_Some (o !! k)))
  end.

End PlainObject.

(** ** The component descriptor ([this.component]) *)

Module Descriptor.

(** A default-value expression, by what evaluating it against the data
    object gives: [Some v] is the value computed, [None] says the
    evaluation raises; evaluating is taken to change nothing. [Source] is a
    string, run by [eval] with [value] preset to the empty string; [Logic]
    is a logic tree, given to [FormioUtils.jsonLogic.apply]. *)
Inductive Expression : Type :=
| Absent
| Source (run : gmap string JsValue → option JsValue)
| Logic (apply : gmap string JsValue → option JsValue).

Record t : Type := {
  key : string;
  input : bool;
  multiple : bool;
  defaultValue : JsValue;
  customDefaultValue : Expression;
  disabled : bool;
  inputMask : bool
}.

End Descriptor.

(** ** The instance state *)

(** Function objects, told apart by identity: the closures the component
    creates for its rendered nodes carry the serial number of their creation,
    functions handed in by the host carry the host's own number. *)
Inductive Callback : Type :=
| UpdateValueListener (id : nat)            (* () => this.updateValue() *)
| SubmitListener (id : nat)                 (* keypress: emit('submitButton') on Enter *)
| AddClick (id : nat)                       (* click: this.addValue() *)
| RemoveClick (id : nat) (index : nat)      (* click: this.removeValue(index) *)
| HostFunction (id : nat).

Global Instance Callback_eq_dec : EqDecision Callback.
Proof. solve_decision. Defined.

(** A rendered node: its [value] slot, the listeners attached to it (event
    name and callback), and its [disabled] property. *)
Record Node : Type := {
  node_value : JsValue;
  node_listeners : list (string * Callback);
  node_disabled : bool
}.

(** A place where a rendered node of this instance lives: [this.inputs[i]],
    or the [j]-th control (remove and add buttons) of the row region. *)
Inductive NodeRef : Type :=
| InputNode (i : nat)
| ControlNode (j : nat).

(** The payload of a [componentChange] event; the [component] member is the
    instance's descriptor. *)
Record ChangeEvent : Type := {
  ev_value : JsValue;
  ev_validate : bool
}.

(** Modelled from the spec: the shared, host-supplied event hub
    ([options.events], an event emitter that is not part of Base.js).
    [registered] holds one entry per registration, in registration order;
    [on] adds one entry, [off] takes away the first entry for that event name
    and callback, if there is one, and is silent otherwise; [emitted] is the
    log of what was published. *)
Record Hub : Type := {
  registered : list (string * Callback);
  emitted : list (string * ChangeEvent)
}.

Fixpoint remove_first (p : string * Callback) (l : list (string * Callback))
  : list (string * Callback) :=
  match l with
  | [] => []
  | q :: rest => if decide (q = p) then rest else q :: remove_first p rest
  end.

Definition hub_on (type : string) (cb : Callback) (h : Hub) : Hub :=
  {| registered := registered h ++ [(type, cb)]; emitted := emitted h |}.

Definition hub_off (type : string) (cb : Callback) (h : Hub) : Hub :=
  {| registered := remove_first (type, cb) (registered h); emitted := emitted h |}.

Definition hub_emit (type : string) (e : ChangeEvent) (h : Hub) : Hub :=
  {| registered := registered h; emitted := emitted h ++ [(type, e)] |}.

(** The records of [this.eventListeners] and [this.eventHandlers]. *)
Record ListenerRecord : Type := {
  l_type : string;
  l_listener : Callback;
  l_internal : bool
}.

Record HandlerRecord : Type := {
  h_type : string;
  h_func : Callback
}.

(** Modelled from the spec: the debounced wrapper [_debounce(f, 200)] (lodash,
    not part of Base.js), trailing edge only. A call records its arguments
    and restarts the quiet period; when the period has elapsed with no
    further call, [f] is invoked once with the arguments of the last call. *)
Record Pending : Type := {
  remaining : nat;        (* milliseconds of quiet still needed *)
  lastArgs : bool         (* the [noValidate] argument of the last call *)
}.

Definition debounce_wait : nat := 200.

Record Instance : Type := {
  component : Descriptor.t;
  readOnly : bool;                         (* this.options.readOnly *)
  data : gmap string JsValue;              (* the shared data object *)
  heap : list (list JsValue);              (* the arrays, by reference *)
  tbody : bool;                            (* the row region exists *)
  inputs : list Node;
  controls : list Node;
  value : JsValue;
  pristine : bool;
  _disabled : bool;
  inputMask : option bool;                 (* the mask handle; [Some false]: released *)
  events : option Hub;
  eventListeners : list ListenerRecord;
  eventHandlers : list HandlerRecord;
  windowListeners : list (string * Callback);
  pending : option Pending;                (* the timer behind this.triggerChange *)
  closures : nat                           (* closures created so far *)
}.

(** Field updates ([this.f = x]). *)

Definition set_data (x : gmap string JsValue) (st : Instance) : Instance :=
  {| component := component st; readOnly := readOnly st; data := x;
     heap := heap st; tbody := tbody st; inputs := inputs st;
     controls := controls st; value := value st; pristine := pristine st;
     _disabled := _disabled st; inputMask := inputMask st;
     events := events st; eventListeners := eventListeners st;
     eventHandlers := eventHandlers st;
     windowListeners := windowListeners st; pending := pending st;
     closures := closures st |}.

Definition set_heap (x : list (list JsValue)) (st : Instance) : Instance :=
  {| component := component st; readOnly := readOnly st; data := data st;
     heap := x; tbody := tbody st; inputs := inputs st;
     controls := controls st; value := value st; pristine := pristine st;
     _disabled := _disabled st; inputMask := inputMask st;
     events := events st; eventListeners := eventListeners st;
     eventHandlers := eventHandlers st;
     windowListeners := windowListeners st; pending := pending st;
     closures := closures st |}.

Definition set_tbody (x : bool) (st : Instance) : Instance :=
  {| component := component st; readOnly := readOnly st; data := data st;
     heap := heap st; tbody := x; inputs := inputs st;
     controls := controls st; value := value st; pristine := pristine st;
     _disabled := _disabled st; inputMask := inputMask st;
     events := events st; eventListeners := eventListeners st;
     eventHandlers := eventHandlers st;
     windowListeners := windowListeners st; pending := pending st;
     closures := closures st |}.

Definition set_inputs (x : list Node) (st : Instance) : Instance :=
  {| component := component st; readOnly := readOnly st; data := data st;
     heap := heap st; tbody := tbody st; inputs := x;
     controls := controls st; value := value st; pristine := pristine st;
     _disabled := _disabled st; inputMask := inputMask st;
     events := events st; eventListeners := eventListeners st;
     eventHandlers := eventHandlers st;
     windowListeners := windowListeners st; pending := pending st;
     closures := closures st |}.

Definition set_controls (x : list Node) (st : Instance) : Instance :=
  {| component := component st; readOnly := readOnly st; data := data st;
     heap := heap st; tbody := tbody st; inputs := inputs st; controls := x;
     value := value st; pristine := pristine st; _disabled := _disabled st;
     inputMask := inputMask st; events := events st;
     eventListeners := eventListeners st; eventHandlers := eventHandlers st;
     windowListeners := windowListeners st; pending := pending st;
     closures := closures st |}.

Definition set_value (x : JsValue) (st : Instance) : Instance :=
  {| component := component st; readOnly := readOnly st; data := data st;
     heap := heap st; tbody := tbody st; inputs := inputs st;
     controls := controls st; value := x; pristine := pristine st;
     _disabled := _disabled st; inputMask := inputMask st;
     events := events st; eventListeners := eventListeners st;
     eventHandlers := eventHandlers st;
     windowListeners := windowListeners st; pending := pending st;
     closures := closures st |}.

Definition set_pristine (x : bool) (st : Instance) : Instance :=
  {| component := component st; readOnly := readOnly st; data := data st;
     heap := heap st; tbody := tbody st; inputs := inputs st;
     controls := controls st; value := value st; pristine := x;
     _disabled := _disabled st; inputMask := inputMask st;
     events := events st; eventListeners := eventListeners st;
     eventHandlers := eventHandlers st;
     windowListeners := windowListeners st; pending := pending st;
     closures := closures st |}.

Definition set_disabled (x : bool) (st : Instance) : Instance :=
  {| component := component st; readOnly := readOnly st; data := data st;
     heap := heap st; tbody := tbody st; inputs := inputs st;
     controls := controls st; value := value st; pristine := pristine st;
     _disabled := x; inputMask := inputMask st; events := events st;
     eventListeners := eventListeners st; eventHandlers := eventHandlers st;
     windowListeners := windowListeners st; pending := pending st;
     closures := closures st |}.

Definition set_inputMask (x : option bool) (st : Instance) : Instance :=
  {| component := component st; readOnly := readOnly st; data := data st;
     heap := heap st; tbody := tbody st; inputs := inputs st;
     controls := controls st; value := value st; pristine := pristine st;
     _disabled := _disabled st; inputMask := x; events := events st;
     eventListeners := eventListeners st; eventHandlers := eventHandlers st;
     windowListeners := windowListeners st; pending := pending st;
     closures := closures st |}.

Definition set_events (x : option Hub) (st : Instance) : Instance :=
  {| component := component st; readOnly := readOnly st; data := data st;
     heap := heap st; tbody := tbody st; inputs := inputs st;
     controls := controls st; value := value st; pristine := pristine st;
     _disabled := _disabled st; inputMask := inputMask st; events := x;
     eventListeners := eventListeners st; eventHandlers := eventHandlers st;
     windowListeners := windowListeners st; pending := pending st;
     closures := closures st |}.

Definition set_eventListeners (x : list ListenerRecord) (st : Instance) : Instance :=
  {| component := component st; readOnly := readOnly st; data := data st;
     heap := heap st; tbody := tbody st; inputs := inputs st;
     controls := controls st; value := value st; pristine := pristine st;
     _disabled := _disabled st; inputMask := inputMask st;
     events := events st; eventListeners := x;
     eventHandlers := eventHandlers st;
     windowListeners := windowListeners st; pending := pending st;
     closures := closures st |}.

Definition set_eventHandlers (x : list HandlerRecord) (st : Instance) : Instance :=
  {| component := component st; readOnly := readOnly st; data := data st;
     heap := heap st; tbody := tbody st; inputs := inputs st;
     controls := controls st; value := value st; pristine := pristine st;
     _disabled := _disabled st; inputMask := inputMask st;
     events := events st; eventListeners := eventListeners st;
     eventHandlers := x; windowListeners := windowListeners st;
     pending := pending st; closures := closures st |}.

Definition set_windowListeners (x : list (string * Callback)) (st : Instance) : Instance :=
  {| component := component st; readOnly := readOnly st; data := data st;
     heap := heap st; tbody := tbody st; inputs := inputs st;
     controls := controls st; value := value st; pristine := pristine st;
     _disabled := _disabled st; inputMask := inputMask st;
     events := events st; eventListeners := eventListeners st;
     eventHandlers := eventHandlers st; windowListeners := x;
     pending := pending st; closures := closures st |}.

Definition set_pending (x : option Pending) (st : Instance) : Instance :=
  {| component := component st; readOnly := readOnly st; data := data st;
     heap := heap st; tbody := tbody st; inputs := inputs st;
     controls := controls st; value := value st; pristine := pristine st;
     _disabled := _disabled st; inputMask := inputMask st;
     events := events st; eventListeners := eventListeners st;
     eventHandlers := eventHandlers st;
     windowListeners := windowListeners st; pending := x;
     closures := closures st |}.

Definition set_closures (x : nat) (st : Instance) : Instance :=
  {| component := component st; readOnly := readOnly st; data := data st;
     heap := heap st; tbody := tbody st; inputs := inputs st;
     controls := controls st; value := value st; pristine := pristine st;
     _disabled := _disabled st; inputMask := inputMask st;
     events := events st; eventListeners := eventListeners st;
     eventHandlers := eventHandlers st;
     windowListeners := windowListeners st; pending := pending st;
     closures := x |}.

(** ** The methods of BaseComponent *)

Module BaseComponent.

Definition M (A : Type) : Type := Eff Instance A.

(** *** The data object and the arrays it refers to *)

(** [this.data[this.component.key]], at a key that [Object.prototype] does
    not define: the own property, or undefined. *)
Definition entry (st : Instance) : JsValue :=
  default JUndefined (data st !! Descriptor.key (component st)).

(** [this.data.hasOwnProperty(this.component.key)], the method being that
    of [Object.prototype]. *)
Definition hasOwnEntry (st : Instance) : bool :=
  bool_decide (is_Some (data st !! Descriptor.key (component st))).

(** [this.data[this.component.key] = v], at a key that [Object.prototype]
    does not define: an own property is stored. *)
Definition write_entry (v : JsValue) : M unit :=
  modify (λ st, set_data (<[Descriptor.key (component st) := v]> (data st)) st).

(** An array literal: a new array, known by its reference. *)
Definition new_array (l : list JsValue) : M nat :=
  λ st, Ok (length (heap st)) (set_heap (heap st ++ [l]) st).

(** The elements of the array behind [v]; no elements when [v] is no array. *)
Definition elements (v : JsValue) (st : Instance) : list JsValue :=
  match v with
  | JArr a => default [] (heap st !! a)
  | _ => []
  end.

(** [v[i]] for an array [v] *)
Definition element (v : JsValue) (i : nat) (st : Instance) : JsValue :=
  default JUndefined (elements v st !! i).

(** [arr.push(v)] *)
Definition push (arr : JsValue) (v : JsValue) : M unit :=
  match arr with
  | JArr a => modify (λ st, set_heap (alter (λ l, l ++ [v]) a (heap st)) st)
  | _ => throw TypeError
  end.

(** [arr.splice(index, 1)] *)
Definition splice1 (arr : JsValue) (index : nat) : M unit :=
  match arr with
  | JArr a => modify (λ st, set_heap (alter (delete index) a (heap st)) st)
  | _ => throw TypeError
  end.

(** *** Default value *)

(** [get defaultValue()]. The handler of the logic-tree branch names [e],
    which is bound only in the handler of the string branch: when
    [jsonLogic.apply] raises, the handler raises a ReferenceError. *)
Definition defaultValue : M JsValue :=
  let* c := gets component in
  if truthy (Descriptor.defaultValue c) then ret (Descriptor.defaultValue c)
  else
    match Descriptor.customDefaultValue c with
    | Descriptor.Absent => ret (JStr "")
    | Descriptor.Source run =>
        let* d := gets data in
        match run d with
        | Some v => ret v
        | None => ret JNull
        end
    | Descriptor.Logic apply =>
        let* d := gets data in
        match apply d with
        | Some v => ret v
        | None => throw ReferenceError
        end
    end.

(** *** Reading the rendered inputs *)

(** [getValueAt(index)] *)
Definition getValueAt (index : nat) : M JsValue :=
  let* ins := gets inputs in
  match ins !! index with
  | Some n => ret (node_value n)
  | None => throw TypeError
  end.

(** The [for (let i in this.inputs)] loop of [getValue]; [Some v] is the
    early [return] of the single-value case. *)
Fixpoint getValue_rows (rows : list nat) (values : nat) : M (option JsValue) :=
  match rows with
  | [] => ret None
  | i :: rest =>
      let* c := gets component in
      if negb (Descriptor.multiple c) then
        let* v := getValueAt i in
        let* _ := modify (set_value v) in
        ret (Some v)
      else
        let* v := getValueAt i in
        let* _ := push (JArr values) v in
        getValue_rows rest values
  end.

(** [getValue()] *)
Definition getValue : M JsValue :=
  let* c := gets component in
  if negb (Descriptor.input c) then ret JUndefined
  else
    let* values := new_array [] in
    let* rows := gets (λ st, seq 0 (length (inputs st))) in
    let* r := getValue_rows rows values in
    match r with
    | Some v => ret v
    | None => let* _ := modify (set_value (JArr values)) in ret (JArr values)
    end.

(** *** Change notification *)

(** [this.triggerChange(noValidate)]: the debounced [onChange]. *)
Definition triggerChange (noValidate : bool) : M unit :=
  modify (set_pending (Some {| remaining := debounce_wait; lastArgs := noValidate |})).

(** [emit(event, data)] for the change event *)
Definition emit (event : string) (e : ChangeEvent) : M unit :=
  let* ev := gets events in
  match ev with
  | Some h => modify (set_events (Some (hub_emit ("formio." +:+ event) e h)))
  | None => throw TypeError
  end.

(** [onChange(noValidate)] *)
Definition onChange (noValidate : bool) : M unit :=
  let* _ := (if negb noValidate then modify (set_pristine false) else ret tt) in
  let* ev := gets events in
  match ev with
  | Some _ =>
      let* v := gets value in
      emit "componentChange" {| ev_value := v; ev_validate := negb noValidate |}
  | None => ret tt
  end.

(** [dt] milliseconds pass with no call into the instance: a pending
    debounced call whose quiet period ends within them is made. *)
Definition elapse (dt : nat) : M unit :=
  let* p := gets pending in
  match p with
  | None => ret tt
  | Some p =>
      if remaining p <=? dt then
        let* _ := modify (set_pending None) in onChange (lastArgs p)
      else
        modify (set_pending (Some {| remaining := remaining p - dt;
                                     lastArgs := lastArgs p |}))
  end.

(** [updateValue(noValidate)] *)
Definition updateValue (noValidate : bool) : M unit :=
  let* value := gets entry in
  let falsey := negb (truthy value) && negb (strict_eq value JNull)
                && negb (strict_eq value JUndefined) in
  let* v := getValue in
  let* _ := write_entry v in
  let* new := gets entry in
  let changed := negb (strict_eq value new) in
  if negb changed then ret tt
  else if falsey then
    (if truthy new then triggerChange noValidate else ret tt)
  else triggerChange noValidate.

(** *** Writing the rendered inputs *)

Definition with_value (v : JsValue) (n : Node) : Node :=
  {| node_value := v; node_listeners := node_listeners n;
     node_disabled := node_disabled n |}.

(** [input.value = value] for a text input: the input keeps a string. *)
Definition assigned (value : JsValue) (n : Node) (st : Instance) : Node :=
  with_value (JStr (input_text (heap st) value)) n.

(** [setValueAt(index, value)] *)
Definition setValueAt (index : nat) (value : JsValue) : M unit :=
  let* value := (if nullish value then defaultValue else ret value) in
  let* ins := gets inputs in
  match ins !! index with
  | Some n => modify (λ st, set_inputs (<[index := assigned value n st]> ins) st)
  | None => throw TypeError
  end.

(** [setValue(value, noUpdate, noValidate)] *)
Definition setValue (v : JsValue) (noUpdate noValidate : bool) : M unit :=
  let* c := gets component in
  if negb (Descriptor.input c) then ret tt
  else
    let* _ := modify (set_value v) in
    let isArr := isArray v in
    let* rows := gets (λ st, seq 0 (length (inputs st))) in
    let* _ := for_each rows (λ i,
      let* x := gets (λ st, if isArr then element v i st else v) in
      setValueAt i x) in
    if negb noUpdate then updateValue noValidate else ret tt.

(** *** Listeners *)

Definition node_at (r : NodeRef) (st : Instance) : option Node :=
  match r with
  | InputNode i => inputs st !! i
  | ControlNode j => controls st !! j
  end.

Definition put_node (r : NodeRef) (n : Node) (st : Instance) : Instance :=
  match r with
  | InputNode i => set_inputs (<[i := n]> (inputs st)) st
  | ControlNode j => set_controls (<[j := n]> (controls st)) st
  end.

(** [node.addEventListener(evt, func, false)]: a listener already attached
    for that event is not attached again. *)
Definition attach (evt : string) (func : Callback) (n : Node) : Node :=
  {| node_value := node_value n;
     node_listeners :=
       if decide ((evt, func) ∈ node_listeners n) then node_listeners n
       else node_listeners n ++ [(evt, func)];
     node_disabled := node_disabled n |}.

(** [addEventListener(obj, evt, func)] *)
Definition addEventListener (obj : NodeRef) (evt : string) (func : Callback)
  : M unit :=
  let* _ := modify (λ st,
    set_eventHandlers
      (eventHandlers st ++ [{| h_type := evt; h_func := func |}]) st) in
  let* n := gets (node_at obj) in
  match n with
  | Some n => modify (put_node obj (attach evt func n))
  | None => throw TypeError
  end.

(** [on(event, cb, internal)] *)
Definition on (event : string) (cb : Callback) (internal : bool) : M unit :=
  let* ev := gets events in
  match ev with
  | None => ret tt
  | Some h =>
      let type := "formio." +:+ event in
      let* _ := modify (λ st,
        set_eventListeners
          (eventListeners st ++
             [{| l_type := type; l_listener := cb; l_internal := internal |}]) st) in
      modify (set_events (Some (hub_on type cb h)))
  end.

(** [this.events.off(type, listener)] *)
Definition events_off (type : string) (listener : Callback) : M unit :=
  let* ev := gets events in
  match ev with
  | Some h => modify (set_events (Some (hub_off type listener h)))
  | None => throw TypeError
  end.

(** [window.removeEventListener(type, func)] *)
Definition window_removeEventListener (type : string) (func : Callback) : M unit :=
  modify (λ st,
    set_windowListeners
      (filter (λ p, p ≠ (type, func)) (windowListeners st)) st).

(** [destroy(all)]. The handler records have the members [type] and
    [func]; [handler.event] is undefined, which the window reads as the
    event name "undefined". *)
Definition destroy (all : bool) : M unit :=
  let* mask := gets inputMask in
  let* _ := match mask with
            | Some _ => modify (set_inputMask (Some false))
            | None => ret tt
            end in
  let* ls := gets eventListeners in
  let* _ := for_each ls (λ listener,
    if all || l_internal listener
    then events_off (l_type listener) (l_listener listener)
    else ret tt) in
  let* hs := gets eventHandlers in
  for_each hs (λ handler,
    window_removeEventListener "undefined" (h_func handler)).

(** *** Rendering inputs and rows *)

(** A closure, numbered by its creation. *)
Definition new_closure (mk : nat → Callback) : M Callback :=
  let* k := gets closures in
  let* _ := modify (set_closures (S k)) in
  ret (mk k).

Definition fresh_node : Node :=
  {| node_value := JStr ""; node_listeners := []; node_disabled := false |}.

(** [addInput(input, container)] for a new input and its container *)
Definition addInput : M unit :=
  let* input := gets (λ st, length (inputs st)) in
  let* _ := modify (λ st, set_inputs (inputs st ++ [fresh_node]) st) in
  let* f := new_closure UpdateValueListener in
  let* _ := addEventListener (InputNode input) "change" f in
  let* g := new_closure SubmitListener in
  let* _ := addEventListener (InputNode input) "keypress" g in
  let* has := gets hasOwnEntry in
  if has then
    let* v := gets entry in
    setValue v true false
  else ret tt.

(** [createInput(container)] *)
Definition createInput : M unit :=
  let* c := gets component in
  let* _ := (if Descriptor.inputMask c
             then modify (set_inputMask (Some true)) else ret tt) in
  addInput.

(** [removeButton(index)] and [addButton()] *)
Definition removeButton (index : nat) : M unit :=
  let* j := gets (λ st, length (controls st)) in
  let* _ := modify (λ st, set_controls (controls st ++ [fresh_node]) st) in
  let* f := new_closure (λ k, RemoveClick k index) in
  addEventListener (ControlNode j) "click" f.

Definition addButton : M unit :=
  let* j := gets (λ st, length (controls st)) in
  let* _ := modify (λ st, set_controls (controls st ++ [fresh_node]) st) in
  let* f := new_closure AddClick in
  addEventListener (ControlNode j) "click" f.

(** [set disabled(disabled)] *)
Definition set_disabled_all (d : bool) : M unit :=
  modify (λ st,
    set_inputs
      (map (λ n, {| node_value := node_value n;
                    node_listeners := node_listeners n;
                    node_disabled := d |}) (inputs st))
      (set_disabled d st)).

(** How many times [_each(v, ...)] calls back: once per element of an
    array, once per character of a string. *)
Definition each_count (v : JsValue) (st : Instance) : nat :=
  match v with
  | JArr _ => length (elements v st)
  | JStr s => String.length s
  | _ => 0
  end.

(** [buildRows()]. Emptying the row region ([tbody.innerHTML = '']) drops
    its buttons. *)
Definition buildRows : M unit :=
  let* tb := gets tbody in
  if negb tb then ret tt
  else
    let* _ := modify (set_inputs []) in
    let* _ := modify (set_controls []) in
    let* n := gets (λ st, each_count (entry st) st) in
    let* _ := for_each (seq 0 n) (λ index,
      let* _ := createInput in
      removeButton index) in
    let* _ := addButton in
    let* off := gets (λ st, readOnly st || Descriptor.disabled (component st)) in
    if off then set_disabled_all true else ret tt.

(** *** Rows of a multiple-value component *)

(** [addNewValue()] *)
Definition addNewValue : M unit :=
  let* cur := gets entry in
  let* _ := (if negb (truthy cur)
             then let* a := new_array [] in write_entry (JArr a)
             else ret tt) in
  let* cur := gets entry in
  let* _ := (if negb (isArray cur)
             then let* a := new_array [cur] in write_entry (JArr a)
             else ret tt) in
  let* arr := gets entry in
  let* dv := defaultValue in
  push arr dv.

(** [addValue()] *)
Definition addValue : M unit :=
  let* _ := addNewValue in
  buildRows.

(** [removeValue(index)] *)
Definition removeValue (index : nat) : M unit :=
  let* has := gets hasOwnEntry in
  let* _ := (if has
             then let* arr := gets entry in splice1 arr index
             else ret tt) in
  buildRows.

(** *** Construction and build *)

(** [new BaseComponent(component, options, data)]: the state the
    constructor leaves, for the options [readOnly] and [events] and the
    data object (with the arrays it refers to). *)
Definition create (c : Descriptor.t) (opt_readOnly : bool) (opt_events : option Hub)
    (d : gmap string JsValue) (arrays : list (list JsValue)) : Instance :=
  {| component := c; readOnly := opt_readOnly; data := d; heap := arrays;
     tbody := false; inputs := []; controls := []; value := JNull;
     pristine := true; _disabled := false; inputMask := None;
     events := opt_events; eventListeners := []; eventHandlers := [];
     windowListeners := []; pending := None; closures := 0 |}.

(** [v.length] *)
Definition length_of (v : JsValue) (st : Instance) : JsValue :=
  match v with
  | JArr _ => JNum (Z.of_nat (length (elements v st)))
  | JStr s => JNum (Z.of_nat (String.length s))
  | _ => JUndefined
  end.

(** [createWrapper()] *)
Definition createWrapper : M bool :=
  let* c := gets component in
  if negb (Descriptor.multiple c) then ret false
  else
    let* _ := modify (set_tbody true) in
    let* seed := gets (λ st,
      negb (truthy (entry st)) || negb (truthy (length_of (entry st) st))) in
    let* _ := (if seed then addNewValue else ret tt) in
    let* _ := buildRows in
    ret true.

(** [build()]. The element, label and description nodes it creates carry no
    state that the methods above read. *)
Definition build : M unit :=
  let* wrapped := createWrapper in
  let* _ := (if negb wrapped then createInput else ret tt) in
  let* off := gets (λ st, readOnly st || Descriptor.disabled (component st)) in
  let* _ := (if off then set_disabled_all true else ret tt) in
  let* dv := defaultValue in
  if truthy dv then setValue dv false false else ret tt.

(** *** Clicks on the buttons of the row region *)

(** What the click listeners of this class do when they are called: the one
    of [addButton()] calls [addValue()], the one of [removeButton(index)]
    calls [removeValue(index)]. *)
Definition on_click (f : Callback) : M unit :=
  match f with
  | AddClick _ => addValue
  | RemoveClick _ index => removeValue index
  | _ => ret tt
  end.

(** A click on the [j]-th button of the row region calls its click
    listeners (each button is given one). *)
Definition click (j : nat) : M unit :=
  let* cs := gets controls in
  match cs !! j with
  | Some n =>
      for_each (filter (λ l, l.1 = "click") (node_listeners n))
        (λ l, on_click l.2)
  | None => ret tt
  end.

(** *** Input masks *)

(** The regular expressions of an input mask: the three that getInputMask
    produces, and any other one a mask given as an array may hold. *)
Inductive Regex : Type :=
| Digit                      (* /\d/ *)
| Letter                     (* /[a-zA-Z]/ *)
| Alphanumeric               (* /[a-zA-Z0-9]/ *)
| OtherRegex (source : string).

(** An element of a mask array: a regular expression or a string. *)
Inductive MaskItem : Type :=
| Pattern (re : Regex)
| Fixed (text : string).

(** A Form.io input mask: a string, or an array for the mask library. *)
Inductive Mask : Type :=
| MaskString (mask : string)
| MaskArray (items : list MaskItem).

(** The body of the loop of getInputMask: the [switch] on [mask[i]]. *)
Definition mask_item (c : Ascii.ascii) : MaskItem :=
  if Ascii.eqb c "9"%char then Pattern Digit
  else if Ascii.eqb c "A"%char then Pattern Letter
  else if Ascii.eqb c "*"%char then Pattern Alphanumeric
  else Fixed (String c EmptyString).

Fixpoint mask_items (mask : string) : list MaskItem :=
  match mask with
  | EmptyString => []
  | String c rest => mask_item c :: mask_items rest
  end.

(** [getInputMask(mask)] *)
Definition getInputMask (mask : Mask) : list MaskItem :=
  match mask with
  | MaskArray items => items
  | MaskString s => mask_items s
  end.

(** [maskPlaceholder(mask)]: [mask.map(...).join('')] *)
Definition maskPlaceholder (mask : list MaskItem) : string :=
  foldr String.append EmptyString
    (map (λ item, match item with
                  | Pattern _ => "_"
                  | Fixed text => text
                  end) mask).

(** *** Select elements *)

(** An [option] element: its value, its label and whether it carries the
    [selected] attribute. *)
Record OptionElement : Type := {
  opt_value : string;
  opt_label : string;
  opt_selected : bool
}.

(** A [select] element: its options, whether [onchange] and [onselect] are
    set, and how often [onchange] has been called. *)
Record SelectElement : Type := {
  sel_options : list OptionElement;
  sel_onchange : bool;
  sel_onselect : bool;
  sel_changes : nat
}.

(** [selectOptions(select, tag, options, defaultValue)] for options given
    by value and label *)
Definition selectOptions (options : list (string * string)) (defaultValue : JsValue)
  : Eff SelectElement unit :=
  for_each options (λ option,
    let selected := negb (strict_eq defaultValue JUndefined)
                    && strict_eq (JStr option.1) defaultValue in
    modify (λ sel,
      {| sel_options := sel_options sel
                        ++ [{| opt_value := option.1; opt_label := option.2;
                               opt_selected := selected |}];
         sel_onchange := sel_onchange sel; sel_onselect := sel_onselect sel;
         sel_changes := sel_changes sel |})).

(** [select.onchange()] *)
Definition call_onchange : Eff SelectElement unit :=
  let* f := gets sel_onchange in
  if f then
    modify (λ sel,
      {| sel_options := sel_options sel; sel_onchange := sel_onchange sel;
         sel_onselect := sel_onselect sel; sel_changes := S (sel_changes sel) |})
  else throw TypeError.

(** [setSelectValue(select, value)] *)
Definition setSelectValue (value : JsValue) : Eff SelectElement unit :=
  let* _ := modify (λ sel,
    {| sel_options :=
         map (λ o, {| opt_value := opt_value o; opt_label := opt_label o;
                      opt_selected := strict_eq (JStr (opt_value o)) value |})
             (sel_options sel);
       sel_onchange := sel_onchange sel; sel_onselect := sel_onselect sel;
       sel_changes := sel_changes sel |}) in
  let* onchange := gets sel_onchange in
  let* _ := (if onchange then call_onchange else ret tt) in
  let* onselect := gets sel_onselect in
  if onselect then call_onchange else ret tt.

(** *** Calculated values *)

(** The member [component.calculateValue]: missing, a string of code, or a
    logic tree. [run data row value] is what evaluating the string leaves in
    the variable [value], which starts as [value], or the exception it
    raises; [apply data row] is what [jsonLogic.apply] returns or raises. *)
Inductive Calculation : Type :=
| NoCalculation
| Script (run : gmap string JsValue → gmap string JsValue → JsValue → JsValue + Exn)
| Tree (apply : gmap string JsValue → gmap string JsValue → JsValue + Exn).

(** [try { body } catch (_) { handler }] *)
Definition try_catch {A} (body : M A) (handler : Exn → M A) : M A :=
  λ st, match body st with
        | Ok a st' => Ok a st'
        | Throw e st' => handler e st'
        end.

(** [calculateValue(data)], for [component.calculateValue] given as [calc].
    The handler of the string branch warns on the console; the handler of
    the logic-tree branch names [e], which is not bound there, and so
    raises a ReferenceError. *)
Definition calculateValue (calc : Calculation) (global : gmap string JsValue)
  : M unit :=
  match calc with
  | NoCalculation => ret tt
  | Script run =>
      try_catch
        (let* value := new_array [] in
         let* row := gets data in
         match run global row (JArr value) with
         | inl v => setValue v false false
         | inr e => throw e
         end)
        (λ _, ret tt)
  | Tree apply =>
      try_catch
        (let* row := gets data in
         match apply global row with
         | inl v => setValue v false false
         | inr e => throw e
         end)
        (λ _, throw ReferenceError)
  end.

End BaseComponent.

(** ** The external-library registry ([BaseComponent.externalLibraries]) *)

Module Loader.

(** What a property of [window] holds: a value, or the callback installed
    for a library, [function() { this.resolve(); }] bound to its entry. *)
Inductive WindowValue : Type :=
| Plain (v : JsValue)
| Resolver (name : string).

Definition present (w : option WindowValue) : bool :=
  match w with
  | Some (Plain v) => truthy v
  | Some (Resolver _) => true
  | None => false
  end.

Inductive Settlement : Type :=
| Unsettled
| Resolved (plugin : option WindowValue).

(** One element of [src]: a URL, or an object with [type] and [src];
    [NoLibrary] is a missing one (undefined). *)
Inductive Library : Type :=
| Url (src : string)
| Described (type : string) (src : string)
| NoLibrary.

Inductive Src : Type :=
| One (lib : Library)
| Many (libs : list Library).

(** The elements appended to the document head. *)
Inductive Resource : Type :=
| ScriptElement (src : string)
| LinkElement (href : string).

(** A registry entry: its [ready] promise, by reference; [resolve] and
    [reject] are the functions of that promise. *)
Record Entry : Type := { ready : nat }.

Record World : Type := {
  externalLibraries : gmap string Entry;
  promises : list Settlement;
  window : gmap string WindowValue;
  head : list Resource;
  timeouts : list (string * string)   (* pending checkLibrary timers: name, property *)
}.

Definition L (A : Type) : Type := Eff World A.

Definition set_externalLibraries (x : gmap string Entry) (w : World) : World :=
  {| externalLibraries := x; promises := promises w; window := window w;
     head := head w; timeouts := timeouts w |}.
Definition set_promises (x : list Settlement) (w : World) : World :=
  {| externalLibraries := externalLibraries w; promises := x; window := window w;
     head := head w; timeouts := timeouts w |}.
Definition set_window (x : gmap string WindowValue) (w : World) : World :=
  {| externalLibraries := externalLibraries w; promises := promises w; window := x;
     head := head w; timeouts := timeouts w |}.
Definition set_head (x : list Resource) (w : World) : World :=
  {| externalLibraries := externalLibraries w; promises := promises w;
     window := window w; head := x; timeouts := timeouts w |}.
Definition set_timeouts (x : list (string * string)) (w : World) : World :=
  {| externalLibraries := externalLibraries w; promises := promises w;
     window := window w; head := head w; timeouts := x |}.

(** [entry.resolve(plugin)]: settles the promise unless it is settled. *)
Definition resolve (p : nat) (plugin : option WindowValue) : L unit :=
  modify (λ w,
    match promises w !! p with
    | Some Unsettled => set_promises (<[p := Resolved plugin]> (promises w)) w
    | _ => w
    end).

(** The body of [src.forEach]: the element to create for one library. *)
Definition inject (lib : Library) : L unit :=
  let* lib := (match lib with
               | Url s => ret ("script", s)
               | Described type s => ret (type, s)
               | NoLibrary => throw TypeError
               end) in
  let '(type, s) := lib in
  if String.eqb type "script" then
    modify (λ w, set_head (head w ++ [ScriptElement s]) w)
  else if String.eqb type "styles" then
    modify (λ w, set_head (head w ++ [LinkElement s]) w)
  else
    (* document.createElement('') *)
    throw InvalidCharacterError.

(** [BaseComponent.requireLibrary(name, property, src, polling)], for a
    name that [Object.prototype] does not define, the [hasOwnProperty] of
    the registry being the method of [Object.prototype]. *)
Definition requireLibrary (name property : string) (src : Src) (polling : bool)
  : L nat :=
  let* known := gets (λ w, bool_decide (is_Some (externalLibraries w !! name))) in
  let* _ :=
    (if negb known then
       let* p := gets (λ w, length (promises w)) in
       let* _ := modify (λ w, set_promises (promises w ++ [Unsettled]) w) in
       let* _ := modify (λ w,
         set_externalLibraries (<[name := {| ready := p |}]> (externalLibraries w)) w) in
       let* callback := gets (λ w, window w !! (name +:+ "Callback")) in
       let* _ := (if negb polling && negb (present callback)
                  then modify (λ w,
                    set_window (<[name +:+ "Callback" := Resolver name]> (window w)) w)
                  else ret tt) in
       let* plugin := gets (λ w, window w !! property) in
       if present plugin then resolve p plugin
       else
         let src := match src with One lib => [lib] | Many libs => libs end in
         let* _ := for_each src inject in
         if polling
         then modify (λ w, set_timeouts (timeouts w ++ [(name, property)]) w)
         else ret tt
     else ret tt) in
  let* e := gets (λ w, externalLibraries w !! name) in
  match e with
  | Some e => ret (ready e)
  | None => throw TypeError
  end.

(** [checkLibrary], the timer callback of the polling branch. *)
Definition checkLibrary (name property : string) : L unit :=
  let* plugin := gets (λ w, window w !! property) in
  if present plugin then
    let* e := gets (λ w, externalLibraries w !! name) in
    match e with
    | Some e => resolve (ready e) plugin
    | None => throw TypeError
    end
  else modify (λ w, set_timeouts (timeouts w ++ [(name, property)]) w).

(** A loaded script calls [window[name + 'Callback']()]: where that is
    the callback installed by requireLibrary, it resolves its entry. *)
Definition run_callback (name : string) : L unit :=
  let* callback := gets (λ w, window w !! (name +:+ "Callback")) in
  match callback with
  | Some (Resolver lib) =>
      let* e := gets (λ w, externalLibraries w !! lib) in
      match e with
      | Some e => resolve (ready e) None
      | None => throw TypeError
      end
  | _ => ret tt
  end.

(** 200 ms pass: the oldest pending timer fires. *)
Definition fire_timeout : L unit :=
  let* ts := gets timeouts in
  match ts with
  | [] => ret tt
  | (name, property) :: rest =>
      let* _ := modify (set_timeouts rest) in
      checkLibrary name property
  end.

(** What [BaseComponent.libraryReady(name)] returns: the [ready] promise of
    an entry, or a new promise that is rejected with a reason. *)
Inductive Future : Type :=
| Ready (p : nat)
| Rejected (reason : string).

(** [BaseComponent.libraryReady(name)], for such a name and registry *)
Definition libraryReady (name : string) : L Future :=
  let* e := gets (λ w, externalLibraries w !! name) in
  match e with
  | Some e => ret (Ready (ready e))
  | None => ret (Rejected (name +:+ " library was not required."))
  end.

End Loader.

(** ** Validity ([checkValidity], [setCustomValidity]) *)

Module Validity.

(** The instance together with what validation reads and writes: the class
    attribute of the wrapping element once build() has created it, the
    recorded error (its message), the custom validity message of each
    input, and the messages of the error events published on the hub. The
    error element that setCustomValidity creates, fills and removes carries
    no state that decides anything here. *)
Record View : Type := {
  instance : Instance;
  highlightErrors : bool;           (* options.highlightErrors *)
  element : option string;          (* this.element, by its class attribute *)
  error : option string;            (* this.error, by its message *)
  validity : list string;           (* input.setCustomValidity(...) *)
  published : list string           (* emit('componentError', this.error) *)
}.

Definition V (A : Type) : Type := Eff View A.

Definition set_element (x : option string) (v : View) : View :=
  {| instance := instance v; highlightErrors := highlightErrors v; element := x;
     error := error v; validity := validity v; published := published v |}.
Definition set_error (x : option string) (v : View) : View :=
  {| instance := instance v; highlightErrors := highlightErrors v;
     element := element v; error := x; validity := validity v;
     published := published v |}.
Definition set_validity (x : list string) (v : View) : View :=
  {| instance := instance v; highlightErrors := highlightErrors v;
     element := element v; error := error v; validity := x;
     published := published v |}.
Definition set_published (x : list string) (v : View) : View :=
  {| instance := instance v; highlightErrors := highlightErrors v;
     element := element v; error := error v; validity := validity v;
     published := x |}.

Fixpoint drop_chars (n : nat) (s : string) : string :=
  match n, s with
  | S n, String _ rest => drop_chars n rest
  | _, _ => s
  end.

(** [s.replace(pat, '')] for a string [pat]: the first occurrence goes. *)
Fixpoint replace_first (pat s : string) : string :=
  if String.prefix pat s then drop_chars (String.length pat) s
  else match s with
       | EmptyString => EmptyString
       | String c rest => String c (replace_first pat rest)
       end.

(** [addClass(this.element, className)] *)
Definition addClass (className : string) : V unit :=
  let* e := gets element in
  match e with
  | Some cls => modify (set_element (Some (cls +:+ " " +:+ className)))
  | None => throw TypeError
  end.

(** [removeClass(this.element, className)] *)
Definition removeClass (className : string) : V unit :=
  let* e := gets element in
  match e with
  | Some cls => modify (set_element (Some (replace_first className cls)))
  | None => throw TypeError
  end.

(** [emit('componentError', this.error)] *)
Definition emit_error (message : string) : V unit :=
  let* ev := gets (λ v, events (instance v)) in
  match ev with
  | Some _ => modify (λ v, set_published (published v ++ [message]) v)
  | None => throw TypeError
  end.

(** [addInputError(message, dirty)] *)
Definition addInputError (message : string) (dirty : bool) : V unit :=
  if String.eqb message "" then ret tt
  else
    let* _ := addClass "has-error" in
    let* highlight := gets highlightErrors in
    if dirty && highlight then addClass "alert alert-danger" else ret tt.

(** [setCustomValidity(message, dirty)] *)
Definition setCustomValidity (message : string) (dirty : bool) : V unit :=
  let* _ := removeClass "has-error" in
  let* highlight := gets highlightErrors in
  let* _ := (if highlight then removeClass "alert alert-danger" else ret tt) in
  let* _ := (if negb (String.eqb message "")
             then
               let* _ := modify (set_error (Some message)) in
               let* _ := emit_error message in
               addInputError message dirty
             else modify (set_error None)) in
  modify (λ v, set_validity (map (λ _, message) (inputs (instance v))) v).

(** [checkValidity(data, dirty)], for the message that [Validator.check]
    finds (the empty string when it finds none) *)
Definition checkValidity (message : string) (dirty : bool) : V bool :=
  let* v := gets id in
  if negb (Descriptor.input (component (instance v)))
     || (negb dirty && pristine (instance v))
  then ret true
  else
    let* _ := setCustomValidity message dirty in
    ret (String.eqb message "").

(** [get errors()] *)
Definition errors (v : View) : list string :=
  match error v with
  | Some message => [message]
  | None => []
  end.

(** The view of an instance on which build() has created the wrapping
    element with the class attribute [className]. *)
Definition built (st : Instance) (highlight : bool) (className : string) : View :=
  {| instance := st; highlightErrors := highlight; element := Some className;
     error := None; validity := map (λ _, "") (inputs st); published := [] |}.

End Validity.

(** ** Localization ([localize]) *)

Module Localization.

(** The i18next module as localize() uses it: its [initialized] flag, which
    the module sets to false when it is loaded, and the options of the
    [i18next.init] calls made so far. *)
Record I18n : Type := {
  initialized : bool;
  inits : list string          (* this.options.i18n of each init call *)
}.

(** What localize() returns: a promise that is already resolved with
    i18next, or one that the callback of the [k]-th init call settles
    (rejected with its error, resolved with i18next otherwise). *)
Inductive Localized : Type :=
| Immediately
| AfterInit (k : nat).

(** [i18next.initialized = false], at the load of the module *)
Definition loaded : I18n := {| initialized := false; inits := [] |}.

(** [localize()], for the instance's [options.i18n] *)
Definition localize (i18n : string) : Eff I18n Localized :=
  let* done := gets initialized in
  if done then ret Immediately
  else
    let* _ := modify (λ w, {| initialized := true; inits := inits w |}) in
    let* k := gets (λ w, length (inits w)) in
    let* _ := modify (λ w, {| initialized := initialized w;
                              inits := inits w ++ [i18n] |}) in
    ret (AfterInit k).

End Localization.

(** * The vocabulary of the properties *)


Import BaseComponent.

Import Loader.

(** Whether updateValue calls triggerChange, for the previous entry and the
    value read. *)
Definition notifies (previous new : JsValue) : bool :=
  negb (strict_eq previous new)
  && (truthy previous || nullish previous || truthy new).

Definition scheduled (noValidate : bool) : option Pending :=
  Some {| remaining := debounce_wait; lastArgs := noValidate |}.

(** What setValueAt assigns to an input for the value [x], when the computed
    default value is [dv]. *)
Definition written (dv x : JsValue) : JsValue := if nullish x then dv else x.

(** What a text input shows once [x] has been assigned to it in [st]: the
    string it keeps of [x]. *)
Definition shown (st : Instance) (x : JsValue) : JsValue :=
  JStr (input_text (heap st) x).

(** The value setValue hands to setValueAt for row [i]. *)
Definition row_value (v : JsValue) (i : nat) (st : Instance) : JsValue :=
  if isArray v then element v i st else v.

(** The round trip of claim C1: after setValue(v), getValue() returns [v] and
    leaves it cached in [value]. *)
Definition round_trips (st : Instance) (v : JsValue) (noUpdate noValidate : bool)
  : Prop :=
  ∃ st1 st2,
    setValue v noUpdate noValidate st = Ok tt st1
    ∧ getValue st1 = Ok v st2
    ∧ value st2 = v.

(** After setValue(v), getValue() returns [r] and leaves it cached in
    [value]. *)
Definition reads_back (st : Instance) (v r : JsValue) (noUpdate noValidate : bool)
  : Prop :=
  ∃ st1 st2,
    setValue v noUpdate noValidate st = Ok tt st1
    ∧ getValue st1 = Ok r st2
    ∧ value st2 = r.

(** A text field, built with no data: one rendered input. *)
Definition text_field : Descriptor.t :=
  {| Descriptor.key := "name"; Descriptor.input := true;
     Descriptor.multiple := false; Descriptor.defaultValue := JUndefined;
     Descriptor.customDefaultValue := Descriptor.Absent;
     Descriptor.disabled := false; Descriptor.inputMask := false |}.

(** Row [i] of the instance displays [x]. *)
Definition row_holds (st : Instance) (i : nat) (x : JsValue) : Prop :=
  node_value <$> inputs st !! i = Some x.

(** A multiple-value text field; built over [{tags: ["a", "b"]}] it has two
    rows. *)
Definition tags_field : Descriptor.t :=
  {| Descriptor.key := "tags"; Descriptor.input := true;
     Descriptor.multiple := true; Descriptor.defaultValue := JUndefined;
     Descriptor.customDefaultValue := Descriptor.Absent;
     Descriptor.disabled := false; Descriptor.inputMask := false |}.

Definition two_tags (arrays : list (list JsValue)) : Instance :=
  state_of (build (create tags_field false None {[ "tags" := JArr 0 ]}
                          ([JStr "a"; JStr "b"] :: arrays))).

(** The state a method leaves is related to the one it started from, whether
    it returned or raised. *)
Definition preserves {A} (R : relation Instance) (m : M A) : Prop :=
  ∀ st, R st (state_of (m st)).

(** The data object, the arrays and the configuration are as before. *)
Definition same_store (st st' : Instance) : Prop :=
  component st' = component st ∧ data st' = data st ∧ heap st' = heap st
  ∧ tbody st' = tbody st ∧ readOnly st' = readOnly st.

(** Computing the default value of the descriptor [c] never raises. *)
Definition default_never_raises (c : Descriptor.t) : Prop :=
  ∀ st, component st = c → returned (defaultValue st) = true.

(** The entry of the data object is the array [a], which holds [l]. *)
Definition entry_holds (st : Instance) (a : nat) (l : list JsValue) : Prop :=
  data st !! Descriptor.key (component st) = Some (JArr a) ∧ heap st !! a = Some l.

(** The rendered nodes are as before. *)
Definition same_nodes (st st' : Instance) : Prop :=
  inputs st' = inputs st ∧ controls st' = controls st.

(** A built text field on an event hub with no registrations. *)
Definition text_field_on_hub : Instance :=
  state_of (build (create text_field false
                          (Some {| registered := []; emitted := [] |}) ∅ [])).

(** The pairs destroy(all) hands to [events.off], in order. *)
Definition deregistered (all : bool) (st : Instance) : list (string * Callback) :=
  map (λ l, (l_type l, l_listener l))
      (filter (λ l, all || l_internal l = true) (eventListeners st)).

(** The registrations on the hub. *)
Definition registrations (st : Instance) : list (string * Callback) :=
  match events st with
  | Some h => registered h
  | None => []
  end.

Definition off_all (ps regs : list (string * Callback)) : list (string * Callback) :=
  foldl (λ regs p, remove_first p regs) regs ps.

Definition window_after (hs : list HandlerRecord) (wl : list (string * Callback))
  : list (string * Callback) :=
  foldl (λ wl h, filter (λ p, p ≠ ("undefined", h_func h)) wl) wl hs.

Definition released (mask : option bool) : option bool :=
  match mask with Some _ => Some false | None => None end.

(** How often [p] occurs. *)
Definition occurrences (p : string * Callback) (l : list (string * Callback)) : nat :=
  length (filter (λ q, q = p) l).

(** The second of two destroy(all) calls returns and deregisters nothing:
    the hub, the window and the rendered nodes are as the first call left
    them. *)
Definition second_destroy_deregisters_nothing (all : bool) (st : Instance) : Prop :=
  ∃ st1 st2,
    destroy all st = Ok tt st1
    ∧ destroy all st1 = Ok tt st2
    ∧ registrations st2 = registrations st1
    ∧ windowListeners st2 = windowListeners st1
    ∧ same_nodes st1 st2.

(** A text field that registered the host's function 7 as an internal
    listener for "change", on a hub where the host had registered the same
    function for the same event itself. *)
Definition shared_listener : Instance :=
  state_of (on "change" (HostFunction 7) true
              (create text_field false
                 (Some {| registered := [("formio.change", HostFunction 7)];
                          emitted := [] |}) ∅ [])).

(** A text field that registered the host's function 7 as an internal
    listener for "change" on a hub with no other registration. *)
Definition sole_listener : Instance :=
  state_of (on "change" (HostFunction 7) true
              (create text_field false
                 (Some {| registered := []; emitted := [] |}) ∅ [])).

(** What the hub has published. *)
Definition emitted_of (st : Instance) : list (string * ChangeEvent) :=
  match events st with
  | Some h => emitted h
  | None => []
  end.

(** The user changes what row [e.1] displays into [e.2] (typing into the
    node itself; a row that is not rendered cannot be typed into). *)
Definition type_into (e : nat * JsValue) (st : Instance) : Instance :=
  match inputs st !! e.1 with
  | Some n => set_inputs (<[e.1 := with_value e.2 n]> (inputs st)) st
  | None => st
  end.

(** One updateValue() call of a burst: [gap] milliseconds after the previous
    call the displayed values have changed by [edits], and updateValue is
    called with [noValidate]. *)
Record Call : Type := {
  gap : nat;
  edits : list (nat * JsValue);
  noValidate : bool
}.

Definition before_call (c : Call) : M unit :=
  let* _ := elapse (gap c) in
  modify (λ st, foldl (λ st e, type_into e st) st (edits c)).

Definition call (c : Call) : M unit :=
  let* _ := before_call c in
  updateValue (noValidate c).

(** The calls, in call order. *)
Definition burst (cs : list Call) : M unit := for_each cs call.

(** updateValue, called in [st], reaches triggerChange: the value read
    differs from the entry and the falsy guard does not apply. *)
Definition notifying (st : Instance) : bool :=
  match getValue st with
  | Ok v _ => notifies (entry st) v
  | Throw _ _ => false
  end.

Fixpoint all_notifying (cs : list Call) (st : Instance) : Prop :=
  match cs with
  | [] => True
  | c :: rest =>
      let st' := state_of (before_call c st) in
      notifying st' = true
      ∧ all_notifying rest (state_of (updateValue (noValidate c) st'))
  end.

(** The value read by a call differs from the entry it replaces. *)
Definition changing (st : Instance) : bool :=
  match getValue st with
  | Ok v _ => negb (strict_eq (entry st) v)
  | Throw _ _ => false
  end.

Fixpoint all_changing (cs : list Call) (st : Instance) : Prop :=
  match cs with
  | [] => True
  | c :: rest =>
      let st' := state_of (before_call c st) in
      changing st' = true
      ∧ all_changing rest (state_of (updateValue (noValidate c) st'))
  end.

(** The calls of a burst, then the quiet period, publish exactly one more
    event. *)
Definition coalesces_to_one (cs : list Call) (st : Instance) : Prop :=
  ∃ st1 st2 e,
    burst cs st = Ok tt st1
    ∧ elapse debounce_wait st1 = Ok tt st2
    ∧ emitted_of st2 = emitted_of st ++ [e].

(** A text field built over [{name: 0}] on an event hub. *)
Definition zero_field : Instance :=
  state_of (build (create text_field false
                          (Some {| registered := []; emitted := [] |})
                          {[ "name" := JNum 0 ]} [])).

(** The element injected for a library; [None] when creating it raises. *)
Definition injectable (lib : Library) : option Resource :=
  match lib with
  | Url s => Some (ScriptElement s)
  | Described type s =>
      if String.eqb type "script" then Some (ScriptElement s)
      else if String.eqb type "styles" then Some (LinkElement s)
      else None
  | NoLibrary => None
  end.

(** The libraries named by [src]. *)
Definition libraries (src : Src) : list Library :=
  match src with One lib => [lib] | Many libs => libs end.

(** What happens between two calls for a name: other requireLibrary calls, a
    polling timer firing, a loaded script calling its callback. *)
Inductive Event : Type :=
| Require (name property : string) (src : Src) (polling : bool)
| TimerFired
| ScriptLoaded (name : string).

Definition happen (ev : Event) (w : World) : World :=
  match ev with
  | Require name property src polling =>
      state_of (requireLibrary name property src polling w)
  | TimerFired => state_of (fire_timeout w)
  | ScriptLoaded name => state_of (run_callback name w)
  end.

Definition after (evs : list Event) (w : World) : World :=
  foldl (λ w ev, happen ev w) w evs.

Definition empty_world : World :=
  {| externalLibraries := ∅; promises := []; window := ∅; head := [];
     timeouts := [] |}.

(** * Further vocabulary *)

(** What the rows display, in row order. *)
Definition displayed (st : Instance) : list JsValue := map node_value (inputs st).

(** What the rows of the sequence [s] show once setValueAt has written
    them: the string of each element, of the default value [dv] where the
    element is null or undefined. *)
Definition rendered (st : Instance) (dv : JsValue) (s : list JsValue)
  : list JsValue :=
  map (λ x, shown st (written dv x)) s.

(** The component's key is a name that [Object.prototype] does not define:
    reading and assigning the entry of the data object see its own
    properties only. *)
Definition ordinary_key (st : Instance) : Prop :=
  PlainObject.ordinary (Descriptor.key (component st)) = true.

(** The data object has no own property [hasOwnProperty]: its
    [hasOwnProperty] is the method of [Object.prototype]. *)
Definition plain_data (st : Instance) : Prop :=
  data st !! "hasOwnProperty" = None.

(** The state in which addNewValue() computes the default value: the entry
    has been made a sequence. *)
Definition coerced (st : Instance) : Instance :=
  state_of
    ((let* cur := gets entry in
      let* _ := (if negb (truthy cur)
                 then let* a := new_array [] in write_entry (JArr a)
                 else ret tt) in
      let* cur := gets entry in
      if negb (isArray cur)
      then let* a := new_array [cur] in write_entry (JArr a)
      else ret tt) st).

(** A text field whose key is [__proto__]. *)
Definition proto_field : Descriptor.t :=
  {| Descriptor.key := "__proto__"; Descriptor.input := true;
     Descriptor.multiple := false; Descriptor.defaultValue := JUndefined;
     Descriptor.customDefaultValue := Descriptor.Absent;
     Descriptor.disabled := false; Descriptor.inputMask := false |}.

(** The values that are objects or null. *)
Definition object_or_null (v : JsValue) : bool := isArray v || strict_eq v JNull.

(** What reading the data object gives, when it is a value of the
    embedding: a member of [Object.prototype] is none. *)
Definition read_value (r : PlainObject.Read JsValue) : option JsValue :=
  match r with
  | PlainObject.Own v => Some v
  | PlainObject.Missing => Some JUndefined
  | PlainObject.Inherited _ => None
  end.

(** The entry of the data object, when it is an array, is an array that
    exists. *)
Definition entry_allocated (st : Instance) : Prop :=
  ∀ a, entry st = JArr a → a < length (heap st).

(** What a host does with an instance, one call at a time. *)
Inductive Method : Type :=
| Build
| SetValue (v : JsValue) (noUpdate noValidate : bool)
| UpdateValue (noValidate : bool)
| AddValue
| RemoveValue (index : nat)
| On (event : string) (cb : Callback) (internal : bool)
| Destroy (all : bool)
| Elapse (dt : nat)
| TypeInto (row : nat) (v : JsValue).

Definition invoke (m : Method) : M unit :=
  match m with
  | Build => build
  | SetValue v noUpdate noValidate => setValue v noUpdate noValidate
  | UpdateValue noValidate => updateValue noValidate
  | AddValue => addValue
  | RemoveValue index => removeValue index
  | On event cb internal => on event cb internal
  | Destroy all => destroy all
  | Elapse dt => elapse dt
  | TypeInto row v => modify (type_into (row, v))
  end.

(** The state after a history of calls, each made whether or not the one
    before it raised. *)
Definition history (ms : list Method) (st : Instance) : Instance :=
  foldl (λ st m, state_of (invoke m st)) st ms.

(** The configuration, the hub and the listener records are as before, and
    no handler record was dropped. *)
Definition quiet (st st' : Instance) : Prop :=
  component st' = component st ∧ readOnly st' = readOnly st
  ∧ events st' = events st ∧ eventListeners st' = eventListeners st
  ∧ windowListeners st' = windowListeners st
  ∧ eventHandlers st `prefix_of` eventHandlers st'.

(** The handler records are as before. *)
Definition same_handlers (st st' : Instance) : Prop :=
  eventHandlers st' = eventHandlers st.

(** An instance keeps its hub if it has one, and without a hub it keeps its
    listener records as they are. *)
Definition hub_kept (st st' : Instance) : Prop :=
  (is_Some (events st) → is_Some (events st'))
  ∧ (events st = None →
     events st' = None ∧ eventListeners st' = eventListeners st).

(** Listener records are only kept by an instance that has a hub. *)
Definition listeners_need_hub (st : Instance) : Prop :=
  events st = None → eventListeners st = [].

(** The nodes are as before but for what the rows display. *)
Definition nodes_kept (st st' : Instance) : Prop :=
  controls st' = controls st ∧ eventHandlers st' = eventHandlers st
  ∧ closures st' = closures st ∧ inputMask st' = inputMask st
  ∧ _disabled st' = _disabled st
  ∧ map node_disabled (inputs st') = map node_disabled (inputs st)
  ∧ map node_listeners (inputs st') = map node_listeners (inputs st).

(** The state in which addInput resets the values: the new input has been
    pushed and carries its change and keypress listeners. *)
Definition wired (st : Instance) : Instance :=
  set_inputs
    (inputs st
     ++ [attach "keypress" (SubmitListener (S (closures st)))
           (attach "change" (UpdateValueListener (closures st)) fresh_node)])
    (set_eventHandlers
       (eventHandlers st
        ++ [{| h_type := "change"; h_func := UpdateValueListener (closures st) |};
            {| h_type := "keypress"; h_func := SubmitListener (S (closures st)) |}])
       (set_closures (S (S (closures st))) st)).

(** The state in which a button has been added to the row region with its
    click listener. *)
Definition with_button (f : Callback) (k : nat) (st : Instance) : Instance :=
  set_controls (controls st ++ [attach "click" f fresh_node])
    (set_eventHandlers
       (eventHandlers st ++ [{| h_type := "click"; h_func := f |}])
       (set_closures k st)).

(** What buildRows has rendered after [k] rows of the sequence [s]: one
    input per row, showing its element, one remove button per row, and three
    handler records per row more than the [h] there were. *)
Definition rows_rendered (dv : JsValue) (s : list JsValue) (h k : nat)
    (st : Instance) : Prop :=
  displayed st = rendered st dv (take k s)
  ∧ length (controls st) = k
  ∧ length (eventHandlers st) = h + 3 * k
  ∧ Forall (λ n, node_disabled n = false) (inputs st).

(** Nothing was published and nothing is about to be: the pending
    notification, the pristine flag and the hub are as before. *)
Definition unnotified (st st' : Instance) : Prop :=
  pending st' = pending st ∧ pristine st' = pristine st ∧ events st' = events st.

(** Whether buildRows disables what it has rendered. *)
Definition off (st : Instance) : bool :=
  readOnly st || Descriptor.disabled (component st).

(** The default value of the descriptor [c] is [dv], whatever the data. *)
Definition default_is (c : Descriptor.t) (dv : JsValue) : Prop :=
  ∀ st, component st = c → defaultValue st = Ok dv st.

(** ** Vocabulary of the registry's properties *)

(** The state a call leaves is related to the one it started from, whether
    it returned or raised. *)
Definition keeps {A} (R : relation World) (m : L A) : Prop :=
  ∀ w, R w (state_of (m w)).

(** No promise was dropped and no settled promise was changed. *)
Definition futures_grow (w w' : World) : Prop :=
  length (promises w) ≤ length (promises w')
  ∧ ∀ p s, promises w !! p = Some (Resolved s) → promises w' !! p = Some (Resolved s).

(** A loaded script defines its global. *)
Definition defines (property : string) (v : JsValue) (w : World) : World :=
  set_window (<[property := Plain v]> (window w)) w.

(** The world of a first requireLibrary call for [name] once the entry, its
    promise and, without polling, its callback are in place. *)
Definition entered (name : string) (polling : bool) (w : World) : World :=
  let w0 :=
    set_externalLibraries
      (<[name := {| ready := length (promises w) |}]> (externalLibraries w))
      (set_promises (promises w ++ [Unsettled]) w) in
  if negb polling && negb (present (window w !! (name +:+ "Callback")))
  then set_window (<[name +:+ "Callback" := Resolver name]> (window w0)) w0
  else w0.

(** Every library of [src] names an element that can be created. *)
Definition well_formed (src : Src) : Prop :=
  Forall (λ lib, is_Some (injectable lib)) (libraries src).

(** A registry with the library "ace" required while its global is there. *)
Definition ace_world : World :=
  state_of (requireLibrary "ace" "ace" (One (Url "ace.js")) true
              (defines "ace" (JStr "plugin") empty_world)).

(** What goes on around the registry: the events of the module, and loaded
    scripts defining their globals. *)
Inductive Step : Type :=
| Happens (ev : Event)
| Defines (property : string) (v : JsValue).

Definition step (s : Step) (w : World) : World :=
  match s with
  | Happens ev => happen ev w
  | Defines property v => defines property v w
  end.

Definition run (steps : list Step) (w : World) : World :=
  foldl (λ w s, step s w) w steps.

(** Nothing in the world refers to the library [name]: no timer polls for
    it and no callback is bound to an entry of that name; and every entry's
    promise exists. *)
Definition tidy (name : string) (w : World) : Prop :=
  (∀ n e, externalLibraries w !! n = Some e → ready e < length (promises w))
  ∧ (∀ n property, (n, property) ∈ timeouts w → n ≠ name)
  ∧ (∀ k lib, window w !! k = Some (Resolver lib) → lib ≠ name).

(** The entry of [name] has the unsettled promise [p], which no other entry
    shares, and nothing in the world refers to the library. *)
Definition stuck (name : string) (p : nat) (w : World) : Prop :=
  externalLibraries w !! name = Some {| ready := p |}
  ∧ promises w !! p = Some Unsettled
  ∧ (∀ n e, externalLibraries w !! n = Some e → ready e = p → n = name)
  ∧ tidy name w.

(** The names the world refers to are names that [Object.prototype] does
    not define: those of the registry's entries, those the polling timers
    wait for, and those the installed callbacks are bound to. On such a
    world the registry is its own properties, and its [hasOwnProperty] is
    the method of [Object.prototype]. *)
Definition plain_world (w : World) : Prop :=
  (∀ n, is_Some (externalLibraries w !! n) → PlainObject.ordinary n = true)
  ∧ (∀ n property, (n, property) ∈ timeouts w → PlainObject.ordinary n = true)
  ∧ (∀ k lib, window w !! k = Some (Resolver lib) → PlainObject.ordinary lib = true).

(** A requireLibrary call for a name that [Object.prototype] does not
    define; timers and callbacks are for the names of earlier calls. *)
Definition ordinary_event (ev : Event) : Prop :=
  match ev with
  | Require name _ _ _ => PlainObject.ordinary name = true
  | TimerFired | ScriptLoaded _ => True
  end.

Definition ordinary_step (s : Step) : Prop :=
  match s with
  | Happens ev => ordinary_event ev
  | Defines _ _ => True
  end.

(** The event-name/callback pair of a listener record. *)
Definition pair_of (l : ListenerRecord) : string * Callback :=
  (l_type l, l_listener l).

(** The hub holds the registrations [regs0] and, after them, one
    registration per listener record of the instance. *)
Definition accounted (regs0 : list (string * Callback)) (st : Instance) : Prop :=
  registrations st = regs0 ++ map pair_of (eventListeners st).

(** The listener records that destroy(all) passes over. *)
Definition passed_over (all : bool) (st : Instance) : list (string * Callback) :=
  map pair_of (filter (λ l, (all || l_internal l) = false) (eventListeners st)).

(** No call of the history is a destroy. *)
Definition never_destroyed (ms : list Method) : Prop :=
  Forall (λ m, ∀ all, m ≠ Destroy all) ms.

(** The buttons of a row region of [n] rows: the remove button of each row,
    bound to the index of its row, and after them the add button. *)
Definition buttons (n : nat) (cs : list Node) : Prop :=
  length cs = S n
  ∧ (∀ i, i < n →
       ∃ b id, cs !! i = Some b
               ∧ node_listeners b = [("click", RemoveClick id i)])
  ∧ (∃ b id, cs !! n = Some b ∧ node_listeners b = [("click", AddClick id)]).

(** The remove buttons of the first [k] rows. *)
Definition remove_buttons (k : nat) (cs : list Node) : Prop :=
  length cs = k
  ∧ ∀ i, i < k →
      ∃ b id, cs !! i = Some b ∧ node_listeners b = [("click", RemoveClick id i)].

(** The buttons are as before. *)
Definition controls_kept (st st' : Instance) : Prop := controls st' = controls st.

(** What maskPlaceholder shows for a character of a mask string. *)
Definition placeholder_char (c : Ascii.ascii) : Ascii.ascii :=
  if Ascii.eqb c "9"%char || Ascii.eqb c "A"%char || Ascii.eqb c "*"%char then "_"%char else c.

Fixpoint string_map (f : Ascii.ascii → Ascii.ascii) (s : string) : string :=
  match s with
  | EmptyString => EmptyString
  | String c rest => String (f c) (string_map f rest)
  end.

(** A select element with no options. *)
Definition empty_select (onchange onselect : bool) : SelectElement :=
  {| sel_options := []; sel_onchange := onchange; sel_onselect := onselect;
     sel_changes := 0 |}.

(** A text field whose default value is computed by a logic tree that
    raises, with one input. *)
Definition failing_default_field : Instance :=
  wired (create {| Descriptor.key := "total"; Descriptor.input := true;
                   Descriptor.multiple := false;
                   Descriptor.defaultValue := JUndefined;
                   Descriptor.customDefaultValue := Descriptor.Logic (λ _, None);
                   Descriptor.disabled := false; Descriptor.inputMask := false |}
           false None ∅ []).

(** ** Vocabulary of the validity properties *)

(** Whether checkValidity(data, dirty) gets past its first test. *)
Definition runs (dirty : bool) (v : Validity.View) : bool :=
  Descriptor.input (component (Validity.instance v))
  && (dirty || negb (pristine (Validity.instance v))).

(** The position of the first occurrence of [pat] in [s]. *)
Fixpoint index_of (pat s : string) : option nat :=
  if String.prefix pat s then Some 0
  else match s with
       | EmptyString => None
       | String _ rest => S <$> index_of pat rest
       end.

(** A text field that build() has rendered, with its wrapping element. *)
Definition built_text_field (opt_events : option Hub) : Validity.View :=
  Validity.built
    (state_of (build (create text_field false opt_events ∅ [])))
    true "form-group has-feedback formio-component".

(** The class attribute after the two removeClass calls of
    setCustomValidity. *)
Definition cleared (highlight : bool) (cls : string) : string :=
  let cls := Validity.replace_first "has-error" cls in
  if highlight then Validity.replace_first "alert alert-danger" cls else cls.

(** The localize() calls of several instances, one after the other, each
    with its own options: what they return. *)
Fixpoint localize_each (options : list string)
  : Eff Localization.I18n (list Localization.Localized) :=
  match options with
  | [] => ret []
  | i18n :: rest =>
      let* r := Localization.localize i18n in
      let* rs := localize_each rest in
      ret (r :: rs)
  end.

(** * Properties *)

(** ** Running computations *)

Lemma bind_Ok {S A B} (m : Eff S A) (k : A → Eff S B) (s s' : S) (a : A) :
  m s = Ok a s' → bind m k s = k a s'.
Proof. intros H. unfold bind. by rewrite H. Qed.

(** Record updates that write back what is there change nothing. *)
Lemma set_value_set_heap_id (st : Instance) :
  set_value (value st) (set_heap (heap st) st) = st.
Proof. by destruct st. Qed.

(** ** The string of a value *)

Lemma to_string_examples :
  to_string [] (JNum 30) = "30"
  ∧ to_string [] (JNum (-5)) = "-5"
  ∧ to_string [] (JNum (2 ^ 68)) = "295147905179352830000"
  ∧ to_string [] (JNum (10 ^ 21)) = "1e+21"
  ∧ to_string [] (JNum (2 ^ 53 + 1)) = "9007199254740992"
  ∧ to_string [[JNum 1; JNull; JArr 1]; [JStr "a"; JArr 0]] (JArr 0) = "1,,a,"
  ∧ input_text [] JNull = ""
  ∧ input_text [] JUndefined = "undefined"
  ∧ input_text [] (JStr (String "a" (String "010" "b"))) = "ab".
Proof. split_and!; vm_compute; reflexivity. Qed.

(** A text input gives back what was assigned to it exactly when that was
    a string without line breaks. *)
Lemma shown_fixed (st : Instance) (v : JsValue) :
  shown st v = v ↔ ∃ s, v = JStr s ∧ strip_newlines s = s.
Proof.
  unfold shown, input_text. split.
  - destruct v; try discriminate. intros [= H]. by eexists.
  - intros (s & -> & H). simpl. by rewrite H.
Qed.

(** ** The data object at an ordinary key *)

(** At a name that [Object.prototype] does not define, a plain object is
    its own properties: reading finds the own property or nothing, and
    assigning stores an own property. *)
Lemma ordinary_get {V} (k : string) (o : gmap string V) :
  PlainObject.ordinary k = true →
  PlainObject.get k o
  = match o !! k with
    | Some v => PlainObject.Own v
    | None => PlainObject.Missing
    end.
Proof.
  intros Hk. unfold PlainObject.get. destruct (o !! k); [done|].
  unfold PlainObject.ordinary in Hk. apply bool_decide_eq_true in Hk.
  by rewrite bool_decide_eq_false_2.
Qed.

Lemma ordinary_set {V} (f : V → bool) (k : string) (v : V) (o : gmap string V) :
  PlainObject.ordinary k = true →
  PlainObject.set f k v o = PlainObject.Stored (<[k := v]> o).
Proof.
  intros Hk. unfold PlainObject.set.
  assert (String.eqb k "__proto__" = false) as ->; [|by rewrite orb_true_r].
  apply String.eqb_neq. intros ->. done.
Qed.

(** Without an own property [hasOwnProperty], [o.hasOwnProperty(k)] tells
    whether [k] is an own property. *)
Lemma plain_hasOwnProperty {V} (k : string) (o : gmap string V) :
  o !! "hasOwnProperty" = None →
  PlainObject.hasOwnProperty k o = Some (bool_decide (is_Some (o !! k))).
Proof. intros Ho. unfold PlainObject.hasOwnProperty. by rewrite Ho. Qed.

(** So, at an ordinary key, [entry] is what the source reads and
    [write_entry] what it writes; and on a data object without an own
    [hasOwnProperty], [hasOwnEntry] is what its test gives. *)
Lemma entry_read (st : Instance) :
  ordinary_key st →
  read_value (PlainObject.get (Descriptor.key (component st)) (data st))
  = Some (entry st).
Proof.
  intros Hk. rewrite (ordinary_get _ _ Hk). unfold entry.
  by destruct (data st !! _).
Qed.

Lemma write_entry_stored (st : Instance) (v : JsValue) :
  ordinary_key st →
  PlainObject.set object_or_null (Descriptor.key (component st)) v (data st)
  = PlainObject.Stored (data (state_of (write_entry v st))).
Proof. intros Hk. by rewrite (ordinary_set _ _ _ _ Hk). Qed.

Lemma hasOwnEntry_tested (st : Instance) :
  plain_data st →
  PlainObject.hasOwnProperty (Descriptor.key (component st)) (data st)
  = Some (hasOwnEntry st).
Proof. intros Hp. by rewrite (plain_hasOwnProperty _ _ Hp). Qed.

Lemma entry_holds_tested (st : Instance) (a : nat) (l : list JsValue) :
  plain_data st → entry_holds st a l →
  PlainObject.hasOwnProperty (Descriptor.key (component st)) (data st)
  = Some true.
Proof.
  intros Hp [He _]. rewrite (hasOwnEntry_tested st Hp). f_equal.
  unfold hasOwnEntry. by rewrite He.
Qed.

(** ** Reading: getValue *)

(** C10: for an input-bound, single-value component with no rendered input
    (as before build()), getValue() returns a new, empty sequence and caches
    that same sequence as the instance's value; the result is neither
    undefined nor a scalar. *)
Theorem getValue_without_inputs (st : Instance) :
  Descriptor.input (component st) = true →
  Descriptor.multiple (component st) = false →
  inputs st = [] →
  ∃ (a : nat) (st' : Instance),
    getValue st = Ok (JArr a) st'
    ∧ heap st' !! a = Some []
    ∧ value st' = JArr a
    ∧ isArray (JArr a) = true
    ∧ JArr a ≠ JUndefined
    ∧ data st' = data st.
Proof.
  intros Hin Hmul Hno.
  exists (length (heap st)), (set_value (JArr (length (heap st)))
                               (set_heap (heap st ++ [[]]) st)).
  split_and!; try done.
  - unfold getValue, bind, gets, new_array, modify, ret.
    rewrite Hin. simpl. rewrite Hno. reflexivity.
  - simpl. rewrite lookup_app_r by lia. by rewrite Nat.sub_diag.
Qed.

Lemma getValue_without_inputs_witness :
  ∃ (a : nat) (st' : Instance),
    getValue (create {| Descriptor.key := "age"; Descriptor.input := true;
                        Descriptor.multiple := false;
                        Descriptor.defaultValue := JUndefined;
                        Descriptor.customDefaultValue := Descriptor.Absent;
                        Descriptor.disabled := false;
                        Descriptor.inputMask := false |}
                     false None ∅ []) = Ok (JArr a) st'
    ∧ heap st' !! a = Some []
    ∧ value st' = JArr a
    ∧ isArray (JArr a) = true
    ∧ JArr a ≠ JUndefined
    ∧ data st' = ∅.
Proof.
  apply (getValue_without_inputs
           (create {| Descriptor.key := "age"; Descriptor.input := true;
                      Descriptor.multiple := false;
                      Descriptor.defaultValue := JUndefined;
                      Descriptor.customDefaultValue := Descriptor.Absent;
                      Descriptor.disabled := false;
                      Descriptor.inputMask := false |}
                   false None ∅ [])); reflexivity.
Defined.

Lemma set_pending_id (st : Instance) : set_pending (pending st) st = st.
Proof. by destruct st. Qed.

Lemma getValueAt_Ok (st : Instance) (i : nat) (n : Node) :
  inputs st !! i = Some n → getValueAt i st = Ok (node_value n) st.
Proof. intros H. unfold getValueAt, bind, gets, ret. by rewrite H. Qed.

(** The loop of getValue returns; it changes the arrays and the cached value
    only. *)
Lemma getValue_rows_total (rows : list nat) (values : nat) (st : Instance) :
  (∀ i, i ∈ rows → i < length (inputs st)) →
  ∃ r h x, getValue_rows rows values st = Ok r (set_value x (set_heap h st)).
Proof.
  revert st. induction rows as [|i rows IH]; intros st Hrows.
  - exists None, (heap st), (value st). simpl. unfold ret.
    by rewrite set_value_set_heap_id.
  - assert (is_Some (inputs st !! i)) as [n Hn].
    { apply lookup_lt_is_Some. apply Hrows. left. }
    simpl. unfold bind at 1. unfold gets at 1.
    destruct (Descriptor.multiple (component st)); simpl.
    + rewrite (bind_Ok _ _ _ _ _ (getValueAt_Ok st i n Hn)).
      unfold bind at 1. unfold modify at 1.
      destruct (IH (set_heap (alter (λ l, l ++ [node_value n]) values (heap st)) st))
        as (r & h & x & Hr).
      { intros j Hj. simpl. apply Hrows. by right. }
      rewrite Hr. by exists r, h, x.
    + rewrite (bind_Ok _ _ _ _ _ (getValueAt_Ok st i n Hn)).
      exists (Some (node_value n)), (heap st), (node_value n).
      reflexivity.
Qed.

(** getValue() always returns; it changes the arrays and the cached value
    only. *)
Lemma getValue_total (st : Instance) :
  ∃ v h x, getValue st = Ok v (set_value x (set_heap h st)).
Proof.
  unfold getValue. unfold bind at 1. unfold gets at 1.
  destruct (Descriptor.input (component st)); simpl.
  - unfold bind at 1. unfold new_array at 1.
    unfold bind at 1. unfold gets at 1.
    destruct (getValue_rows_total
                (seq 0 (length (inputs (set_heap (heap st ++ [[]]) st))))
                (length (heap st)) (set_heap (heap st ++ [[]]) st))
      as (r & h & x & Hr).
    { intros i Hi. apply elem_of_seq in Hi. lia. }
    rewrite (bind_Ok _ _ _ _ _ Hr).
    destruct r as [v|].
    + by exists v, h, x.
    + exists (JArr (length (heap st))), h, (JArr (length (heap st))).
      reflexivity.
  - exists JUndefined, (heap st), (value st). unfold ret.
    by rewrite set_value_set_heap_id.
Qed.

(** For a single-value component with a rendered input, getValue() is the
    first input's value, cached. *)
Lemma getValue_single (st : Instance) (n : Node) (rest : list Node) :
  Descriptor.input (component st) = true →
  Descriptor.multiple (component st) = false →
  inputs st = n :: rest →
  getValue st
  = Ok (node_value n) (set_value (node_value n) (set_heap (heap st ++ [[]]) st)).
Proof.
  intros Hin Hmul Hins.
  unfold getValue, bind, gets, new_array, modify, ret. rewrite Hin. simpl.
  rewrite Hins. simpl. unfold bind, gets. simpl. rewrite Hmul. simpl.
  unfold getValueAt, bind, gets, modify, ret. simpl. rewrite Hins. reflexivity.
Qed.

(** ** Change detection: updateValue *)

Lemma updateValue_Ok (noValidate : bool) (st : Instance) (v : JsValue) (st1 : Instance) :
  getValue st = Ok v st1 →
  updateValue noValidate st
  = Ok tt (set_pending
             (if notifies (entry st) v then scheduled noValidate else pending st1)
             (set_data (<[Descriptor.key (component st1) := v]> (data st1)) st1)).
Proof.
  intros Hget. unfold updateValue.
  unfold bind at 1. unfold gets at 1.
  rewrite (bind_Ok _ _ _ _ _ Hget).
  unfold bind at 1. unfold write_entry at 1. unfold modify at 1.
  unfold bind at 1. unfold gets at 1.
  set (st2 := set_data _ st1).
  assert (entry st2 = v) as ->.
  { unfold entry, st2. simpl. by rewrite lookup_insert_eq. }
  unfold notifies, nullish, triggerChange, modify, ret, scheduled.
  destruct (strict_eq (entry st) v); simpl.
  { by rewrite <- (set_pending_id st2) at 1. }
  destruct (truthy (entry st)); simpl; [done|].
  destruct (strict_eq (entry st) JNull); simpl; [done|].
  destruct (strict_eq (entry st) JUndefined); simpl; [done|].
  destruct (truthy v); simpl; [done|].
  by rewrite <- (set_pending_id st2) at 1.
Qed.

(** C3, as stated, fails for a component whose key is [__proto__]. Over
    the data object [{}], with "x" typed into the input, getValue() returns
    "x"; but the assignment [data['__proto__'] = "x"] calls the setter of
    [Object.prototype], which ignores what is no object: the data object has
    no entry at the key afterwards, and reading the key gives the same
    inherited member as before, so that updateValue() finds nothing changed
    and does not reach triggerChange. *)
Lemma updateValue_writes_nothing_under_proto :
  let st := type_into (0, JStr "x")
              (state_of (build (create proto_field false None ∅ []))) in
  Descriptor.key (component st) = "__proto__"
  ∧ data st = ∅
  ∧ (∃ st1, getValue st = Ok (JStr "x") st1 ∧ data st1 = data st)
  ∧ PlainObject.get "__proto__" (data st) = PlainObject.Inherited "__proto__"
  ∧ PlainObject.set object_or_null "__proto__" (JStr "x") (data st)
    = PlainObject.Ignored
  ∧ PlainObject.own_after
      (PlainObject.set object_or_null "__proto__" (JStr "x") (data st)) (data st)
    ≠ <[ "__proto__" := JStr "x" ]> (data st)
  ∧ PlainObject.get "__proto__"
      (PlainObject.own_after
         (PlainObject.set object_or_null "__proto__" (JStr "x") (data st))
         (data st))
    = PlainObject.get "__proto__" (data st).
Proof.
  cbv zeta. split; [vm_compute; reflexivity|]. split; [vm_compute; reflexivity|].
  split; [eexists; split; vm_compute; reflexivity|].
  split; [vm_compute; reflexivity|]. split; [vm_compute; reflexivity|].
  split; [|vm_compute; reflexivity].
  intros H. apply (f_equal (λ m : gmap string JsValue, m !! "__proto__")) in H.
  vm_compute in H. discriminate.
Qed.

(** C3, amended: for a component whose key is a name that
    [Object.prototype] does not define, updateValue() writes what
    getValue() returns into the data object at the component's key (the
    assignment stores an own property). When that value is [===] to the
    previous entry, no change notification is scheduled (the timer is left
    as it was); when the previous entry was falsy but neither null nor
    undefined and the new value is falsy too, none is scheduled either,
    although the value changed; in every other changed case the debounced
    notification is scheduled. *)
Theorem updateValue_change_detection (st : Instance) (noValidate : bool) :
  ordinary_key st →
  ∃ (v : JsValue) (st1 st' : Instance),
    getValue st = Ok v st1
    ∧ updateValue noValidate st = Ok tt st'
    ∧ read_value (PlainObject.get (Descriptor.key (component st)) (data st))
      = Some (entry st)
    ∧ PlainObject.set object_or_null (Descriptor.key (component st)) v (data st)
      = PlainObject.Stored (data st')
    ∧ data st' = <[Descriptor.key (component st) := v]> (data st)
    ∧ (strict_eq (entry st) v = true → pending st' = pending st)
    ∧ (strict_eq (entry st) v = false →
       truthy (entry st) = false → nullish (entry st) = false →
       truthy v = false →
       pending st' = pending st)
    ∧ (strict_eq (entry st) v = false →
       truthy (entry st) = true ∨ nullish (entry st) = true ∨ truthy v = true →
       pending st' = scheduled noValidate).
Proof.
  intros Hkey.
  destruct (getValue_total st) as (v & h & x & Hget).
  eexists v, _, _. split; [exact Hget|].
  split; [exact (updateValue_Ok noValidate st v _ Hget)|].
  split; [by apply entry_read|].
  split; [exact (write_entry_stored st v Hkey)|].
  unfold notifies. simpl. split_and!.
  - reflexivity.
  - by intros ->.
  - intros -> -> -> ->. reflexivity.
  - intros -> [-> | [-> | ->]]; simpl; try reflexivity;
      by repeat (destruct (truthy _) || destruct (nullish _)).
Qed.

Lemma updateValue_change_detection_witness :
  ∃ (st1 st' : Instance),
    let st := type_into (0, JStr "31")
                (state_of (build (create {| Descriptor.key := "age";
                                            Descriptor.input := true;
                                            Descriptor.multiple := false;
                                            Descriptor.defaultValue := JUndefined;
                                            Descriptor.customDefaultValue :=
                                              Descriptor.Absent;
                                            Descriptor.disabled := false;
                                            Descriptor.inputMask := false |}
                                         false None {[ "age" := JStr "30" ]} []))) in
    getValue st = Ok (JStr "31") st1
    ∧ updateValue false st = Ok tt st'
    ∧ data st' = {[ "age" := JStr "31" ]}
    ∧ pending st' = scheduled false.
Proof.
  destruct (updateValue_change_detection
              (type_into (0, JStr "31")
                 (state_of (build (create {| Descriptor.key := "age";
                                             Descriptor.input := true;
                                             Descriptor.multiple := false;
                                             Descriptor.defaultValue := JUndefined;
                                             Descriptor.customDefaultValue :=
                                               Descriptor.Absent;
                                             Descriptor.disabled := false;
                                             Descriptor.inputMask := false |}
                                          false None {[ "age" := JStr "30" ]} []))))
              false)
    as (v & st1 & st' & Hget & Hup & _ & _ & Hdata & _ & _ & Hsched);
    [vm_compute; reflexivity|].
  assert (v = JStr "31") as -> by (vm_compute in Hget; congruence).
  exists st1, st'. cbv zeta. split; [exact Hget|]. split; [exact Hup|]. split.
  - rewrite Hdata. vm_compute. reflexivity.
  - apply Hsched; [reflexivity | by left].
Defined.

(** ** Writing: setValueAt and setValue *)

(** The default value is computed from the descriptor and the data object. *)
Lemma defaultValue_frame (st st' : Instance) (dv : JsValue) :
  component st' = component st → data st' = data st →
  defaultValue st = Ok dv st → defaultValue st' = Ok dv st'.
Proof.
  intros Hc Hd. unfold defaultValue, bind, gets, ret, throw. simpl.
  rewrite Hc.
  destruct (truthy _); [congruence|].
  destruct (Descriptor.customDefaultValue _) as [|f|f]; rewrite ?Hd;
    [congruence| |]; destruct (f (data st)); congruence.
Qed.

Lemma setValueAt_Ok (st : Instance) (i : nat) (n : Node) (x dv : JsValue) :
  inputs st !! i = Some n →
  nullish x = false ∨ defaultValue st = Ok dv st →
  setValueAt i x st
  = Ok tt (set_inputs (<[i := with_value (shown st (written dv x)) n]> (inputs st)) st).
Proof.
  intros Hn Hdv. unfold setValueAt, written, shown, assigned.
  destruct (nullish x) eqn:Hx.
  - destruct Hdv as [?|Hdv]; [done|].
    rewrite (bind_Ok _ _ _ _ _ Hdv). unfold bind, gets, modify. by rewrite Hn.
  - unfold bind, gets, modify, ret. by rewrite Hn.
Qed.

(** The loop of setValue. *)
Lemma setValue_rows_Ok (v dv : JsValue) (rows : list nat) (st : Instance) :
  (∀ i, i ∈ rows → i < length (inputs st)) →
  (∀ i, i ∈ rows →
     nullish (row_value v i st) = false ∨ defaultValue st = Ok dv st) →
  ∃ ins,
    for_each rows (λ i,
      bind (gets (λ st, if isArray v then element v i st else v))
           (λ x, setValueAt i x)) st
    = Ok tt (set_inputs ins st)
    ∧ length ins = length (inputs st)
    ∧ (∀ i, i ∈ rows →
         node_value <$> ins !! i = Some (shown st (written dv (row_value v i st))))
    ∧ (∀ i, i ∉ rows → ins !! i = inputs st !! i).
Proof.
  revert st. induction rows as [|i rows IH]; intros st Hlt Hdv.
  - exists (inputs st). simpl. unfold ret. split_and!; try done.
    + by destruct st.
    + intros i Hi. by apply elem_of_nil in Hi.
  - assert (is_Some (inputs st !! i)) as [n Hn].
    { apply lookup_lt_is_Some, Hlt. left. }
    simpl. unfold bind at 1. unfold bind at 1. unfold gets at 1.
    fold (row_value v i st).
    rewrite (setValueAt_Ok st i n _ dv Hn) by (apply Hdv; left).
    set (st1 := set_inputs _ st).
    destruct (IH st1) as (ins & Hrun & Hlen & Hin & Hout).
    { intros j Hj. unfold st1. simpl. rewrite length_insert. apply Hlt. by right. }
    { intros j Hj. destruct (Hdv j) as [Hj'|Hj']; [by right| by left |right].
      by apply (defaultValue_frame st). }
    exists ins. split_and!.
    + by rewrite Hrun.
    + rewrite Hlen. unfold st1. simpl. by rewrite length_insert.
    + intros j Hj. destruct (decide (j ∈ rows)) as [Hjr|Hjr].
      * by apply Hin.
      * apply elem_of_cons in Hj as [->|?]; [|done].
        rewrite (Hout i Hjr). unfold st1. simpl.
        rewrite list_lookup_insert_eq by (by apply lookup_lt_Some in Hn). done.
    + intros j Hj. apply not_elem_of_cons in Hj as [Hji Hjr].
      rewrite (Hout j Hjr). unfold st1. simpl.
      by rewrite list_lookup_insert_ne.
Qed.

(** setValue on an input-bound component: it returns, and every rendered row
    holds what setValueAt wrote for it. *)
Lemma setValue_Ok (st : Instance) (v dv : JsValue) (noUpdate noValidate : bool) :
  Descriptor.input (component st) = true →
  (∀ i, i < length (inputs st) →
     nullish (row_value v i st) = false ∨ defaultValue st = Ok dv st) →
  ∃ st',
    setValue v noUpdate noValidate st = Ok tt st'
    ∧ component st' = component st
    ∧ length (inputs st') = length (inputs st)
    ∧ (∀ i, i < length (inputs st) →
         node_value <$> inputs st' !! i
         = Some (shown st (written dv (row_value v i st)))).
Proof.
  intros Hin Hdv.
  destruct (setValue_rows_Ok v dv (seq 0 (length (inputs st))) (set_value v st))
    as (ins & Hrun & Hlen & Hrows & _).
  { intros i Hi. apply elem_of_seq in Hi. simpl. lia. }
  { intros i Hi. apply elem_of_seq in Hi.
    destruct (Hdv i) as [H|H]; [simpl; lia | by left | right].
    by apply (defaultValue_frame st). }
  assert (∀ i, i < length (inputs st) →
            node_value <$> ins !! i
            = Some (shown st (written dv (row_value v i st))))
    as Hall.
  { intros i Hi. apply Hrows, elem_of_seq. simpl. lia. }
  unfold setValue. unfold bind at 1. unfold gets at 1. rewrite Hin. simpl.
  unfold bind at 1. unfold modify at 1.
  unfold bind at 1. unfold gets at 1.
  change (inputs (set_value v st)) with (inputs st).
  rewrite (bind_Ok _ _ _ _ _ Hrun).
  destruct noUpdate; simpl.
  - eexists. split; [reflexivity|]. by split_and!.
  - destruct (getValue_total (set_inputs ins (set_value v st)))
      as (v' & h & x & Hget).
    rewrite (updateValue_Ok _ _ _ _ Hget).
    eexists. split; [reflexivity|]. by split_and!.
Qed.

(** C1, as stated, fails for a sequence: on a built single-value text field,
    setValue(["a", "b"]) writes "a" into the input, and getValue() then
    returns "a": not the sequence, and not the string "a,b" of it either. *)
Lemma round_trip_fails_for_sequence :
  let st := state_of (build (create text_field false None ∅ [[JStr "a"; JStr "b"]])) in
  Descriptor.input (component st) = true
  ∧ Descriptor.multiple (component st) = false
  ∧ length (inputs st) = 1
  ∧ JArr 0 ≠ JNull ∧ JArr 0 ≠ JUndefined
  ∧ elements (JArr 0) st = [JStr "a"; JStr "b"]
  ∧ shown st (JArr 0) = JStr "a,b"
  ∧ (∃ st1 st2, setValue (JArr 0) false false st = Ok tt st1
                ∧ getValue st1 = Ok (JStr "a") st2)
  ∧ ¬ round_trips st (JArr 0) false false.
Proof.
  cbv zeta. split_and!; try done.
  - eexists _, _. split; vm_compute; reflexivity.
  - intros (st1 & st2 & H1 & H2 & _).
    vm_compute in H1. injection H1 as <-.
    vm_compute in H2. discriminate.
Qed.

(** C1, amended: for an input-bound, single-value component with at least
    one rendered input, and a value [v] that is neither null nor undefined
    nor a sequence, setValue(v) returns, and getValue() then returns the
    string the text input keeps of [v] (the string of [v], without line
    breaks) and caches it in the instance's value. So getValue() returns
    [v] itself exactly when [v] is such a string already. *)
Theorem setValue_getValue_round_trip
    (st : Instance) (v : JsValue) (noUpdate noValidate : bool) :
  Descriptor.input (component st) = true →
  Descriptor.multiple (component st) = false →
  inputs st ≠ [] →
  v ≠ JNull → v ≠ JUndefined →
  isArray v = false →
  reads_back st v (shown st v) noUpdate noValidate
  ∧ (round_trips st v noUpdate noValidate ↔ shown st v = v).
Proof.
  intros Hin Hmul Hne Hnull Hundef Harr.
  assert (nullish v = false) as Hv by (by destruct v).
  destruct (setValue_Ok st v JUndefined noUpdate noValidate Hin)
    as (st1 & Hset & Hc & Hlen & Hrows).
  { intros i _. left. unfold row_value. by rewrite Harr. }
  assert (0 < length (inputs st)) as Hpos by (destruct (inputs st); simpl; [done|lia]).
  specialize (Hrows 0 Hpos).
  unfold row_value, written in Hrows. rewrite Harr, Hv in Hrows.
  destruct (inputs st1) as [|n rest] eqn:Hins; [done|].
  simpl in Hrows. injection Hrows as Hn.
  assert (getValue st1
          = Ok (shown st v) (set_value (shown st v) (set_heap (heap st1 ++ [[]]) st1)))
    as Hget.
  { rewrite <- Hn. apply (getValue_single st1 n rest); congruence. }
  split.
  - eexists st1, _. split; [exact Hset|]. split; [exact Hget|reflexivity].
  - split.
    + intros (st1' & st2 & Hset' & Hget' & _).
      rewrite Hset in Hset'. injection Hset' as <-.
      rewrite Hget in Hget'. by injection Hget' as Heq _.
    + intros Heq. rewrite Heq in Hget.
      eexists st1, _. split; [exact Hset|]. split; [exact Hget|reflexivity].
Qed.

Lemma setValue_getValue_round_trip_witness :
  let st := state_of (build (create text_field false None ∅ [])) in
  reads_back st (JNum 30) (JStr "30") false false
  ∧ ¬ round_trips st (JNum 30) false false
  ∧ round_trips st (JStr "Ada") false false.
Proof.
  cbv zeta.
  destruct (setValue_getValue_round_trip
              (state_of (build (create text_field false None ∅ [])))
              (JNum 30) false false) as [Hback Hiff];
    [vm_compute; congruence..|].
  split; [exact Hback|]. split.
  - intros H. apply Hiff in H. vm_compute in H. discriminate.
  - apply (setValue_getValue_round_trip
             (state_of (build (create text_field false None ∅ [])))
             (JStr "Ada") false false); vm_compute; congruence.
Defined.

(** C2, as stated, fails for a row beyond the sequence: with two rows,
    setValue(["x"]) leaves the computed default value (the empty string) in
    row 1: not the sequence ["x"] itself, and not its string "x". *)
Lemma overflow_row_gets_default_not_whole_value :
  let st := two_tags [[JStr "x"]] in
  let v := JArr 1 in
  Descriptor.input (component st) = true
  ∧ length (inputs st) = 2
  ∧ elements v st = [JStr "x"]
  ∧ defaultValue st = Ok (JStr "") st
  ∧ ∃ st', setValue v false false st = Ok tt st'
           ∧ row_holds st' 0 (JStr "x")
           ∧ row_holds st' 1 (JStr "")
           ∧ ¬ row_holds st' 1 v
           ∧ ¬ row_holds st' 1 (shown st v).
Proof.
  cbv zeta. split; [vm_compute; reflexivity|]. split; [vm_compute; reflexivity|].
  split; [vm_compute; reflexivity|]. split; [vm_compute; reflexivity|].
  eexists. split; [vm_compute; reflexivity|].
  split; [vm_compute; reflexivity|]. split; [vm_compute; reflexivity|].
  split; intros H; vm_compute in H; discriminate.
Qed.

(** C2, amended: on an input-bound component whose default value is
    computed as [dv], setValue(v) returns and keeps the rows; a row that
    receives a value shows the string its text input keeps of it. For a
    sequence [v], row [i] receives element [i] of it, with [dv] in place of
    a null or undefined element, and every row beyond the length of the
    sequence receives [dv]; for a [v] that is no sequence, every row
    receives [v], or [dv] when [v] is null or undefined. *)
Theorem setValue_distributes
    (st : Instance) (v dv : JsValue) (noUpdate noValidate : bool) :
  Descriptor.input (component st) = true →
  defaultValue st = Ok dv st →
  ∃ st',
    setValue v noUpdate noValidate st = Ok tt st'
    ∧ length (inputs st') = length (inputs st)
    ∧ (isArray v = true → ∀ i x,
         i < length (inputs st) → elements v st !! i = Some x →
         row_holds st' i (shown st (if nullish x then dv else x)))
    ∧ (isArray v = true → ∀ i,
         i < length (inputs st) → length (elements v st) ≤ i →
         row_holds st' i (shown st dv))
    ∧ (isArray v = false → ∀ i,
         i < length (inputs st) →
         row_holds st' i (shown st (if nullish v then dv else v))).
Proof.
  intros Hin Hdv.
  destruct (setValue_Ok st v dv noUpdate noValidate Hin)
    as (st' & Hset & _ & Hlen & Hrows).
  { intros i _. by right. }
  exists st'. split; [exact Hset|]. split; [exact Hlen|].
  unfold row_holds. split_and!.
  - intros Harr i x Hi Hx. rewrite (Hrows i Hi).
    unfold written, row_value, element. by rewrite Harr, Hx.
  - intros Harr i Hi Hlong. rewrite (Hrows i Hi).
    unfold written, row_value, element. rewrite Harr.
    by rewrite (lookup_ge_None_2 _ _ Hlong).
  - intros Harr i Hi. rewrite (Hrows i Hi).
    unfold written, row_value. by rewrite Harr.
Qed.

Lemma setValue_distributes_witness :
  ∃ st',
    setValue (JArr 1) false false (two_tags [[JNum 7; JNull]]) = Ok tt st'
    ∧ row_holds st' 0 (JStr "7")
    ∧ row_holds st' 1 (JStr "").
Proof.
  destruct (setValue_distributes (two_tags [[JNum 7; JNull]]) (JArr 1) (JStr "")
              false false)
    as (st' & Hset & _ & Helem & _);
    [vm_compute; reflexivity | vm_compute; reflexivity |].
  exists st'. split; [exact Hset|]. split.
  - apply (Helem eq_refl 0 (JNum 7)); [vm_compute; lia | vm_compute; reflexivity].
  - apply (Helem eq_refl 1 JNull); [vm_compute; lia | vm_compute; reflexivity].
Defined.

(** ** Rows of a multiple-value component: addNewValue *)

Lemma defaultValue_returned (st : Instance) :
  returned (defaultValue st) = true → ∃ dv, defaultValue st = Ok dv st.
Proof.
  unfold defaultValue, bind, gets, ret, throw. simpl.
  destruct (truthy _); [by eexists|].
  destruct (Descriptor.customDefaultValue _) as [|f|f]; [by eexists| |];
    destruct (f (data st)); simpl; intros; try done; by eexists.
Qed.

(** C7, as stated, fails for a falsy scalar: with the entry 0, addNewValue()
    replaces it by an empty sequence before appending the default value, so
    the entry becomes [""] and the scalar is lost, where the claim has
    [0, ""]. *)
Lemma addNewValue_drops_falsy_scalar :
  let st := create tags_field false None {[ "tags" := JNum 0 ]} [] in
  isArray (entry st) = false
  ∧ entry st = JNum 0
  ∧ defaultValue st = Ok (JStr "") st
  ∧ ∃ a st', addNewValue st = Ok tt st'
             ∧ entry st' = JArr a
             ∧ elements (JArr a) st' = [JStr ""]
             ∧ elements (JArr a) st' ≠ [JNum 0; JStr ""].
Proof.
  cbv zeta. split; [vm_compute; reflexivity|]. split; [vm_compute; reflexivity|].
  split; [vm_compute; reflexivity|].
  eexists 0, _. split; [vm_compute; reflexivity|].
  split; [vm_compute; reflexivity|]. split; [vm_compute; reflexivity|].
  vm_compute. discriminate.
Qed.

(** The state in which addNewValue() computes the default value. *)
Lemma coerced_eq (st : Instance) :
  coerced st
  = if truthy (entry st) && isArray (entry st) then st
    else set_data (<[Descriptor.key (component st) := JArr (length (heap st))]>
                     (data st))
           (set_heap (heap st ++ [if truthy (entry st) then [entry st] else []]) st).
Proof.
  unfold coerced. unfold bind at 1. unfold gets at 1.
  destruct (truthy (entry st)) eqn:Htruthy; simpl.
  - unfold bind at 1. unfold ret at 1. unfold bind at 1. unfold gets at 1.
    destruct (isArray (entry st)) eqn:Harr; simpl; [done|].
    by unfold bind, new_array, write_entry, modify.
  - unfold bind at 1. unfold bind at 1. unfold new_array at 1.
    unfold write_entry at 1. unfold modify at 1.
    unfold bind at 1. unfold gets at 1.
    set (st2 := set_data _ _).
    assert (entry st2 = JArr (length (heap st))) as ->.
    { unfold entry, st2. simpl. by rewrite lookup_insert_eq. }
    done.
Qed.

Lemma addNewValue_eq (st : Instance) :
  addNewValue st
  = bind (gets entry) (λ arr, bind defaultValue (λ dv, push arr dv)) (coerced st).
Proof.
  unfold addNewValue, coerced.
  unfold bind, gets, ret, new_array, write_entry, modify.
  destruct (truthy (entry st)); simpl;
    match goal with |- context [isArray ?e] => destruct (isArray e) end;
    reflexivity.
Qed.

(** C7, amended: for a component whose key is a name that
    [Object.prototype] does not define, whenever computing the default value
    does not raise where addNewValue() computes it (over the data object
    whose entry has been made a sequence), addNewValue() returns for any
    prior state of the entry. An absent or otherwise falsy entry is replaced
    by a new empty sequence, a truthy entry that is no sequence by a new
    one-element sequence holding it, a sequence is kept; in each case
    exactly one computed default value is appended at the end. *)
Theorem addNewValue_appends_default (st : Instance) :
  ordinary_key st →
  returned (defaultValue (coerced st)) = true →
  ∃ (a : nat) (dv : JsValue) (st' : Instance),
    addNewValue st = Ok tt st'
    ∧ read_value (PlainObject.get (Descriptor.key (component st)) (data st))
      = Some (entry st)
    ∧ defaultValue (coerced st) = Ok dv (coerced st)
    ∧ defaultValue st' = Ok dv st'
    ∧ entry st' = JArr a
    ∧ (truthy (entry st) = false → elements (JArr a) st' = [dv])
    ∧ (truthy (entry st) = true → isArray (entry st) = false →
       elements (JArr a) st' = [entry st; dv])
    ∧ (∀ s, entry st = JArr a → heap st !! a = Some s →
       elements (JArr a) st' = s ++ [dv])
    ∧ (isArray (entry st) = true → entry st' = entry st).
Proof.
  intros Hkey Hdefault.
  destruct (defaultValue_returned _ Hdefault) as [dv Hdv].
  rewrite addNewValue_eq.
  unfold bind at 1. unfold gets at 1.
  rewrite (bind_Ok _ _ _ _ _ Hdv).
  revert Hdv. rewrite coerced_eq.
  destruct (truthy (entry st)) eqn:Htruthy; simpl.
  - destruct (isArray (entry st)) eqn:Harr; simpl; intros Hdv.
    + destruct (entry st) as [| | | | | |a] eqn:He; try done.
      exists a, dv. eexists. split; [reflexivity|].
      split; [rewrite <- He; by apply entry_read|]. split; [done|].
      split; [by apply (defaultValue_frame st)|].
      split; [exact He|]. split; [done|]. split; [done|]. split; [|done].
      intros s _ Hs. simpl. by rewrite list_lookup_alter_eq, Hs.
    + set (st2 := set_data _ _) in *.
      assert (entry st2 = JArr (length (heap st))) as He2.
      { unfold entry, st2. simpl. by rewrite lookup_insert_eq. }
      rewrite He2.
      exists (length (heap st)), dv. eexists. split; [reflexivity|].
      split; [by apply entry_read|]. split; [done|].
      split; [by apply (defaultValue_frame st2)|].
      split; [exact He2|]. split; [done|]. split.
      * intros _ _. simpl. rewrite list_lookup_alter_eq.
        rewrite lookup_app_r by lia. by rewrite Nat.sub_diag.
      * split; [|done]. intros s Hs. by rewrite Hs in Harr.
  - intros Hdv. set (st2 := set_data _ _) in *.
    assert (entry st2 = JArr (length (heap st))) as He2.
    { unfold entry, st2. simpl. by rewrite lookup_insert_eq. }
    rewrite He2.
    exists (length (heap st)), dv. eexists. split; [reflexivity|].
    split; [by apply entry_read|]. split; [done|].
    split; [by apply (defaultValue_frame st2)|].
    split; [exact He2|]. split.
    + intros _. simpl. rewrite list_lookup_alter_eq.
      rewrite lookup_app_r by lia. by rewrite Nat.sub_diag.
    + split; [done|]. split.
      * intros s Hs. by rewrite Hs in Htruthy.
      * intros Harr. by destruct (entry st).
Qed.

Lemma defaultValue_without_logic (st : Instance) :
  match Descriptor.customDefaultValue (component st) with
  | Descriptor.Logic _ => truthy (Descriptor.defaultValue (component st))
  | _ => true
  end = true →
  returned (defaultValue st) = true.
Proof.
  unfold defaultValue, bind, gets, ret, throw. simpl.
  destruct (truthy _); [done|].
  destruct (Descriptor.customDefaultValue _) as [|f|f]; [done| |done].
  by destruct (f (data st)).
Qed.

Lemma addNewValue_appends_default_witness :
  ∃ (a : nat) (dv : JsValue) (st' : Instance),
    addNewValue (create tags_field false None {[ "tags" := JStr "x" ]} [])
    = Ok tt st'
    ∧ defaultValue st' = Ok dv st'
    ∧ elements (JArr a) st' = [JStr "x"; dv].
Proof.
  destruct (addNewValue_appends_default
              (create tags_field false None {[ "tags" := JStr "x" ]} []))
    as (a & dv & st' & Hadd & _ & _ & Hdv & _ & _ & Hwrap & _).
  - vm_compute. reflexivity.
  - vm_compute. reflexivity.
  - exists a, dv, st'. split; [exact Hadd|]. split; [exact Hdv|].
    apply Hwrap; vm_compute; reflexivity.
Defined.

(** ** What the row methods leave alone *)

Section Preserves.
Context (R : relation Instance) `{!PreOrder R}.

Lemma preserves_ret {A} (a : A) : preserves R (ret a).
Proof. intros st. reflexivity. Qed.

Lemma preserves_gets {A} (f : Instance → A) : preserves R (gets f).
Proof. intros st. reflexivity. Qed.

Lemma preserves_throw {A} (e : Exn) : preserves R (@throw Instance A e).
Proof. intros st. reflexivity. Qed.

Lemma preserves_modify (f : Instance → Instance) :
  (∀ st, R st (f st)) → preserves R (modify f).
Proof. intros H st. apply H. Qed.

Lemma preserves_bind {A B} (m : M A) (k : A → M B) :
  preserves R m → (∀ a, preserves R (k a)) → preserves R (bind m k).
Proof.
  intros Hm Hk st. unfold bind. specialize (Hm st).
  destruct (m st) as [a st'|e st']; simpl in *; [|done].
  etransitivity; [exact Hm | apply Hk].
Qed.

Lemma preserves_for_each {A} (l : list A) (body : A → M unit) :
  (∀ x, preserves R (body x)) → preserves R (for_each l body).
Proof.
  intros Hbody. induction l as [|x l IH]; simpl.
  - apply preserves_ret.
  - apply preserves_bind; [apply Hbody | intros _; apply IH].
Qed.
End Preserves.

Global Instance same_store_preorder : PreOrder same_store.
Proof.
  split.
  - intros st. by repeat split.
  - intros st1 st2 st3 (?&?&?&?&?) (?&?&?&?&?). repeat split; congruence.
Qed.

Create HintDb preserves.

Ltac preserve :=
  repeat first
    [ apply preserves_ret; apply _
    | apply preserves_gets; apply _
    | apply preserves_throw; apply _
    | apply preserves_modify; intros ?; by repeat split
    | apply preserves_bind; [apply _| |intros ?]
    | apply preserves_for_each; [apply _|intros ?]
    | match goal with
      | |- preserves _ (if ?b then _ else _) => destruct b
      | |- preserves _ (match ?x with _ => _ end) => destruct x
      end
    | solve [eauto with typeclass_instances preserves] ].

Lemma defaultValue_same_store : preserves same_store defaultValue.
Proof. unfold defaultValue. preserve. Qed.
#[global] Hint Resolve defaultValue_same_store : preserves.

Lemma setValueAt_same_store i x : preserves same_store (setValueAt i x).
Proof. unfold setValueAt. preserve. Qed.
#[global] Hint Resolve setValueAt_same_store : preserves.

(** setValue with [noUpdate] writes rows and the cached value only. *)
Lemma setValue_noUpdate_same_store v nv : preserves same_store (setValue v true nv).
Proof. unfold setValue. preserve. Qed.
#[global] Hint Resolve setValue_noUpdate_same_store : preserves.

Lemma addEventListener_same_store obj evt func :
  preserves same_store (addEventListener obj evt func).
Proof.
  unfold addEventListener. preserve.
  apply preserves_modify. intros st. by destruct obj.
Qed.
#[global] Hint Resolve addEventListener_same_store : preserves.

Lemma new_closure_same_store mk : preserves same_store (new_closure mk).
Proof. unfold new_closure. preserve. Qed.
#[global] Hint Resolve new_closure_same_store : preserves.

Lemma addInput_same_store : preserves same_store addInput.
Proof. unfold addInput. preserve. Qed.
#[global] Hint Resolve addInput_same_store : preserves.

Lemma createInput_same_store : preserves same_store createInput.
Proof. unfold createInput. preserve. Qed.
#[global] Hint Resolve createInput_same_store : preserves.

Lemma buildRows_same_store : preserves same_store buildRows.
Proof. unfold buildRows, removeButton, addButton, set_disabled_all. preserve. Qed.
#[global] Hint Resolve buildRows_same_store : preserves.

Lemma removeButton_same_store index : preserves same_store (removeButton index).
Proof. unfold removeButton. preserve. Qed.

Lemma addButton_same_store : preserves same_store addButton.
Proof. unfold addButton. preserve. Qed.

(** ** The row methods return *)

Lemma returned_bind {S A B} (m : Eff S A) (k : A → Eff S B) (s : S) :
  returned (m s) = true →
  (∀ a, m s = Ok a (state_of (m s)) → returned (k a (state_of (m s))) = true) →
  returned (bind m k s) = true.
Proof.
  unfold bind. destruct (m s) as [a s'|e s']; simpl; [|done].
  intros _ H. by apply H.
Qed.

(** A loop returns when its body returns under an invariant it keeps. *)
Lemma returned_for_each {S A} (I : S → Prop) (l : list A) (body : A → Eff S unit) :
  (∀ x s, I s → returned (body x s) = true ∧ I (state_of (body x s))) →
  ∀ s, I s →
    returned (for_each l body s) = true ∧ I (state_of (for_each l body s)).
Proof.
  intros Hbody. induction l as [|x l IH]; intros s Hs; simpl.
  - by split.
  - destruct (Hbody x s Hs) as [Hret Hinv]. unfold bind.
    destruct (body x s) as [[] s'|e s']; simpl in *; [|done].
    by apply IH.
Qed.

Lemma setValue_returned (st : Instance) (v : JsValue) (noUpdate noValidate : bool) :
  default_never_raises (component st) →
  returned (setValue v noUpdate noValidate st) = true.
Proof.
  intros Hdefault.
  destruct (Descriptor.input (component st)) eqn:Hin.
  - destruct (defaultValue_returned st (Hdefault st eq_refl)) as [dv Hdv].
    destruct (setValue_Ok st v dv noUpdate noValidate Hin) as (st' & Hset & _).
    { intros i _. by right. }
    by rewrite Hset.
  - unfold setValue, bind, gets. by rewrite Hin.
Qed.

Lemma addEventListener_returned (st : Instance) obj evt func :
  is_Some (node_at obj st) →
  returned (addEventListener obj evt func st) = true.
Proof.
  intros [n Hn]. unfold addEventListener, bind, modify, gets. simpl.
  replace (node_at obj (set_eventHandlers _ st)) with (Some n)
    by (by destruct obj).
  reflexivity.
Qed.

Lemma lookup_snoc_last {A} (l : list A) (x : A) : (l ++ [x]) !! length l = Some x.
Proof. rewrite lookup_app_r by lia. by rewrite Nat.sub_diag. Qed.

Lemma addInput_returned (st : Instance) :
  default_never_raises (component st) → returned (addInput st) = true.
Proof.
  intros Hdefault. unfold addInput.
  unfold bind at 1. unfold gets at 1.
  unfold bind at 1. unfold modify at 1.
  unfold bind at 1. unfold new_closure at 1, bind at 1, gets at 1,
    bind at 1, modify at 1, ret at 1.
  set (st1 := set_closures _ _).
  apply returned_bind.
  { apply addEventListener_returned. unfold st1. simpl.
    rewrite lookup_snoc_last. by eexists. }
  intros [] _.
  pose proof (addEventListener_same_store
                (InputNode (length (inputs st))) "change"
                (UpdateValueListener (closures (set_inputs (inputs st ++ [fresh_node]) st)))
                st1) as Hsame.
  assert (length (inputs st) < length (inputs (state_of
            (addEventListener (InputNode (length (inputs st))) "change"
               (UpdateValueListener (closures (set_inputs (inputs st ++ [fresh_node]) st)))
               st1)))) as Hlen.
  { unfold addEventListener, bind, modify, gets. simpl.
    rewrite lookup_snoc_last. simpl.
    rewrite length_insert, length_app. simpl. lia. }
  set (st2 := state_of _) in *.
  unfold bind at 1. unfold new_closure at 1, bind at 1, gets at 1,
    bind at 1, modify at 1, ret at 1.
  set (st3 := set_closures _ st2).
  apply returned_bind.
  { apply addEventListener_returned. unfold st3. simpl.
    by apply lookup_lt_is_Some. }
  intros [] _.
  pose proof (addEventListener_same_store
                (InputNode (length (inputs st))) "keypress"
                (SubmitListener (closures st2)) st3) as Hsame3.
  set (st4 := state_of (addEventListener _ "keypress" _ st3)) in *.
  unfold bind at 1. unfold gets at 1.
  destruct (hasOwnEntry st4); [|done].
  unfold bind at 1. unfold gets at 1.
  apply setValue_returned.
  destruct Hsame as [Hc _]. destruct Hsame3 as [Hc3 _].
  replace (component st4) with (component st); [done|].
  rewrite Hc3. unfold st3. simpl. by rewrite Hc.
Qed.

Lemma createInput_returned (st : Instance) :
  default_never_raises (component st) → returned (createInput st) = true.
Proof.
  intros Hdefault. unfold createInput.
  unfold bind at 1. unfold gets at 1.
  destruct (Descriptor.inputMask (component st));
    unfold bind at 1; [unfold modify at 1 | unfold ret at 1];
    by apply addInput_returned.
Qed.

Lemma removeButton_returned (st : Instance) (index : nat) :
  returned (removeButton index st) = true.
Proof.
  unfold removeButton.
  unfold bind at 1. unfold gets at 1.
  unfold bind at 1. unfold modify at 1.
  unfold bind at 1. unfold new_closure at 1, bind at 1, gets at 1,
    bind at 1, modify at 1, ret at 1.
  apply addEventListener_returned. simpl. rewrite lookup_snoc_last. by eexists.
Qed.

Lemma addButton_returned (st : Instance) : returned (addButton st) = true.
Proof.
  unfold addButton.
  unfold bind at 1. unfold gets at 1.
  unfold bind at 1. unfold modify at 1.
  unfold bind at 1. unfold new_closure at 1, bind at 1, gets at 1,
    bind at 1, modify at 1, ret at 1.
  apply addEventListener_returned. simpl. rewrite lookup_snoc_last. by eexists.
Qed.

Lemma buildRows_returned (st : Instance) :
  default_never_raises (component st) → returned (buildRows st) = true.
Proof.
  intros Hdefault. unfold buildRows.
  unfold bind at 1. unfold gets at 1.
  destruct (tbody st); [|done]. simpl.
  unfold bind at 1. unfold modify at 1.
  unfold bind at 1. unfold modify at 1.
  unfold bind at 1. unfold gets at 1.
  set (st1 := set_controls [] _).
  set (n := each_count _ _).
  destruct (returned_for_each (λ s, component s = component st) (seq 0 n)
              (λ index, bind createInput (λ _, removeButton index))) with (s := st1)
    as [Hret Hinv].
  { intros index s Hs. split.
    - apply returned_bind.
      + apply createInput_returned. by rewrite Hs.
      + intros _ _. apply removeButton_returned.
    - rewrite <- Hs.
      apply (preserves_bind same_store createInput (λ _, removeButton index)).
      + apply createInput_same_store.
      + intros _. apply removeButton_same_store. }
  { reflexivity. }
  apply returned_bind; [exact Hret|]. intros [] _.
  apply returned_bind; [apply addButton_returned|]. intros [] _.
  unfold bind, gets. by destruct (_ || _).
Qed.

(** ** Adding a row and removing it again *)

Lemma entry_holds_same_store (st st' : Instance) (a : nat) (l : list JsValue) :
  same_store st st' → entry_holds st a l → entry_holds st' a l.
Proof. intros (Hc & Hd & Hh & _) [? ?]. unfold entry_holds. by rewrite Hc, Hd, Hh. Qed.

Lemma entry_holds_entry (st : Instance) (a : nat) (l : list JsValue) :
  entry_holds st a l → entry st = JArr a ∧ hasOwnEntry st = true.
Proof.
  intros [Hd _]. unfold entry, hasOwnEntry. rewrite Hd. split; [done|].
  by apply bool_decide_eq_true.
Qed.

Lemma addNewValue_sequence_eq (st : Instance) (a : nat) :
  entry st = JArr a →
  addNewValue st = bind defaultValue (λ dv, push (JArr a) dv) st.
Proof.
  intros He. unfold addNewValue.
  unfold bind at 1. unfold gets at 1. rewrite He. simpl.
  unfold bind at 1. unfold ret at 1.
  unfold bind at 1. unfold gets at 1. rewrite He. simpl.
  unfold bind at 1. unfold ret at 1.
  unfold bind at 1. unfold gets at 1. by rewrite He.
Qed.

(** On a sequence, addNewValue() appends the default value in place; if
    computing the default raises, the sequence is as before. *)
Lemma addNewValue_on_sequence (st : Instance) (a : nat) (s : list JsValue) :
  entry_holds st a s →
  component (state_of (addNewValue st)) = component st
  ∧ ((∃ dv, addNewValue st = Ok tt (state_of (addNewValue st))
            ∧ entry_holds (state_of (addNewValue st)) a (s ++ [dv]))
     ∨ (returned (defaultValue st) = false
        ∧ returned (addNewValue st) = false
        ∧ entry_holds (state_of (addNewValue st)) a s)).
Proof.
  intros Hs. pose proof Hs as [Hd Hh].
  destruct (entry_holds_entry st a s Hs) as [He _].
  rewrite (addNewValue_sequence_eq st a He).
  pose proof (defaultValue_same_store st) as Hsame.
  unfold bind. destruct (defaultValue st) as [dv st'|e st'] eqn:Hdv; simpl in *.
  - destruct (defaultValue_returned st) as [dv' Hdv']; [by rewrite Hdv|].
    assert (st' = st) as -> by congruence.
    split; [done|]. left. exists dv. split; [done|].
    split; simpl; [done|]. by rewrite list_lookup_alter_eq, Hh.
  - split; [by destruct Hsame|]. right.
    split; [done|]. split; [done|].
    by apply (entry_holds_same_store st).
Qed.

Lemma removeValue_sequence_eq (st : Instance) (a index : nat) :
  entry st = JArr a → hasOwnEntry st = true →
  removeValue index st
  = buildRows (set_heap (alter (delete index) a (heap st)) st).
Proof.
  intros He Hown. unfold removeValue.
  unfold bind at 1. unfold gets at 1. rewrite Hown.
  unfold bind at 1. unfold bind at 1. unfold gets at 1. by rewrite He.
Qed.

Lemma removeValue_on_sequence (st : Instance) (a index : nat) (l : list JsValue) :
  entry_holds st a l →
  entry_holds (state_of (removeValue index st)) a (delete index l)
  ∧ (default_never_raises (component st) →
     returned (removeValue index st) = true).
Proof.
  intros Hl. pose proof Hl as [Hd Hh].
  destruct (entry_holds_entry st a l Hl) as [He Hown].
  rewrite (removeValue_sequence_eq st a index He Hown).
  set (st1 := set_heap _ st).
  split.
  - apply (entry_holds_same_store st1); [apply buildRows_same_store|].
    split; simpl; [done|]. by rewrite list_lookup_alter_eq, Hh.
  - intros Hdefault. by apply buildRows_returned.
Qed.

Lemma delete_beyond {A} (l : list A) (i : nat) : length l ≤ i → delete i l = l.
Proof.
  intros Hi. rewrite delete_take_drop.
  rewrite take_ge by done. rewrite drop_ge by lia. by rewrite app_nil_r.
Qed.

Lemma delete_appended {A} (l : list A) (x : A) : delete (length l) (l ++ [x]) = l.
Proof. rewrite delete_middle. by rewrite app_nil_r. Qed.



(** ** Teardown: destroy *)

Global Instance same_nodes_preorder : PreOrder same_nodes.
Proof.
  split.
  - intros st. by split.
  - intros st1 st2 st3 [? ?] [? ?]. split; congruence.
Qed.

(** destroy touches no rendered node: whatever was attached with
    addEventListener stays attached. *)
Lemma destroy_same_nodes (all : bool) : preserves same_nodes (destroy all).
Proof. unfold destroy, events_off, window_removeEventListener. preserve. Qed.

(** C4, at a failing input: build() attaches a change and a keypress
    listener to the input with addEventListener and records both; after
    destroy(all), for either value of [all], the input still carries both
    listeners. (destroy passes [handler.event], which no record has, to
    [window.removeEventListener], and never addresses the node.) *)
Theorem destroy_leaves_raw_listeners :
  let attached := [("change", UpdateValueListener 0);
                   ("keypress", SubmitListener 1)] in
  eventHandlers text_field_on_hub
  = [{| h_type := "change"; h_func := UpdateValueListener 0 |};
     {| h_type := "keypress"; h_func := SubmitListener 1 |}]
  ∧ node_listeners <$> inputs text_field_on_hub !! 0 = Some attached
  ∧ ∀ all, ∃ st',
      destroy all text_field_on_hub = Ok tt st'
      ∧ node_listeners <$> inputs st' !! 0 = Some attached.
Proof.
  cbv zeta. split; [vm_compute; reflexivity|]. split; [vm_compute; reflexivity|].
  intros all. eexists. split.
  - destruct all; vm_compute; reflexivity.
  - destruct all; vm_compute; reflexivity.
Qed.

Lemma destroy_listeners_loop (all : bool) (ls : list ListenerRecord)
    (st : Instance) (h : Hub) :
  events st = Some h →
  for_each ls (λ listener,
    if all || l_internal listener
    then events_off (l_type listener) (l_listener listener)
    else ret tt) st
  = Ok tt (set_events
             (Some {| registered :=
                        off_all (map (λ l, (l_type l, l_listener l))
                                     (filter (λ l, all || l_internal l = true) ls))
                                (registered h);
                      emitted := emitted h |}) st).
Proof.
  revert st h. induction ls as [|l ls IH]; intros st h Hev; simpl.
  - unfold ret. f_equal. destruct st, h. simpl in *. by subst.
  - unfold bind. rewrite filter_cons.
    destruct (all || l_internal l) eqn:Hsel.
    + unfold events_off at 1, bind, gets, modify. rewrite Hev.
      rewrite (IH _ (hub_off (l_type l) (l_listener l) h)) by done.
      rewrite decide_True by done. reflexivity.
    + unfold ret at 1. rewrite (IH st h Hev).
      rewrite decide_False by (by intros ?). reflexivity.
Qed.

Lemma destroy_handlers_loop (hs : list HandlerRecord) (st : Instance) :
  for_each hs (λ handler,
    window_removeEventListener "undefined" (h_func handler)) st
  = Ok tt (set_windowListeners (window_after hs (windowListeners st)) st).
Proof.
  revert st. induction hs as [|h hs IH]; intros st; simpl.
  - unfold ret. f_equal. by destruct st.
  - unfold bind, window_removeEventListener at 1, modify. by rewrite IH.
Qed.

(** destroy on an instance that has an event hub. *)
Lemma destroy_Ok (all : bool) (st : Instance) (h : Hub) :
  events st = Some h →
  destroy all st
  = Ok tt (set_windowListeners
             (window_after (eventHandlers st) (windowListeners st))
             (set_events
                (Some {| registered := off_all (deregistered all st) (registered h);
                         emitted := emitted h |})
                (set_inputMask (released (inputMask st)) st))).
Proof.
  intros Hev. unfold destroy.
  unfold bind at 1. unfold gets at 1.
  assert (∀ st0 : Instance, events st0 = Some h →
            eventListeners st0 = eventListeners st →
            eventHandlers st0 = eventHandlers st →
            windowListeners st0 = windowListeners st →
            bind (gets eventListeners) (λ ls,
              bind (for_each ls (λ listener,
                      if all || l_internal listener
                      then events_off (l_type listener) (l_listener listener)
                      else ret tt))
                   (λ _, bind (gets eventHandlers) (λ hs,
                      for_each hs (λ handler,
                        window_removeEventListener "undefined" (h_func handler))))) st0
            = Ok tt (set_windowListeners
                       (window_after (eventHandlers st) (windowListeners st))
                       (set_events
                          (Some {| registered :=
                                     off_all (deregistered all st) (registered h);
                                   emitted := emitted h |}) st0))) as Hrest.
  { intros st0 Hev0 Hls Hhs Hwl.
    unfold bind at 1. unfold gets at 1.
    rewrite (bind_Ok _ _ _ _ _ (destroy_listeners_loop all _ st0 h Hev0)).
    unfold bind at 1. unfold gets at 1.
    rewrite destroy_handlers_loop. simpl.
    unfold deregistered. by rewrite Hls, Hhs, Hwl. }
  destruct (inputMask st) as [b|] eqn:Hmask; simpl.
  - unfold bind at 1. unfold modify at 1. by rewrite Hrest.
  - unfold bind at 1. unfold ret at 1. rewrite Hrest by done.
    f_equal. destruct st. simpl in *. by subst.
Qed.

Lemma destroy_listeners_loop_no_hub (all : bool) (ls : list ListenerRecord)
    (st : Instance) :
  events st = None →
  for_each ls (λ listener,
    if all || l_internal listener
    then events_off (l_type listener) (l_listener listener)
    else ret tt) st
  = match filter (λ l, all || l_internal l = true) ls with
    | [] => Ok tt st
    | _ :: _ => Throw TypeError st
    end.
Proof.
  intros Hev. induction ls as [|l ls IH]; simpl; [done|].
  unfold bind. rewrite filter_cons. destruct (all || l_internal l) eqn:Hsel.
  - unfold events_off, bind, gets, throw. rewrite Hev.
    by rewrite decide_True by done.
  - unfold ret at 1. rewrite IH. by rewrite decide_False by (by intros ?).
Qed.

(** destroy on an instance that has no event hub returns only if it has
    nothing to hand to [events.off]. *)
Lemma destroy_no_hub (all : bool) (st : Instance) :
  events st = None →
  destroy all st
  = match deregistered all st with
    | [] => Ok tt (set_windowListeners
                     (window_after (eventHandlers st) (windowListeners st))
                     (set_inputMask (released (inputMask st)) st))
    | _ :: _ => Throw TypeError (set_inputMask (released (inputMask st)) st)
    end.
Proof.
  intros Hev. unfold destroy.
  unfold bind at 1. unfold gets at 1.
  assert (∀ st0 : Instance, events st0 = None →
            eventListeners st0 = eventListeners st →
            eventHandlers st0 = eventHandlers st →
            windowListeners st0 = windowListeners st →
            bind (gets eventListeners) (λ ls,
              bind (for_each ls (λ listener,
                      if all || l_internal listener
                      then events_off (l_type listener) (l_listener listener)
                      else ret tt))
                   (λ _, bind (gets eventHandlers) (λ hs,
                      for_each hs (λ handler,
                        window_removeEventListener "undefined" (h_func handler))))) st0
            = match deregistered all st with
              | [] => Ok tt (set_windowListeners
                               (window_after (eventHandlers st) (windowListeners st))
                               st0)
              | _ :: _ => Throw TypeError st0
              end)
    as Hrest.
  { intros st0 Hev0 Hls Hhs Hwl.
    unfold bind at 1. unfold gets at 1. unfold bind at 1.
    rewrite (destroy_listeners_loop_no_hub all _ st0 Hev0).
    unfold deregistered. rewrite <- Hls.
    destruct (filter _ (eventListeners st0)); [|done]. simpl.
    unfold bind at 1. unfold gets at 1.
    rewrite destroy_handlers_loop. by rewrite Hhs, Hwl. }
  destruct (inputMask st) as [b|] eqn:Hmask; simpl.
  - unfold bind at 1. unfold modify at 1. by rewrite Hrest.
  - unfold bind at 1. unfold ret at 1. rewrite Hrest by done.
    assert (set_inputMask None st = st) as -> by (destruct st; simpl in *; by subst).
    done.
Qed.

Lemma occurrences_zero (p : string * Callback) l : occurrences p l = 0 ↔ p ∉ l.
Proof.
  unfold occurrences. induction l as [|q l IH]; simpl.
  - split; [intros _; apply not_elem_of_nil | done].
  - rewrite filter_cons, not_elem_of_cons. destruct (decide (q = p)) as [->|Hne]; simpl.
    + split; [done | by intros [? _]].
    + rewrite IH. split; [by split | by intros [_ ?]].
Qed.

Lemma remove_first_absent (p : string * Callback) l : p ∉ l → remove_first p l = l.
Proof.
  induction l as [|q l IH]; simpl; [done|].
  rewrite not_elem_of_cons. intros [Hne Hl].
  rewrite decide_False by done. by rewrite IH.
Qed.

Lemma occurrences_remove_first (p q : string * Callback) l :
  occurrences p (remove_first q l)
  = if decide (p = q) then pred (occurrences p l) else occurrences p l.
Proof.
  unfold occurrences. induction l as [|r l IH]; simpl.
  - by destruct (decide (p = q)).
  - rewrite (filter_cons _ r l).
    destruct (decide (r = q)) as [->|Hrq], (decide (p = q)) as [->|Hpq].
    + by rewrite decide_True by done.
    + by rewrite decide_False by done.
    + rewrite filter_cons. rewrite !decide_False by done. exact IH.
    + rewrite filter_cons. destruct (decide (r = p)); simpl; by rewrite IH.
Qed.

Lemma occurrences_off_all (p : string * Callback) ps l :
  occurrences p (off_all ps l) = occurrences p l - occurrences p ps.
Proof.
  revert l. induction ps as [|q ps IH]; intros l; simpl.
  - unfold occurrences at 3. simpl. lia.
  - rewrite IH, occurrences_remove_first.
    change (occurrences p (q :: ps))
      with (length (filter (λ r, r = p) (q :: ps))).
    rewrite filter_cons. fold (occurrences p ps).
    destruct (decide (p = q)) as [->|Hpq].
    + rewrite decide_True by done. simpl. unfold occurrences. lia.
    + rewrite decide_False by done. reflexivity.
Qed.

Lemma off_all_absent ps l : (∀ p, p ∈ ps → p ∉ l) → off_all ps l = l.
Proof.
  induction ps as [|q ps IH]; intros Habs; simpl; [done|].
  rewrite remove_first_absent by (apply Habs; left).
  apply IH. intros p Hp. apply Habs. by right.
Qed.

Lemma filter_filter_same {A} (P : A → Prop) `{!∀ x, Decision (P x)} (l : list A) :
  filter P (filter P l) = filter P l.
Proof.
  induction l as [|x l IH]; simpl; [done|].
  rewrite filter_cons. destruct (decide (P x)) as [HP|HP]; [|done].
  rewrite filter_cons. rewrite decide_True by done. by rewrite IH.
Qed.

Lemma filter_comm_pred {A} (P Q : A → Prop)
    `{!∀ x, Decision (P x)} `{!∀ x, Decision (Q x)} (l : list A) :
  filter P (filter Q l) = filter Q (filter P l).
Proof.
  induction l as [|x l IH]; simpl; [done|].
  rewrite !filter_cons.
  destruct (decide (Q x)), (decide (P x)); rewrite ?filter_cons;
    rewrite ?decide_True by done; rewrite ?decide_False by done; by rewrite ?IH.
Qed.

(** Removing the recorded handlers from the window a second time removes
    nothing more. *)
Lemma window_after_twice hs wl : window_after hs (window_after hs wl) = window_after hs wl.
Proof.
  revert wl. induction hs as [|h hs IH]; intros wl; simpl; [done|].
  assert (∀ (hs' : list HandlerRecord) (x : string * Callback) wl',
            window_after hs' (filter (λ p, p ≠ x) wl')
            = filter (λ p, p ≠ x) (window_after hs' wl')) as Hcomm.
  { induction hs' as [|h' hs' IH']; intros x wl'; simpl; [done|].
    rewrite <- IH'. f_equal. apply filter_comm_pred. }
  rewrite Hcomm, IH, <- Hcomm. by rewrite filter_filter_same.
Qed.

(** C5, as stated, fails when a recorded callback is registered on the hub
    once more than the instance recorded it: the first destroy() takes the
    instance's registration away, the second one the host's. *)
Lemma second_destroy_deregisters_again :
  eventListeners shared_listener
  = [{| l_type := "formio.change"; l_listener := HostFunction 7;
        l_internal := true |}]
  ∧ registrations shared_listener
    = [("formio.change", HostFunction 7); ("formio.change", HostFunction 7)]
  ∧ (∃ st1 st2,
       destroy false shared_listener = Ok tt st1
       ∧ destroy false st1 = Ok tt st2
       ∧ registrations st1 = [("formio.change", HostFunction 7)]
       ∧ registrations st2 = [])
  ∧ ¬ second_destroy_deregisters_nothing false shared_listener.
Proof.
  split; [vm_compute; reflexivity|]. split; [vm_compute; reflexivity|]. split.
  - eexists _, _. split; [vm_compute; reflexivity|].
    split; [vm_compute; reflexivity|]. split; vm_compute; reflexivity.
  - intros (st1 & st2 & H1 & H2 & Hreg & _).
    vm_compute in H1. injection H1 as <-.
    vm_compute in H2. injection H2 as <-.
    vm_compute in Hreg. discriminate.
Qed.

Lemma released_twice (mask : option bool) : released (released mask) = released mask.
Proof. by destruct mask. Qed.

(** The second of two destroy(all) calls. *)
Lemma destroy_again (all : bool) (st st1 : Instance) :
  destroy all st = Ok tt st1 →
  ∃ st2,
    destroy all st1 = Ok tt st2
    ∧ deregistered all st1 = deregistered all st
    ∧ registrations st1 = off_all (deregistered all st) (registrations st)
    ∧ registrations st2 = off_all (deregistered all st) (registrations st1)
    ∧ windowListeners st2 = windowListeners st1
    ∧ same_nodes st1 st2
    ∧ (registrations st2 = registrations st1 → st2 = st1).
Proof.
  intros Hfirst. destruct (events st) as [h|] eqn:Hev.
  - rewrite (destroy_Ok all st h Hev) in Hfirst. injection Hfirst as <-.
    eexists. split; [by erewrite destroy_Ok by reflexivity|].
    change (deregistered all (set_windowListeners _ _)) with (deregistered all st).
    unfold registrations. rewrite Hev. simpl.
    rewrite window_after_twice, released_twice.
    split; [done|]. split; [done|]. split; [done|]. split; [done|].
    split; [done|]. by intros ->.
  - rewrite (destroy_no_hub all st Hev) in Hfirst.
    destruct (deregistered all st) eqn:Hnone; [|done].
    injection Hfirst as <-.
    eexists. split.
    { rewrite destroy_no_hub by exact Hev.
      change (deregistered all (set_windowListeners _ _)) with (deregistered all st).
      by rewrite Hnone. }
    change (deregistered all (set_windowListeners _ _)) with (deregistered all st).
    unfold registrations. simpl. rewrite Hev, window_after_twice, released_twice.
    by repeat split.
Qed.

(** C5, amended: when the first destroy(all) returned, the second one
    returns as well and hands the same recorded listeners to [events.off]
    again: every pair of event name and callback loses as many registrations
    on the hub as the instance recorded for it, as far as there are any
    left, and the window and the rendered nodes are as the first call left
    them. So the second call changes nothing, provided the hub held every
    pair that destroy deregisters at most as often as the instance recorded
    it; and a pair the hub held more often loses a further registration on
    the second call. *)
Theorem second_destroy_is_idle (all : bool) (st st1 : Instance) :
  destroy all st = Ok tt st1 →
  ∃ st2,
    destroy all st1 = Ok tt st2
    ∧ deregistered all st1 = deregistered all st
    ∧ windowListeners st2 = windowListeners st1
    ∧ same_nodes st1 st2
    ∧ (∀ p, occurrences p (registrations st2)
            = occurrences p (registrations st1)
              - occurrences p (deregistered all st))
    ∧ ((∀ p, p ∈ deregistered all st →
          occurrences p (registrations st) ≤ occurrences p (deregistered all st)) →
       st2 = st1 ∧ second_destroy_deregisters_nothing all st)
    ∧ (∀ p, p ∈ deregistered all st →
         occurrences p (deregistered all st) < occurrences p (registrations st) →
         occurrences p (registrations st2) < occurrences p (registrations st1)).
Proof.
  intros Hfirst.
  destruct (destroy_again all st st1 Hfirst)
    as (st2 & Hsecond & Hsame & Hreg1 & Hreg2 & Hwin & Hnodes & Heq).
  exists st2. split; [exact Hsecond|]. split; [exact Hsame|].
  split; [exact Hwin|]. split; [exact Hnodes|]. split; [|split].
  - intros p. by rewrite Hreg2, occurrences_off_all.
  - intros Hcount.
    assert (st2 = st1) as ->.
    { apply Heq. rewrite Hreg2. apply off_all_absent.
      intros p Hp. apply occurrences_zero. rewrite Hreg1, occurrences_off_all.
      specialize (Hcount p Hp). lia. }
    split; [done|]. exists st1, st1. by repeat split.
  - intros p Hp Hmore.
    assert (0 < occurrences p (deregistered all st)) as Hpos.
    { destruct (occurrences p (deregistered all st)) eqn:Hz; [|lia].
      by apply occurrences_zero in Hz. }
    rewrite Hreg2, Hreg1, !occurrences_off_all. lia.
Qed.

Lemma second_destroy_is_idle_witness :
  (∃ st1, destroy false sole_listener = Ok tt st1
          ∧ registrations sole_listener = [("formio.change", HostFunction 7)]
          ∧ registrations st1 = []
          ∧ destroy false st1 = Ok tt st1)
  ∧ (∃ st1 st2, destroy false shared_listener = Ok tt st1
                ∧ destroy false st1 = Ok tt st2
                ∧ occurrences ("formio.change", HostFunction 7) (registrations st2)
                  < occurrences ("formio.change", HostFunction 7)
                      (registrations st1)).
Proof.
  split.
  - destruct (second_destroy_is_idle false sole_listener
                (state_of (destroy false sole_listener)))
      as (st2 & Hsecond & _ & _ & _ & _ & Hidle & _); [vm_compute; reflexivity|].
    destruct Hidle as [-> _].
    { intros p Hp.
      assert (deregistered false sole_listener = [("formio.change", HostFunction 7)])
        as Hd by (vm_compute; reflexivity).
      rewrite Hd in Hp. apply list_elem_of_singleton in Hp as ->.
      vm_compute. lia. }
    exists (state_of (destroy false sole_listener)).
    split; [vm_compute; reflexivity|]. split; [vm_compute; reflexivity|].
    split; [vm_compute; reflexivity|]. exact Hsecond.
  - destruct (second_destroy_is_idle false shared_listener
                (state_of (destroy false shared_listener)))
      as (st2 & Hsecond & _ & _ & _ & _ & _ & Hmore); [vm_compute; reflexivity|].
    exists (state_of (destroy false shared_listener)), st2.
    split; [vm_compute; reflexivity|]. split; [exact Hsecond|].
    apply Hmore; [vm_compute; left|vm_compute; lia].
Defined.

(** ** Debounced change notification *)


Lemma getValue_rows_caches (rows : list nat) (values : nat) (st st' : Instance)
    (v : JsValue) :
  getValue_rows rows values st = Ok (Some v) st' → value st' = v.
Proof.
  revert st. induction rows as [|i rows IH]; intros st; simpl; [done|].
  unfold bind at 1. unfold gets at 1.
  destruct (Descriptor.multiple (component st)); simpl.
  - unfold bind at 1. destruct (getValueAt i st) as [x st0|e st0]; [|done].
    unfold bind at 1. unfold modify at 1. apply IH.
  - unfold bind at 1. destruct (getValueAt i st) as [x st0|e st0]; [|done].
    unfold bind, modify, ret. by intros [= <- <-].
Qed.

(** On an input-bound component, getValue() caches what it returns. *)
Lemma getValue_caches (st st' : Instance) (v : JsValue) :
  Descriptor.input (component st) = true →
  getValue st = Ok v st' → value st' = v.
Proof.
  intros Hin. unfold getValue. unfold bind at 1. unfold gets at 1.
  rewrite Hin. simpl.
  unfold bind at 1. unfold new_array at 1.
  unfold bind at 1. unfold gets at 1. unfold bind at 1.
  destruct (getValue_rows _ _ _) as [[x|] st0|e st0] eqn:Hrows; [| |done].
  - unfold ret. intros [= <- <-]. by apply getValue_rows_caches in Hrows.
  - unfold bind, modify, ret. by intros [= <- <-].
Qed.

Lemma type_into_rows (es : list (nat * JsValue)) (st : Instance) :
  ∃ ins, foldl (λ st e, type_into e st) st es = set_inputs ins st.
Proof.
  revert st. induction es as [|e es IH]; intros st; simpl.
  - exists (inputs st). by destruct st.
  - destruct (IH (type_into e st)) as [ins ->]. exists ins.
    unfold type_into. by destruct (inputs st !! e.1).
Qed.

Lemma elapse_idle (st : Instance) (dt : nat) :
  pending st = None → elapse dt st = Ok tt st.
Proof. intros H. unfold elapse, bind, gets. by rewrite H. Qed.

Lemma elapse_waiting (st : Instance) (dt : nat) (p : Pending) :
  pending st = Some p → dt < remaining p →
  elapse dt st
  = Ok tt (set_pending (Some {| remaining := remaining p - dt;
                                lastArgs := lastArgs p |}) st).
Proof.
  intros H Hlt. unfold elapse, bind, gets. rewrite H.
  destruct (remaining p <=? dt) eqn:Hle; [|done].
  apply Nat.leb_le in Hle. lia.
Qed.

(** The quiet period is over: onChange runs once, with the arguments of the
    last call, and publishes the cached value. *)
Lemma elapse_fires (st : Instance) (dt : nat) (p : Pending) (h : Hub) :
  pending st = Some p → remaining p ≤ dt → events st = Some h →
  ∃ st',
    elapse dt st = Ok tt st'
    ∧ events st'
      = Some (hub_emit "formio.componentChange"
                {| ev_value := value st; ev_validate := negb (lastArgs p) |} h)
    ∧ pending st' = None
    ∧ pristine st' = (if lastArgs p then pristine st else false).
Proof.
  intros H Hle Hev. unfold elapse. unfold bind at 1. unfold gets at 1. rewrite H.
  apply Nat.leb_le in Hle. rewrite Hle.
  unfold bind at 1. unfold modify at 1. unfold onChange.
  destruct (lastArgs p); simpl.
  - unfold bind at 1. unfold ret at 1.
    unfold bind at 1. unfold gets at 1. simpl. rewrite Hev.
    unfold bind at 1. unfold gets at 1.
    unfold emit, bind, gets, modify. simpl. rewrite Hev.
    eexists. split; [reflexivity|]. by split_and!.
  - unfold bind at 1. unfold modify at 1.
    unfold bind at 1. unfold gets at 1. simpl. rewrite Hev.
    unfold bind at 1. unfold gets at 1.
    unfold emit, bind, gets, modify. simpl. rewrite Hev.
    eexists. split; [reflexivity|]. by split_and!.
Qed.

(** A call of a burst that notifies: it returns with the notification
    scheduled anew and nothing published. *)
Lemma call_notifying (c : Call) (st : Instance) :
  (pending st = None ∨ ∃ nv, pending st = scheduled nv) →
  gap c < debounce_wait →
  notifying (state_of (before_call c st)) = true →
  call c st
  = Ok tt (state_of (updateValue (noValidate c) (state_of (before_call c st))))
  ∧ events (state_of (updateValue (noValidate c) (state_of (before_call c st))))
    = events st
  ∧ component (state_of (updateValue (noValidate c) (state_of (before_call c st))))
    = component st
  ∧ pending (state_of (updateValue (noValidate c) (state_of (before_call c st))))
    = scheduled (noValidate c)
  ∧ (Descriptor.input (component st) = true →
     value (state_of (updateValue (noValidate c) (state_of (before_call c st))))
     = entry (state_of (updateValue (noValidate c) (state_of (before_call c st))))).
Proof.
  intros Hpending Hgap.
  assert (∃ st0 ins, elapse (gap c) st = Ok tt st0
                     ∧ events st0 = events st ∧ component st0 = component st
                     ∧ before_call c st = Ok tt (set_inputs ins st0))
    as (st0 & ins & Hel & Hev0 & Hc0 & Hbefore).
  { destruct Hpending as [Hnone | [nv Hsome]].
    - destruct (type_into_rows (edits c) st) as [ins Hins].
      exists st, ins. split; [by apply elapse_idle|]. split; [done|]. split; [done|].
      unfold before_call. rewrite (bind_Ok _ _ _ _ _ (elapse_idle st _ Hnone)).
      unfold modify. by rewrite Hins.
    - pose proof (elapse_waiting st (gap c) _ Hsome Hgap) as Hel.
      match type of Hel with
      | _ = Ok tt ?s => destruct (type_into_rows (edits c) s) as [ins Hins]
      end.
      eexists _, ins. split; [exact Hel|]. split; [done|]. split; [done|].
      unfold before_call. rewrite (bind_Ok _ _ _ _ _ Hel).
      unfold modify. by rewrite Hins. }
  rewrite Hbefore. simpl. set (st1 := set_inputs ins st0).
  unfold notifying.
  destruct (getValue_total st1) as (v & h & x & Hget). rewrite Hget.
  intros Hnotify. unfold call. rewrite (bind_Ok _ _ _ _ _ Hbefore).
  fold st1. rewrite (updateValue_Ok _ _ _ _ Hget). rewrite Hnotify. simpl.
  split; [done|]. split; [done|]. split; [done|]. split; [done|].
  intros Hin. rewrite <- Hc0 in Hin.
  apply (getValue_caches st1 _ v) in Hget; [|done]. simpl in Hget. subst x.
  unfold entry. simpl. by rewrite lookup_insert_eq.
Qed.

Lemma burst_notifying (cs : list Call) (st : Instance) :
  (pending st = None ∨ ∃ nv, pending st = scheduled nv) →
  Forall (λ c, gap c < debounce_wait) cs →
  all_notifying cs st →
  ∃ st1,
    burst cs st = Ok tt st1
    ∧ events st1 = events st
    ∧ component st1 = component st
    ∧ ∀ c, last cs = Some c →
        pending st1 = scheduled (noValidate c)
        ∧ (Descriptor.input (component st) = true → value st1 = entry st1).
Proof.
  revert st. induction cs as [|c rest IH]; intros st Hpending Hgaps Hall.
  - exists st. by split_and!.
  - apply Forall_cons in Hgaps as [Hgap Hgaps]. destruct Hall as [Hnotify Hall].
    destruct (call_notifying c st Hpending Hgap Hnotify)
      as (Hcall & Hev & Hc & Hp & Hval).
    set (st' := state_of (updateValue _ _)) in *.
    destruct (IH st') as (st1 & Hrest & Hev1 & Hc1 & Hlast);
      [by right; eexists | done | done |].
    exists st1. split.
    { unfold burst. simpl. by rewrite (bind_Ok _ _ _ _ _ Hcall). }
    split; [congruence|]. split; [congruence|].
    intros c' Hc'. destruct rest as [|c2 rest].
    + simpl in Hc'. injection Hc' as <-.
      unfold burst in Hrest. simpl in Hrest. injection Hrest as <-. by split.
    + destruct (Hlast c' Hc') as [Hp1 Hv1]. split; [done|].
      intros Hin. apply Hv1. by rewrite Hc.
Qed.



(** ** The external-library registry *)

Lemma inject_state (lib : Library) (w : World) :
  state_of (inject lib w)
  = match injectable lib with
    | Some r => set_head (head w ++ [r]) w
    | None => w
    end
  ∧ returned (inject lib w) = bool_decide (is_Some (injectable lib)).
Proof.
  unfold inject, injectable, bind, ret, throw, modify.
  destruct lib as [s|type s|]; simpl; [done| |done].
  destruct (String.eqb type "script"); [done|].
  by destruct (String.eqb type "styles").
Qed.

(** The injection loop appends, in order and once each, the elements of the
    libraries up to the first one it cannot create; it touches nothing but
    the document head. *)
Lemma inject_loop (libs : list Library) (w : World) :
  ∃ injected,
    state_of (for_each libs inject w) = set_head (head w ++ injected) w
    ∧ injected `prefix_of` omap injectable libs
    ∧ (returned (for_each libs inject w) = true →
       injected = omap injectable libs)
    ∧ (Forall (λ lib, is_Some (injectable lib)) libs →
       returned (for_each libs inject w) = true).
Proof.
  revert w. induction libs as [|lib libs IH]; intros w; simpl.
  - exists []. split; [|split; [done|split; done]].
    unfold ret. simpl. rewrite app_nil_r. by destruct w.
  - destruct (inject_state lib w) as [Hst Hret]. unfold bind.
    destruct (inject lib w) as [[] w'|e w']; simpl in *.
    + symmetry in Hret. apply bool_decide_eq_true in Hret as [r Hr].
      rewrite Hr in Hst |- *. subst w'.
      destruct (IH (set_head (head w ++ [r]) w))
        as (injected & Hst' & Hpre & Hall & Hwf).
      exists (r :: injected). split.
      { rewrite Hst'. simpl. by rewrite <- app_assoc. }
      split; [by apply prefix_cons|]. split.
      * intros H. by rewrite (Hall H).
      * intros H. apply Forall_cons in H as [_ H]. by apply Hwf.
    + symmetry in Hret. apply bool_decide_eq_false in Hret.
      destruct (injectable lib) as [r|] eqn:Hr; [by destruct Hret|].
      subst w'. exists []. split; [|split; [apply prefix_nil|split; [done|]]].
      * rewrite app_nil_r. by destruct w.
      * intros H. apply Forall_cons in H as [[? H] _]. congruence.
Qed.

(** A later call for a registered name: it returns the entry's promise and
    leaves the world as it is. *)
Lemma requireLibrary_known (name property : string) (src : Src) (polling : bool)
    (w : World) (e : Entry) :
  externalLibraries w !! name = Some e →
  requireLibrary name property src polling w = Ok (ready e) w.
Proof.
  intros He. unfold requireLibrary.
  unfold bind at 1. unfold gets at 1.
  rewrite bool_decide_eq_true_2 by (by rewrite He). simpl.
  unfold bind, ret, gets. by rewrite He.
Qed.

(** The first call for a name. *)
Lemma requireLibrary_first (name property : string) (src : Src) (polling : bool)
    (w : World) :
  externalLibraries w !! name = None →
  let p := length (promises w) in
  let w1 := state_of (requireLibrary name property src polling w) in
  externalLibraries w1 = <[name := {| ready := p |}]> (externalLibraries w)
  ∧ (∃ s, promises w1 = promises w ++ [s])
  ∧ (∃ injected,
       head w1 = head w ++ injected
       ∧ injected `prefix_of` omap injectable (libraries src)
       ∧ (present (window w1 !! property) = true → injected = [])
       ∧ (present (window w1 !! property) = false →
          returned (requireLibrary name property src polling w) = true →
          injected = omap injectable (libraries src)))
  ∧ (∀ r w', requireLibrary name property src polling w = Ok r w' → r = p)
  ∧ (Forall (λ lib, is_Some (injectable lib)) (libraries src) →
     returned (requireLibrary name property src polling w) = true).
Proof.
  intros Hnew. cbv zeta.
  remember (requireLibrary name property src polling w) as o eqn:Ho.
  revert Ho. unfold requireLibrary.
  unfold bind at 1. unfold gets at 1.
  rewrite bool_decide_eq_false_2 by (rewrite Hnew; by intros [? ?]). simpl.
  unfold bind at 1. unfold bind at 1. unfold gets at 1.
  unfold bind at 1. unfold modify at 1.
  unfold bind at 1. unfold modify at 1.
  unfold bind at 1. unfold gets at 1.
  set (w0 := set_externalLibraries _ _).
  set (cond := negb polling && negb _).
  set (wa := if cond
             then set_window (<[name +:+ "Callback" := Resolver name]> (window w0)) w0
             else w0).
  assert (externalLibraries wa
          = <[name := {| ready := length (promises w) |}]> (externalLibraries w)
          ∧ promises wa = promises w ++ [Unsettled]
          ∧ head wa = head w) as (Hreg & Hprom & Hhead).
  { unfold wa. by destruct cond. }
  fold (libraries src).
  replace (bind (if cond then _ else ret tt) _ w0)
    with ((if present (window wa !! property)
           then resolve (length (promises w)) (window wa !! property)
           else bind (for_each (libraries src) inject)
                     (λ _, if polling
                           then modify (λ w0, set_timeouts
                                                (timeouts w0 ++ [(name, property)]) w0)
                           else ret tt)) wa)
    by (unfold wa; destruct cond; reflexivity).
  clearbody wa. clear w0 cond.
  destruct (present (window wa !! property)) eqn:Hplugin.
  - (* the plugin is there: resolved at once, nothing injected *)
    unfold resolve, modify. cbn beta. rewrite Hprom, lookup_snoc_last.
    unfold bind, gets, ret. simpl. rewrite Hreg, lookup_insert_eq. simpl.
    intros ->. simpl. split; [exact Hreg|]. split.
    { eexists. rewrite insert_app_r_alt by lia. by rewrite Nat.sub_diag. }
    split; [|split; [by intros ? ? [= <- _] | done]].
    exists []. rewrite app_nil_r. split; [exact Hhead|].
    split; [apply prefix_nil|]. split; [done|]. by rewrite Hplugin.
  - (* the libraries are injected *)
    destruct (inject_loop (libraries src) wa)
      as (injected & Hst & Hpre & Hall & Hwf).
    unfold bind at 1. unfold bind at 1.
    destruct (for_each (libraries src) inject wa) as [[] wb|e wb];
      simpl in Hst, Hall, Hwf; subst wb.
    + destruct polling; unfold modify, ret, gets; simpl;
        rewrite Hreg, lookup_insert_eq; intros ->; simpl.
      * split; [exact Hreg|]. split; [by eexists|].
        split; [|split; [by intros ? ? [= <- _] | done]].
        exists injected. rewrite Hhead. split; [done|]. split; [done|].
        split; [by rewrite Hplugin | intros _ _; by apply Hall].
      * split; [exact Hreg|]. split; [by eexists|].
        split; [|split; [by intros ? ? [= <- _] | done]].
        exists injected. rewrite Hhead. split; [done|]. split; [done|].
        split; [by rewrite Hplugin | intros _ _; by apply Hall].
    + intros ->. simpl. split; [exact Hreg|]. split; [by eexists|].
      split; [|split; [done | exact Hwf]].
      exists injected. rewrite Hhead. split; [done|]. split; [done|].
      split; [by rewrite Hplugin | done].
Qed.

Lemma resolve_registry (p : nat) (plugin : option WindowValue) (w : World) :
  externalLibraries (state_of (resolve p plugin w)) = externalLibraries w.
Proof.
  unfold resolve, modify. simpl.
  by destruct (promises w !! p) as [[|?]|].
Qed.

Lemma checkLibrary_registry (name property : string) (w : World) :
  externalLibraries (state_of (checkLibrary name property w)) = externalLibraries w.
Proof.
  unfold checkLibrary. unfold bind at 1. unfold gets at 1.
  destruct (present _); [|reflexivity].
  unfold bind at 1. unfold gets at 1.
  destruct (externalLibraries w !! name); [apply resolve_registry | reflexivity].
Qed.

Lemma run_callback_registry (name : string) (w : World) :
  externalLibraries (state_of (run_callback name w)) = externalLibraries w.
Proof.
  unfold run_callback. unfold bind at 1. unfold gets at 1.
  destruct (window w !! _) as [[v|lib]|]; try reflexivity.
  unfold bind at 1. unfold gets at 1.
  destruct (externalLibraries w !! lib); [apply resolve_registry | reflexivity].
Qed.

(** Nothing replaces or removes a registry entry. *)
Lemma entry_persists (ev : Event) (w : World) (name : string) (e : Entry) :
  externalLibraries w !! name = Some e →
  externalLibraries (happen ev w) !! name = Some e.
Proof.
  intros He. destruct ev as [n property src polling| |n]; simpl.
  - destruct (externalLibraries w !! n) as [e'|] eqn:Hn.
    + by rewrite (requireLibrary_known n property src polling w e' Hn).
    + destruct (requireLibrary_first n property src polling w Hn) as [-> _].
      rewrite lookup_insert_ne; [done|]. intros ->. congruence.
  - unfold fire_timeout. unfold bind at 1. unfold gets at 1.
    destruct (timeouts w) as [|[n property] rest]; [done|].
    unfold bind at 1. unfold modify at 1.
    by rewrite checkLibrary_registry.
  - by rewrite run_callback_registry.
Qed.

Lemma entry_persists_after (evs : list Event) (w : World) (name : string) (e : Entry) :
  externalLibraries w !! name = Some e →
  externalLibraries (after evs w) !! name = Some e.
Proof.
  revert w. induction evs as [|ev evs IH]; intros w He; simpl; [done|].
  apply IH. by apply entry_persists.
Qed.

(** * Further properties *)

(** ** What getValue and updateValue do to the data object *)

Lemma set_heap_id (st : Instance) : set_heap (heap st) st = st.
Proof. by destruct st. Qed.

Lemma displayed_by_index (ins : list Node) :
  map (λ i, default JUndefined (node_value <$> ins !! i)) (seq 0 (length ins))
  = map node_value ins.
Proof.
  apply list_eq. intros i. rewrite !list_lookup_fmap.
  destruct (decide (i < length ins)) as [Hi|Hi].
  - rewrite lookup_seq_lt by done. simpl.
    destruct (lookup_lt_is_Some_2 ins i Hi) as [n Hn]. by rewrite Hn.
  - rewrite lookup_seq_ge by lia. by rewrite lookup_ge_None_2 by lia.
Qed.

(** The loop of getValue on a multiple-value component appends what each
    row displays to [values]. *)
Lemma getValue_rows_multiple (rows : list nat) (values : nat) (st : Instance) :
  Descriptor.multiple (component st) = true →
  (∀ i, i ∈ rows → i < length (inputs st)) →
  getValue_rows rows values st
  = Ok None
       (set_heap
          (alter (λ l, l ++ map (λ i, default JUndefined
                                        (node_value <$> inputs st !! i)) rows)
                 values (heap st)) st).
Proof.
  intros Hmul. revert st Hmul. induction rows as [|i rows IH]; intros st Hmul Hrows.
  - simpl. unfold ret. f_equal.
    rewrite list_alter_id by (intros; apply app_nil_r). by rewrite set_heap_id.
  - assert (is_Some (inputs st !! i)) as [n Hn].
    { apply lookup_lt_is_Some, Hrows. left. }
    simpl. unfold bind at 1. unfold gets at 1. rewrite Hmul. simpl.
    rewrite (bind_Ok _ _ _ _ _ (getValueAt_Ok st i n Hn)).
    unfold bind at 1. unfold modify at 1.
    rewrite IH; [|done|intros j Hj; apply Hrows; by right].
    simpl. rewrite Hn. simpl. f_equal.
    change (set_heap ?x (set_heap ?y st)) with (set_heap x st). f_equal.
    rewrite list_alter_alter_eq. apply list_alter_ext; [|done].
    intros l _. simpl. by rewrite <- app_assoc.
Qed.

(** getValue() on a multiple-value component: a new array holding what the
    rows display, cached. *)
Lemma getValue_multiple (st : Instance) :
  Descriptor.input (component st) = true →
  Descriptor.multiple (component st) = true →
  getValue st
  = Ok (JArr (length (heap st)))
       (set_value (JArr (length (heap st)))
          (set_heap (heap st ++ [displayed st]) st)).
Proof.
  intros Hin Hmul. unfold getValue.
  unfold bind at 1. unfold gets at 1. rewrite Hin. simpl.
  unfold bind at 1. unfold new_array at 1.
  unfold bind at 1. unfold gets at 1.
  assert (∀ i, i ∈ seq 0 (length (inputs (set_heap (heap st ++ [[]]) st))) →
               i < length (inputs (set_heap (heap st ++ [[]]) st))) as Hrows.
  { intros i Hi. apply elem_of_seq in Hi. lia. }
  rewrite (bind_Ok _ _ _ _ _
             (getValue_rows_multiple _ (length (heap st))
                (set_heap (heap st ++ [[]]) st) Hmul Hrows)).
  unfold bind, modify, ret. simpl. f_equal.
  change (set_heap ?x (set_heap ?y st)) with (set_heap x st).
  rewrite displayed_by_index. fold (displayed st).
  replace (alter (λ l, l ++ displayed st) (length (heap st)) (heap st ++ [[]]))
    with (heap st ++ [displayed st]); [done|].
  rewrite <- (Nat.add_0_r (length (heap st))).
  by rewrite alter_app_r.
Qed.

(** X1: updateValue() leaves the data object and the cache in step, for a
    component whose key is a name that [Object.prototype] does not define.
    On an input-bound component the entry at the component's key and the
    cached value are afterwards the same value, the one getValue() read, and
    the key is an own property of the data object. On a component that is
    not input-bound it writes undefined under the key (creating the
    property) and leaves the cached value alone. *)
Theorem updateValue_keeps_entry_and_cache_in_step (st : Instance) (noValidate : bool) :
  ordinary_key st →
  ∃ st',
    updateValue noValidate st = Ok tt st'
    ∧ inputs st' = inputs st
    ∧ (∃ v, PlainObject.set object_or_null (Descriptor.key (component st)) v
              (data st)
            = PlainObject.Stored (data st'))
    ∧ hasOwnEntry st' = true
    ∧ (Descriptor.input (component st) = true →
       entry st' = value st'
       ∧ ∃ st1, getValue st = Ok (value st') st1)
    ∧ (Descriptor.input (component st) = false →
       data st' = <[Descriptor.key (component st) := JUndefined]> (data st)
       ∧ value st' = value st).
Proof.
  intros Hkey.
  destruct (getValue_total st) as (v & h & x & Hget).
  eexists. split; [exact (updateValue_Ok noValidate st v _ Hget)|].
  simpl. split; [done|].
  split; [exists v; exact (write_entry_stored st v Hkey)|]. split.
  { unfold hasOwnEntry. simpl. apply bool_decide_eq_true.
    rewrite lookup_insert_eq. by eexists. }
  split.
  - intros Hin. pose proof (getValue_caches st _ v Hin Hget) as Hx.
    simpl in Hx. subst x. split.
    + unfold entry. simpl. by rewrite lookup_insert_eq.
    + by eexists.
  - intros Hin. revert Hget. unfold getValue, bind, gets, ret.
    rewrite Hin. simpl. intros [= <- Hst]. split; [done|].
    apply (f_equal value) in Hst. by simpl in Hst.
Qed.

Lemma updateValue_keeps_entry_and_cache_in_step_witness :
  let st := type_into (0, JStr "Ada")
              (state_of (build (create text_field false None ∅ []))) in
  ∃ st',
    updateValue false st = Ok tt st'
    ∧ hasOwnEntry st = false
    ∧ hasOwnEntry st' = true
    ∧ entry st' = JStr "Ada" ∧ value st' = JStr "Ada".
Proof.
  cbv zeta.
  destruct (updateValue_keeps_entry_and_cache_in_step
              (type_into (0, JStr "Ada")
                 (state_of (build (create text_field false None ∅ [])))) false)
    as (st' & Hrun & _ & _ & Hown & Hin & _); [vm_compute; reflexivity|].
  destruct Hin as [He (st1 & Hget)]; [vm_compute; reflexivity|].
  exists st'. split; [exact Hrun|]. split; [vm_compute; reflexivity|].
  split; [exact Hown|].
  assert (∃ s, getValue (type_into (0, JStr "Ada")
                           (state_of (build (create text_field false None ∅ []))))
               = Ok (JStr "Ada") s) as [s Hs]
    by (eexists; vm_compute; reflexivity).
  rewrite Hs in Hget. injection Hget as Hv _.
  split; congruence.
Defined.

(** X2: on a multiple-value, input-bound component, getValue() makes a new
    array of what the rows display, so updateValue() replaces the entry by a
    sequence that no previous value is identical to: it always schedules the
    change notification, also when no row changed. *)
Theorem updateValue_multiple_always_notifies (st : Instance) (noValidate : bool) :
  Descriptor.input (component st) = true →
  Descriptor.multiple (component st) = true →
  entry_allocated st →
  ∃ st',
    updateValue noValidate st = Ok tt st'
    ∧ entry st' = JArr (length (heap st))
    ∧ elements (entry st') st' = displayed st
    ∧ strict_eq (entry st) (entry st') = false
    ∧ pending st' = scheduled noValidate
    ∧ (∀ a l, heap st !! a = Some l → heap st' !! a = Some l).
Proof.
  intros Hin Hmul Halloc.
  pose proof (getValue_multiple st Hin Hmul) as Hget.
  assert (strict_eq (entry st) (JArr (length (heap st))) = false) as Hne.
  { destruct (entry st) as [| | | | | |a] eqn:He; try done. simpl.
    apply Nat.eqb_neq. specialize (Halloc a He). lia. }
  assert (entry (set_data
            (<[Descriptor.key (component st) := JArr (length (heap st))]> (data st))
            (set_value (JArr (length (heap st)))
               (set_heap (heap st ++ [displayed st]) st)))
          = JArr (length (heap st))) as He'.
  { unfold entry. simpl. by rewrite lookup_insert_eq. }
  eexists. split; [exact (updateValue_Ok noValidate st _ _ Hget)|].
  unfold notifies. rewrite Hne. simpl.
  replace (truthy (entry st) || nullish (entry st) || true) with true
    by (by destruct (truthy _), (nullish _)).
  split; [exact He'|]. split.
  { unfold entry. simpl. rewrite lookup_insert_eq. simpl.
    by rewrite lookup_snoc_last. }
  split; [unfold entry; simpl; by rewrite lookup_insert_eq|].
  split; [done|].
  intros a l Hl. simpl. rewrite lookup_app_l; [done|]. by apply lookup_lt_Some in Hl.
Qed.

Lemma updateValue_multiple_always_notifies_witness :
  ∃ st',
    updateValue false (two_tags []) = Ok tt st'
    ∧ displayed (two_tags []) = [JStr "a"; JStr "b"]
    ∧ elements (entry (two_tags [])) (two_tags []) = [JStr "a"; JStr "b"]
    ∧ elements (entry st') st' = [JStr "a"; JStr "b"]
    ∧ pending st' = scheduled false.
Proof.
  destruct (updateValue_multiple_always_notifies (two_tags []) false)
    as (st' & Hup & _ & Hel & _ & Hp & _).
  - vm_compute. reflexivity.
  - vm_compute. reflexivity.
  - intros a Ha. vm_compute in Ha. injection Ha as <-. vm_compute. lia.
  - exists st'. split; [exact Hup|]. split; [vm_compute; reflexivity|].
    split; [vm_compute; reflexivity|]. split; [|exact Hp].
    rewrite Hel. vm_compute. reflexivity.
Defined.

(** ** What removeValue touches *)


(** ** destroy and the pending notification *)

(** X4: destroy(all) does not cancel a pending debounced notification: on an
    instance with an event hub, a notification that was pending before
    destroy is published after it, once its quiet period is over, with the
    cached value. *)
Theorem destroy_does_not_cancel_notification
    (st : Instance) (h : Hub) (p : Pending) (all : bool) (dt : nat) :
  events st = Some h →
  pending st = Some p →
  remaining p ≤ dt →
  ∃ st1 st2,
    destroy all st = Ok tt st1
    ∧ pending st1 = Some p
    ∧ elapse dt st1 = Ok tt st2
    ∧ emitted_of st2
      = emitted h ++ [("formio.componentChange",
                       {| ev_value := value st;
                          ev_validate := negb (lastArgs p) |})].
Proof.
  intros Hev Hp Hdt.
  eexists. destruct (elapse_fires
    (set_windowListeners
       (window_after (eventHandlers st) (windowListeners st))
       (set_events
          (Some {| registered := off_all (deregistered all st) (registered h);
                   emitted := emitted h |})
          (set_inputMask (released (inputMask st)) st)))
    dt p _ Hp Hdt eq_refl) as (st2 & Hel & Hev2 & _).
  exists st2. split; [exact (destroy_Ok all st h Hev)|].
  split; [exact Hp|]. split; [exact Hel|].
  unfold emitted_of. by rewrite Hev2.
Qed.

Lemma destroy_does_not_cancel_notification_witness :
  let st := state_of (setValue (JStr "Ada") false false text_field_on_hub) in
  ∃ st1 st2,
    destroy true st = Ok tt st1
    ∧ elapse 200 st1 = Ok tt st2
    ∧ emitted_of st2
      = [("formio.componentChange",
          {| ev_value := JStr "Ada"; ev_validate := true |})].
Proof.
  cbv zeta.
  destruct (destroy_does_not_cancel_notification
              (state_of (setValue (JStr "Ada") false false text_field_on_hub))
              {| registered := []; emitted := [] |}
              {| remaining := 200; lastArgs := false |} true 200)
    as (st1 & st2 & Hd & _ & Hel & Hem);
    [vm_compute; reflexivity | vm_compute; reflexivity | vm_compute; lia |].
  exists st1, st2. split; [exact Hd|]. split; [exact Hel|].
  rewrite Hem. vm_compute. reflexivity.
Defined.

(** ** What no method undoes *)

Global Instance quiet_preorder : PreOrder quiet.
Proof.
  split.
  - intros st. by repeat split.
  - intros st1 st2 st3 (?&?&?&?&?&?) (?&?&?&?&?&?).
    repeat split; try congruence. by etransitivity.
Qed.

Global Instance same_handlers_preorder : PreOrder same_handlers.
Proof.
  split.
  - by intros st.
  - intros st1 st2 st3. unfold same_handlers. congruence.
Qed.

Global Instance hub_kept_preorder : PreOrder hub_kept.
Proof.
  split.
  - intros st. split; [done | by split].
  - intros st1 st2 st3 [H12 H12'] [H23 H23']. split.
    + intros H. by apply H23, H12.
    + intros H. destruct (H12' H) as [H2 Hl2]. destruct (H23' H2) as [H3 Hl3].
      split; [done | congruence].
Qed.

(** Splits a method into its steps; [tac] settles the field updates. *)
Ltac preserve_by tac :=
  repeat first
    [ solve [eauto with typeclass_instances preserves]
    | progress cbv zeta
    | apply preserves_ret; apply _
    | apply preserves_gets; apply _
    | apply preserves_throw; apply _
    | apply preserves_modify; intros ?; tac
    | apply preserves_bind; [apply _| |intros ?]
    | apply preserves_for_each; [apply _|intros ?]
    | match goal with
      | |- preserves _ (if ?b then _ else _) => destruct b
      | |- preserves _ (match ?x with _ => _ end) => destruct x
      end ].

Ltac quiet_step :=
  repeat split; try done; first [reflexivity | by apply prefix_app_r].

Lemma defaultValue_quiet : preserves quiet defaultValue.
Proof. unfold defaultValue. preserve_by quiet_step. Qed.
#[global] Hint Resolve defaultValue_quiet : preserves.

Lemma getValueAt_quiet i : preserves quiet (getValueAt i).
Proof. unfold getValueAt. preserve_by quiet_step. Qed.
#[global] Hint Resolve getValueAt_quiet : preserves.

Lemma push_quiet arr v : preserves quiet (push arr v).
Proof. unfold push. preserve_by quiet_step. Qed.
#[global] Hint Resolve push_quiet : preserves.

Lemma getValue_rows_quiet rows values : preserves quiet (getValue_rows rows values).
Proof. induction rows as [|i rows IH]; simpl; preserve_by quiet_step. Qed.
#[global] Hint Resolve getValue_rows_quiet : preserves.

Lemma getValue_quiet : preserves quiet getValue.
Proof. unfold getValue, new_array. preserve_by quiet_step. Qed.
#[global] Hint Resolve getValue_quiet : preserves.

Lemma updateValue_quiet nv : preserves quiet (updateValue nv).
Proof. unfold updateValue, write_entry, triggerChange. preserve_by quiet_step. Qed.
#[global] Hint Resolve updateValue_quiet : preserves.

Lemma setValueAt_quiet i x : preserves quiet (setValueAt i x).
Proof. unfold setValueAt. preserve_by quiet_step. Qed.
#[global] Hint Resolve setValueAt_quiet : preserves.

Lemma setValue_quiet v nu nv : preserves quiet (setValue v nu nv).
Proof. unfold setValue. preserve_by quiet_step. Qed.
#[global] Hint Resolve setValue_quiet : preserves.

Lemma addEventListener_quiet obj evt func :
  preserves quiet (addEventListener obj evt func).
Proof.
  unfold addEventListener. preserve_by quiet_step.
  apply preserves_modify. intros st. destruct obj; quiet_step.
Qed.
#[global] Hint Resolve addEventListener_quiet : preserves.

Lemma new_closure_quiet mk : preserves quiet (new_closure mk).
Proof. unfold new_closure. preserve_by quiet_step. Qed.
#[global] Hint Resolve new_closure_quiet : preserves.

Lemma addInput_quiet : preserves quiet addInput.
Proof. unfold addInput. preserve_by quiet_step. Qed.
#[global] Hint Resolve addInput_quiet : preserves.

Lemma createInput_quiet : preserves quiet createInput.
Proof. unfold createInput. preserve_by quiet_step. Qed.
#[global] Hint Resolve createInput_quiet : preserves.

Lemma buildRows_quiet : preserves quiet buildRows.
Proof.
  unfold buildRows, removeButton, addButton, set_disabled_all.
  preserve_by quiet_step.
Qed.
#[global] Hint Resolve buildRows_quiet : preserves.

Lemma addNewValue_quiet : preserves quiet addNewValue.
Proof. unfold addNewValue, new_array, write_entry. preserve_by quiet_step. Qed.
#[global] Hint Resolve addNewValue_quiet : preserves.

Lemma addValue_quiet : preserves quiet addValue.
Proof. unfold addValue. preserve_by quiet_step. Qed.

Lemma removeValue_quiet index : preserves quiet (removeValue index).
Proof. unfold removeValue, splice1. preserve_by quiet_step. Qed.

Lemma build_quiet : preserves quiet build.
Proof.
  unfold build, createWrapper, set_disabled_all. preserve_by quiet_step.
Qed.

Lemma emit_same_handlers event e : preserves same_handlers (emit event e).
Proof. unfold emit. preserve_by done. Qed.

Lemma on_same_handlers event cb internal :
  preserves same_handlers (on event cb internal).
Proof. unfold on. preserve_by done. Qed.

Lemma destroy_same_handlers all : preserves same_handlers (destroy all).
Proof.
  unfold destroy, events_off, window_removeEventListener. preserve_by done.
Qed.

Lemma elapse_same_handlers dt : preserves same_handlers (elapse dt).
Proof. unfold elapse, onChange, emit. preserve_by done. Qed.

(** X5: no method ever drops a handler record: whatever is called, in
    whatever order, and whether or not a call raises, the records that
    addEventListener made are all still in [eventHandlers], in order; destroy
    in particular leaves them, so they accumulate over every rebuild of the
    rows. *)
Theorem handler_records_are_never_dropped (ms : list Method) (st : Instance) :
  eventHandlers st `prefix_of` eventHandlers (history ms st)
  ∧ ∀ all, eventHandlers (state_of (destroy all (history ms st)))
           = eventHandlers (history ms st).
Proof.
  split; [|intros all; apply destroy_same_handlers].
  revert st. induction ms as [|m ms IH]; intros st; simpl; [done|].
  etransitivity; [|apply IH].
  destruct m as [|v nu nv|nv| |index|event cb internal|all|dt|row v]; simpl.
  - apply build_quiet.
  - apply setValue_quiet.
  - apply updateValue_quiet.
  - apply addValue_quiet.
  - apply removeValue_quiet.
  - by rewrite on_same_handlers.
  - by rewrite destroy_same_handlers.
  - by rewrite elapse_same_handlers.
  - unfold type_into. simpl. by destruct (inputs st !! row).
Qed.

(** ** destroy returns *)

Lemma quiet_hub_kept (st st' : Instance) : quiet st st' → hub_kept st st'.
Proof.
  intros (_ & _ & Hev & Hl & _). split; rewrite Hev; [done|]. by split.
Qed.

Lemma emit_hub_kept event e : preserves hub_kept (emit event e).
Proof.
  intros st. unfold emit, bind, gets, modify, throw.
  destruct (events st) as [h|] eqn:Hev; simpl.
  - split; simpl; [by eexists | by rewrite Hev].
  - split; [done|]. by split.
Qed.
#[global] Hint Resolve emit_hub_kept : preserves.

Lemma events_off_hub_kept type listener : preserves hub_kept (events_off type listener).
Proof.
  intros st. unfold events_off, bind, gets, modify, throw.
  destruct (events st) as [h|] eqn:Hev; simpl.
  - split; simpl; [by eexists | by rewrite Hev].
  - split; [done|]. by split.
Qed.
#[global] Hint Resolve events_off_hub_kept : preserves.

Ltac hub_step := split; [done | intros ?; by split].

Lemma destroy_hub_kept all : preserves hub_kept (destroy all).
Proof. unfold destroy, window_removeEventListener. preserve_by hub_step. Qed.

Lemma elapse_hub_kept dt : preserves hub_kept (elapse dt).
Proof. unfold elapse, onChange. preserve_by hub_step. Qed.

Lemma on_hub_kept event cb internal : preserves hub_kept (on event cb internal).
Proof.
  intros st. unfold on, bind, gets, modify, ret.
  destruct (events st) as [h|] eqn:Hev; simpl.
  - split; simpl; [by eexists | by rewrite Hev].
  - split; [done|]. by split.
Qed.

Lemma invoke_hub_kept (m : Method) : preserves hub_kept (invoke m).
Proof.
  destruct m as [|v nu nv|nv| |index|event cb internal|all|dt|row v]; simpl.
  - intros st. apply quiet_hub_kept, build_quiet.
  - intros st. apply quiet_hub_kept, setValue_quiet.
  - intros st. apply quiet_hub_kept, updateValue_quiet.
  - intros st. apply quiet_hub_kept, addValue_quiet.
  - intros st. apply quiet_hub_kept, removeValue_quiet.
  - apply on_hub_kept.
  - apply destroy_hub_kept.
  - apply elapse_hub_kept.
  - intros st. simpl. unfold type_into. destruct (inputs st !! _); hub_step.
Qed.

Lemma listeners_need_hub_kept (st st' : Instance) :
  hub_kept st st' → listeners_need_hub st → listeners_need_hub st'.
Proof.
  intros [Hsome Hnone] Hinv Hev'.
  destruct (events st) as [h|] eqn:Hev.
  - destruct Hsome as [h' Hh']; [by eexists|]. congruence.
  - destruct (Hnone eq_refl) as [_ ->]. by apply Hinv.
Qed.

Lemma destroy_returned (all : bool) (st : Instance) :
  listeners_need_hub st → returned (destroy all st) = true.
Proof.
  intros Hinv. destruct (events st) as [h|] eqn:Hev.
  - by rewrite (destroy_Ok all st h Hev).
  - rewrite (destroy_no_hub all st Hev). unfold deregistered.
    by rewrite (Hinv Hev).
Qed.

(** X6: destroy(all) returns on every instance that a history of calls
    leaves, from the constructor on, with or without an event hub: on()
    records a listener only when there is a hub, so destroy never asks a
    missing hub to deregister one. *)
Theorem destroy_returns_after_any_history
    (c : Descriptor.t) (opt_readOnly : bool) (opt_events : option Hub)
    (d : gmap string JsValue) (arrays : list (list JsValue))
    (ms : list Method) (all : bool) :
  returned (destroy all (history ms (create c opt_readOnly opt_events d arrays)))
  = true.
Proof.
  apply destroy_returned.
  assert (listeners_need_hub (create c opt_readOnly opt_events d arrays)) as Hinit
    by (by intros _).
  revert Hinit. generalize (create c opt_readOnly opt_events d arrays).
  induction ms as [|m ms IH]; intros st Hinv; simpl; [done|].
  apply IH. exact (listeners_need_hub_kept st _ (invoke_hub_kept m st) Hinv).
Qed.

(** ** The rows buildRows renders *)

Global Instance nodes_kept_preorder : PreOrder nodes_kept.
Proof.
  split.
  - intros st. by repeat split.
  - intros st1 st2 st3 (?&?&?&?&?&?&?) (?&?&?&?&?&?&?).
    repeat split; congruence.
Qed.

Lemma defaultValue_state (st : Instance) : state_of (defaultValue st) = st.
Proof.
  unfold defaultValue, bind, gets, ret, throw. simpl.
  destruct (truthy _); [done|].
  destruct (Descriptor.customDefaultValue _) as [|f|f]; [done| |];
    by destruct (f (data st)).
Qed.

Lemma setValueAt_nodes_kept i x : preserves nodes_kept (setValueAt i x).
Proof.
  intros st. unfold setValueAt. unfold bind at 1.
  assert (∀ y, nodes_kept st (state_of
            (bind (gets inputs) (λ ins,
               match ins !! i with
               | Some n =>
                   modify (λ st, set_inputs (<[i := assigned y n st]> ins) st)
               | None => throw TypeError
               end) st))) as Hwrite.
  { intros y. unfold bind, gets, modify, throw, assigned.
    destruct (inputs st !! i) as [n|] eqn:Hn; simpl; [|by repeat split].
    repeat split; simpl; try done.
    - rewrite list_fmap_insert. simpl. apply list_insert_id.
      by rewrite list_lookup_fmap, Hn.
    - rewrite list_fmap_insert. simpl. apply list_insert_id.
      by rewrite list_lookup_fmap, Hn. }
  destruct (nullish x).
  - pose proof (defaultValue_state st) as Hst.
    destruct (defaultValue st) as [dv st'|e st']; simpl in Hst; subst st';
      [apply Hwrite | by repeat split].
  - apply Hwrite.
Qed.
#[global] Hint Resolve setValueAt_nodes_kept : preserves.

Ltac nodes_step := by repeat split.

Lemma getValue_rows_nodes_kept rows values :
  preserves nodes_kept (getValue_rows rows values).
Proof.
  induction rows as [|i rows IH]; simpl;
    unfold getValueAt, push; preserve_by nodes_step.
Qed.
#[global] Hint Resolve getValue_rows_nodes_kept : preserves.

Lemma updateValue_nodes_kept nv : preserves nodes_kept (updateValue nv).
Proof.
  unfold updateValue, getValue, new_array, write_entry, triggerChange.
  preserve_by nodes_step.
Qed.
#[global] Hint Resolve updateValue_nodes_kept : preserves.

(** setValue changes what the rows display, and of the nodes nothing else. *)
Lemma setValue_nodes_kept v nu nv : preserves nodes_kept (setValue v nu nv).
Proof. unfold setValue. preserve_by nodes_step. Qed.

Lemma addEventListener_Ok (st : Instance) obj (n : Node) evt func :
  node_at obj st = Some n →
  addEventListener obj evt func st
  = Ok tt (put_node obj (attach evt func n)
             (set_eventHandlers
                (eventHandlers st ++ [{| h_type := evt; h_func := func |}]) st)).
Proof.
  intros Hn. unfold addEventListener, bind, modify, gets. simpl.
  replace (node_at obj (set_eventHandlers _ st)) with (Some n)
    by (by destruct obj).
  reflexivity.
Qed.

Lemma insert_snoc_last {A} (l : list A) (x y : A) :
  <[length l := y]> (l ++ [x]) = l ++ [y].
Proof. rewrite insert_app_r_alt by lia. by rewrite Nat.sub_diag. Qed.

(** addInput, up to the point where it resets the values. *)
Lemma addInput_eq (st : Instance) :
  addInput st
  = if hasOwnEntry st then setValue (entry st) true false (wired st)
    else Ok tt (wired st).
Proof.
  unfold addInput, new_closure, addEventListener, put_node, node_at.
  unfold bind, gets, modify, ret. simpl.
  rewrite lookup_snoc_last. simpl. rewrite insert_snoc_last.
  rewrite lookup_snoc_last. simpl. rewrite insert_snoc_last, <- app_assoc.
  unfold hasOwnEntry at 1. simpl.
  fold (hasOwnEntry st). by destruct (hasOwnEntry st).
Qed.

Lemma removeButton_eq (st : Instance) (index : nat) :
  removeButton index st
  = Ok tt (with_button (RemoveClick (closures st) index) (S (closures st)) st).
Proof.
  unfold removeButton, new_closure, addEventListener, put_node, node_at.
  unfold bind, gets, modify, ret. simpl.
  rewrite lookup_snoc_last. simpl. by rewrite insert_snoc_last.
Qed.

Lemma addButton_eq (st : Instance) :
  addButton st = Ok tt (with_button (AddClick (closures st)) (S (closures st)) st).
Proof.
  unfold addButton, new_closure, addEventListener, put_node, node_at.
  unfold bind, gets, modify, ret. simpl.
  rewrite lookup_snoc_last. simpl. by rewrite insert_snoc_last.
Qed.

Lemma createInput_eq (st : Instance) :
  createInput st
  = addInput (if Descriptor.inputMask (component st)
              then set_inputMask (Some true) st else st).
Proof.
  unfold createInput. unfold bind at 1. unfold gets at 1.
  destruct (Descriptor.inputMask (component st)); reflexivity.
Qed.

Lemma same_store_frame (st st' : Instance) (a : nat) (s : list JsValue) (dv : JsValue) :
  same_store st st' →
  entry_holds st a s → defaultValue st = Ok dv st →
  entry_holds st' a s ∧ defaultValue st' = Ok dv st'.
Proof.
  intros Hsame Hs Hdv. split; [by apply (entry_holds_same_store st)|].
  destruct Hsame as (Hc & Hd & _). by apply (defaultValue_frame st).
Qed.

(** A new row of a sequence: addInput shows, in every row there is, the
    element of the sequence at its index. *)
Lemma addInput_on_sequence (st : Instance) (a : nat) (s : list JsValue)
    (dv : JsValue) (k : nat) :
  Descriptor.input (component st) = true →
  entry_holds st a s → defaultValue st = Ok dv st →
  length (inputs st) = k → k < length s →
  Forall (λ n, node_disabled n = false) (inputs st) →
  ∃ st',
    addInput st = Ok tt st'
    ∧ same_store st st'
    ∧ controls st' = controls st
    ∧ length (eventHandlers st') = length (eventHandlers st) + 2
    ∧ displayed st' = rendered st dv (take (S k) s)
    ∧ Forall (λ n, node_disabled n = false) (inputs st')
    ∧ _disabled st' = _disabled st.
Proof.
  intros Hin Hs Hdv Hk Hlt Hen.
  destruct (entry_holds_entry st a s Hs) as [He Hown].
  rewrite addInput_eq, Hown, He.
  assert (same_store st (wired st)) as Hw by (by repeat split).
  destruct (same_store_frame st (wired st) a s dv Hw Hs Hdv) as [Hs' Hdv'].
  destruct (setValue_Ok (wired st) (JArr a) dv true false Hin
              (λ _ _, or_intror Hdv'))
    as (st' & Hrun & _ & Hlen & Hrows).
  pose proof (setValue_noUpdate_same_store (JArr a) false (wired st)) as Hsame.
  pose proof (setValue_nodes_kept (JArr a) true false (wired st))
    as (Hctl & Hh & _ & _ & Hoff & Hdis & _).
  rewrite Hrun in Hsame, Hctl, Hh, Hdis, Hoff.
  simpl in Hsame, Hctl, Hh, Hdis, Hoff.
  assert (length (inputs (wired st)) = S k) as Hwk.
  { simpl. rewrite length_app. simpl. lia. }
  exists st'. split; [done|]. split; [by etrans|]. split; [done|].
  split; [rewrite Hh, length_app; simpl; lia|].
  split; [|split; [|done]].
  - apply list_eq. intros i. unfold displayed, rendered.
    rewrite !list_lookup_fmap.
    destruct (decide (i < S k)) as [Hi|Hi].
    + rewrite Hrows by lia. rewrite lookup_take_lt by done.
      destruct (lookup_lt_is_Some_2 s i ltac:(lia)) as [x Hx].
      rewrite Hx. simpl. f_equal. unfold shown. simpl. do 3 f_equal.
      unfold row_value, element, elements. simpl.
      destruct Hs as [_ Hheap]. rewrite Hheap. simpl. by rewrite Hx.
    + rewrite (lookup_ge_None_2 (inputs st')) by lia.
      by rewrite lookup_take_ge by lia.
  - apply (Forall_map node_disabled (λ b, b = false)).
    rewrite Hdis, map_app. apply Forall_app. split.
    + by apply (Forall_map node_disabled (λ b, b = false)).
    + by repeat constructor.
Qed.

Lemma rendered_heap (st st' : Instance) (dv : JsValue) (s : list JsValue) :
  heap st' = heap st → rendered st' dv s = rendered st dv s.
Proof. intros Hh. unfold rendered, shown. by rewrite Hh. Qed.

Lemma shown_scalar (st st' : Instance) (x : JsValue) :
  isArray x = false → shown st' x = shown st x.
Proof. by destruct x. Qed.

Lemma rows_rendered_length (dv : JsValue) (s : list JsValue) (h k : nat)
    (st : Instance) :
  k ≤ length s → rows_rendered dv s h k st → length (inputs st) = k.
Proof.
  intros Hk (Hshown & _). apply (f_equal length) in Hshown.
  unfold displayed, rendered in Hshown.
  rewrite !length_map, length_take in Hshown. lia.
Qed.

Lemma buildRows_loop (a : nat) (s : list JsValue) (dv : JsValue) (h m : nat) :
  ∀ (k : nat) (st : Instance),
    Descriptor.input (component st) = true →
    entry_holds st a s → defaultValue st = Ok dv st →
    rows_rendered dv s h k st → k + m ≤ length s →
    ∃ st',
      for_each (seq k m)
        (λ index, bind createInput (λ _, removeButton index)) st = Ok tt st'
      ∧ same_store st st'
      ∧ rows_rendered dv s h (k + m) st'
      ∧ _disabled st' = _disabled st.
Proof.
  induction m as [|m IH]; intros k st Hin Hs Hdv Hrows Hle.
  { exists st. rewrite Nat.add_0_r. split; [done|]. split; [reflexivity|done]. }
  simpl.
  pose proof (rows_rendered_length dv s h k st ltac:(lia) Hrows) as Hk.
  destruct Hrows as (Hshown & Hctl & Hh & Hen).
  set (st0 := if Descriptor.inputMask (component st)
              then set_inputMask (Some true) st else st).
  assert (same_store st st0 ∧ inputs st0 = inputs st ∧ controls st0 = controls st
          ∧ eventHandlers st0 = eventHandlers st ∧ _disabled st0 = _disabled st)
    as (Hsame0 & Hi0 & Hc0 & Hh0 & Hd0).
  { unfold st0. by destruct (Descriptor.inputMask _). }
  destruct (same_store_frame st st0 a s dv Hsame0 Hs Hdv) as [Hs0 Hdv0].
  destruct (addInput_on_sequence st0 a s dv k) as
    (st1 & Hrun1 & Hsame1 & Hc1 & Hh1 & Hshown1 & Hen1 & Hd1);
    [by rewrite (proj1 Hsame0)|done|done|by rewrite Hi0|lia|by rewrite Hi0|].
  unfold bind at 1. unfold bind at 1.
  rewrite createInput_eq. fold st0. rewrite Hrun1, removeButton_eq.
  set (st2 := with_button _ _ st1).
  assert (same_store st st2) as Hsame2.
  { trans st0; [done|]. trans st1; [done|]. by repeat split. }
  destruct (same_store_frame st st2 a s dv Hsame2 Hs Hdv) as [Hs2 Hdv2].
  destruct (IH (S k) st2) as (st' & Hrun & Hsame & Hrows' & Hd');
    [by rewrite (proj1 Hsame2)|done|done| |lia|].
  { split; [|split; [|split; [|done]]]; simpl.
    - rewrite (rendered_heap st0 st2); [exact Hshown1|].
      destruct Hsame2 as (_ & _ & -> & _). by destruct Hsame0 as (_ & _ & -> & _).
    - rewrite length_app, Hc1, Hc0, Hctl. simpl. lia.
    - rewrite length_app, Hh1, Hh0, Hh. simpl. lia. }
  exists st'. split; [done|]. split; [by etrans|].
  split; [by replace (k + S m) with (S k + m) by lia|].
  rewrite Hd'. simpl. congruence.
Qed.

Global Instance unnotified_preorder : PreOrder unnotified.
Proof.
  split.
  - intros st. by repeat split.
  - intros st1 st2 st3 (?&?&?) (?&?&?). repeat split; congruence.
Qed.

Ltac unnotified_step := by repeat split.

Lemma defaultValue_unnotified : preserves unnotified defaultValue.
Proof. unfold defaultValue. preserve_by unnotified_step. Qed.
#[global] Hint Resolve defaultValue_unnotified : preserves.

Lemma setValueAt_unnotified i x : preserves unnotified (setValueAt i x).
Proof. unfold setValueAt. preserve_by unnotified_step. Qed.
#[global] Hint Resolve setValueAt_unnotified : preserves.

(** setValue with noUpdate set publishes nothing. *)
Lemma setValue_noUpdate_unnotified v nv : preserves unnotified (setValue v true nv).
Proof. unfold setValue. cbn [negb]. preserve_by unnotified_step. Qed.
#[global] Hint Resolve setValue_noUpdate_unnotified : preserves.

Lemma addEventListener_unnotified obj evt func :
  preserves unnotified (addEventListener obj evt func).
Proof.
  unfold addEventListener. preserve_by unnotified_step.
  apply preserves_modify. intros st. by destruct obj.
Qed.
#[global] Hint Resolve addEventListener_unnotified : preserves.

Lemma new_closure_unnotified mk : preserves unnotified (new_closure mk).
Proof. unfold new_closure. preserve_by unnotified_step. Qed.
#[global] Hint Resolve new_closure_unnotified : preserves.

Lemma addInput_unnotified : preserves unnotified addInput.
Proof. unfold addInput. preserve_by unnotified_step. Qed.
#[global] Hint Resolve addInput_unnotified : preserves.

Lemma createInput_unnotified : preserves unnotified createInput.
Proof. unfold createInput. preserve_by unnotified_step. Qed.
#[global] Hint Resolve createInput_unnotified : preserves.

Lemma buildRows_unnotified : preserves unnotified buildRows.
Proof.
  unfold buildRows, removeButton, addButton, set_disabled_all.
  preserve_by unnotified_step.
Qed.
#[global] Hint Resolve buildRows_unnotified : preserves.

Lemma addNewValue_unnotified : preserves unnotified addNewValue.
Proof.
  unfold addNewValue, new_array, write_entry, push. preserve_by unnotified_step.
  all: intros st; by repeat split.
Qed.
#[global] Hint Resolve addNewValue_unnotified : preserves.

Lemma addValue_unnotified : preserves unnotified addValue.
Proof. unfold addValue. preserve_by unnotified_step. Qed.

Lemma removeValue_unnotified index : preserves unnotified (removeValue index).
Proof. unfold removeValue, splice1. preserve_by unnotified_step. Qed.

(** buildRows on a sequence: one row per element, in order, each showing
    its element, a remove button per row and the add button. *)
Lemma buildRows_on_sequence (st : Instance) (a : nat) (s : list JsValue)
    (dv : JsValue) :
  tbody st = true → Descriptor.input (component st) = true →
  entry_holds st a s → defaultValue st = Ok dv st →
  ∃ st',
    buildRows st = Ok tt st'
    ∧ same_store st st'
    ∧ displayed st' = rendered st dv s
    ∧ length (controls st') = S (length s)
    ∧ length (eventHandlers st') = length (eventHandlers st) + 3 * length s + 1
    ∧ Forall (λ n, node_disabled n = off st) (inputs st')
    ∧ _disabled st' = (off st || _disabled st).
Proof.
  intros Htb Hin Hs Hdv.
  destruct (entry_holds_entry st a s Hs) as [He _].
  unfold buildRows.
  unfold bind at 1. unfold gets at 1. rewrite Htb. cbn [negb].
  unfold bind at 1. unfold modify at 1.
  unfold bind at 1. unfold modify at 1.
  unfold bind at 1. unfold gets at 1.
  set (st0 := set_controls [] (set_inputs [] st)).
  assert (same_store st st0) as Hsame0 by (by repeat split).
  destruct (same_store_frame st st0 a s dv Hsame0 Hs Hdv) as [Hs0 Hdv0].
  replace (each_count (entry st0) st0) with (length s).
  2:{ change (entry st0) with (entry st). rewrite He. simpl.
      destruct Hs as [_ Hheap]. by rewrite Hheap. }
  destruct (buildRows_loop a s dv (length (eventHandlers st)) (length s) 0 st0)
    as (st1 & Hrun1 & Hsame1 & (Hshown & Hctl & Hh & Hen) & Hd1);
    [done|done|done| |done|].
  { split; [done|]. split; [done|]. split; [simpl; lia|constructor]. }
  simpl in Hshown, Hctl, Hh. rewrite firstn_all in Hshown.
  rewrite (rendered_heap st st1) in Hshown
    by (destruct Hsame1 as (_ & _ & -> & _); by destruct Hsame0 as (_ & _ & -> & _)).
  unfold bind at 1. rewrite Hrun1.
  unfold bind at 1. rewrite addButton_eq.
  set (st2 := with_button _ _ st1).
  unfold bind at 1. unfold gets at 1.
  assert (same_store st st2) as Hsame2.
  { trans st0; [done|]. trans st1; [done|]. by repeat split. }
  replace (readOnly st2 || Descriptor.disabled (component st2)) with (off st).
  2:{ unfold off. destruct Hsame2 as (-> & _ & _ & _ & ->). done. }
  simpl in Hd1.
  destruct (off st) eqn:Hoff.
  - eexists. split; [reflexivity|]. split; [|split; [|split; [|split; [|split]]]];
      simpl.
    + etrans; [exact Hsame2|]. by repeat split.
    + unfold displayed in *. simpl. rewrite map_map. simpl. exact Hshown.
    + rewrite length_app, Hctl. simpl. lia.
    + rewrite length_app, Hh. simpl. lia.
    + apply Forall_map. simpl. by apply Forall_forall.
    + done.
  - exists st2. split; [reflexivity|]. split; [done|].
    split; [exact Hshown|]. simpl.
    split; [rewrite length_app, Hctl; simpl; lia|].
    split; [rewrite length_app, Hh; simpl; lia|]. by split.
Qed.

Lemma written_self (dv : JsValue) : written dv dv = dv.
Proof. unfold written. by destruct (nullish dv). Qed.



(** addValue() on a rendered sequence. *)
Lemma addValue_rows (st : Instance) (a : nat) (s : list JsValue)
    (dv : JsValue) :
  tbody st = true → Descriptor.input (component st) = true →
  entry_holds st a s → defaultValue st = Ok dv st →
  ∃ st',
    addValue st = Ok tt st'
    ∧ data st' = data st
    ∧ entry_holds st' a (s ++ [dv])
    ∧ displayed st' = rendered st' dv (s ++ [dv])
    ∧ length (controls st') = S (S (length s))
    ∧ unnotified st st'.
Proof.
  intros Htb Hin Hs Hdv.
  destruct (entry_holds_entry st a s Hs) as [He _].
  pose proof (addValue_unnotified st) as Hq.
  unfold addValue in *. unfold bind at 1. unfold bind at 1 in Hq.
  rewrite (addNewValue_sequence_eq st a He) in *.
  unfold bind at 1. unfold bind at 1 in Hq. rewrite Hdv in *.
  simpl push in *. unfold modify at 1. unfold modify at 1 in Hq.
  set (st1 := set_heap _ st) in *.
  assert (entry_holds st1 a (s ++ [dv])) as Hs1.
  { destruct Hs as [Hd Hheap]. split; [done|]. simpl.
    by rewrite list_lookup_alter_eq, Hheap. }
  assert (defaultValue st1 = Ok dv st1) as Hdv1
    by (by apply (defaultValue_frame st)).
  destruct (buildRows_on_sequence st1 a (s ++ [dv]) dv Htb Hin Hs1 Hdv1)
    as (st' & Hrun & Hsame & Hshown & Hctl & _).
  rewrite Hrun in *. exists st'. split; [done|].
  split; [by destruct Hsame as (_ & -> & _)|].
  split; [by apply (entry_holds_same_store st1)|].
  split; [rewrite Hshown; symmetry; apply rendered_heap;
          by destruct Hsame as (_ & _ & -> & _)|].
  split; [rewrite Hctl, length_app; simpl; lia|done].
Qed.



Lemma rendered_delete (st st' : Instance) (dv : JsValue) (s : list JsValue)
    (index : nat) :
  isArray dv = false → Forall (λ x, isArray x = false) s →
  rendered st' dv (delete index s) = delete index (rendered st dv s).
Proof.
  intros Hdv Hs. revert index.
  induction Hs as [|x s Hx Hs IH]; intros [|i]; simpl; try done.
  - clear IH. induction Hs as [|y s Hy Hs IH]; simpl; [done|].
    rewrite IH. f_equal. apply shown_scalar.
    unfold written. by destruct (nullish y).
  - rewrite IH. f_equal. apply shown_scalar.
    unfold written. by destruct (nullish x).
Qed.

(** removeValue(index) on a rendered sequence. *)
Lemma removeValue_rows (st : Instance) (a index : nat)
    (s : list JsValue) (dv : JsValue) :
  tbody st = true → Descriptor.input (component st) = true →
  entry_holds st a s → defaultValue st = Ok dv st →
  ∃ st',
    removeValue index st = Ok tt st'
    ∧ data st' = data st
    ∧ entry_holds st' a (delete index s)
    ∧ displayed st' = rendered st' dv (delete index s)
    ∧ (isArray dv = false → Forall (λ x, isArray x = false) s →
       displayed st = rendered st dv s →
       displayed st' = delete index (displayed st))
    ∧ (length s ≤ index →
       entry_holds st' a s ∧ displayed st' = rendered st' dv s)
    ∧ unnotified st st'.
Proof.
  intros Htb Hin Hs Hdv.
  destruct (entry_holds_entry st a s Hs) as [He Hown].
  pose proof (removeValue_unnotified index st) as Hq.
  rewrite (removeValue_sequence_eq st a index He Hown) in *.
  set (st1 := set_heap _ st) in *.
  assert (entry_holds st1 a (delete index s)) as Hs1.
  { destruct Hs as [Hd Hheap]. split; [done|]. simpl.
    by rewrite list_lookup_alter_eq, Hheap. }
  assert (defaultValue st1 = Ok dv st1) as Hdv1
    by (by apply (defaultValue_frame st)).
  destruct (buildRows_on_sequence st1 a (delete index s) dv Htb Hin Hs1 Hdv1)
    as (st' & Hrun & Hsame & Hshown & _).
  rewrite Hrun in *. exists st'. split; [done|].
  split; [by destruct Hsame as (_ & -> & _)|].
  assert (entry_holds st' a (delete index s)) as Hs'
    by (by apply (entry_holds_same_store st1)).
  split; [done|].
  assert (displayed st' = rendered st' dv (delete index s)) as Hshown'.
  { rewrite Hshown. symmetry. apply rendered_heap.
    by destruct Hsame as (_ & _ & -> & _). }
  split; [done|]. split; [|split; [|done]].
  - intros Hscalar Hall Hbefore.
    by rewrite Hshown', Hbefore, (rendered_delete st st').
  - intros Hout. rewrite (delete_beyond s index Hout) in Hs', Hshown'. done.
Qed.





(** ** What build() leaves *)

Lemma truthy_not_nullish (v : JsValue) : truthy v = true → nullish v = false.
Proof. by destruct v. Qed.

(** setValue(v) with a scalar on a single-value component with its one
    input: the input, the entry and the cache all hold the string of [v]. *)
Lemma setValue_single_scalar (st : Instance) (n : Node) (v : JsValue)
    (noValidate : bool) :
  Descriptor.input (component st) = true →
  Descriptor.multiple (component st) = false →
  inputs st = [n] → nullish v = false → isArray v = false →
  ∃ st',
    setValue v false noValidate st = Ok tt st'
    ∧ inputs st' = [with_value (shown st v) n]
    ∧ entry st' = shown st v ∧ value st' = shown st v
    ∧ pending st'
      = (if notifies (entry st) (shown st v) then scheduled noValidate
         else pending st)
    ∧ component st' = component st ∧ pristine st' = pristine st
    ∧ events st' = events st ∧ controls st' = controls st.
Proof.
  intros Hin Hmul Hins Hv Harr.
  unfold setValue.
  unfold bind at 1. unfold gets at 1. rewrite Hin. cbn [negb].
  unfold bind at 1. unfold modify at 1.
  unfold bind at 1. unfold gets at 1.
  change (inputs (set_value v st)) with (inputs st). rewrite Hins, Harr.
  cbn [length seq for_each].
  unfold bind at 1. unfold bind at 1. unfold bind at 1. unfold gets at 1.
  rewrite (setValueAt_Ok (set_value v st) 0 n v JUndefined);
    [|by simpl; rewrite Hins|by left].
  unfold ret at 1. cbn [negb].
  set (st1 := set_inputs _ _).
  assert (written JUndefined v = v) as Hw by (unfold written; by rewrite Hv).
  assert (inputs st1 = [with_value (shown st v) n]) as Hins1.
  { unfold st1. simpl. by rewrite Hins, Hw. }
  pose proof (getValue_single st1 (with_value (shown st v) n) [] Hin Hmul Hins1)
    as Hget.
  rewrite (updateValue_Ok noValidate st1 _ _ Hget).
  eexists. split; [reflexivity|]. simpl.
  split; [by rewrite Hins, Hw|].
  split; [unfold entry; simpl; by rewrite lookup_insert_eq|].
  by repeat split.
Qed.

(** createInput on an instance with nothing rendered: one enabled input. *)
Lemma createInput_first (st : Instance) (dv : JsValue) :
  Descriptor.input (component st) = true →
  inputs st = [] → defaultValue st = Ok dv st →
  ∃ st' n,
    createInput st = Ok tt st'
    ∧ same_store st st' ∧ unnotified st st'
    ∧ inputs st' = [n] ∧ node_disabled n = false
    ∧ controls st' = controls st ∧ _disabled st' = _disabled st.
Proof.
  intros Hin Hins Hdv. rewrite createInput_eq.
  set (st0 := if Descriptor.inputMask (component st)
              then set_inputMask (Some true) st else st).
  assert (same_store st st0 ∧ unnotified st st0 ∧ inputs st0 = []
          ∧ controls st0 = controls st ∧ _disabled st0 = _disabled st)
    as (Hsame0 & Hq0 & Hins0 & Hc0 & Hd0).
  { unfold st0. by destruct (Descriptor.inputMask _). }
  assert (defaultValue (wired st0) = Ok dv (wired st0)) as Hdv0.
  { destruct Hsame0 as (Hc & Hd & _). by apply (defaultValue_frame st). }
  rewrite addInput_eq.
  destruct (hasOwnEntry st0).
  - destruct (setValue_Ok (wired st0) (entry st0) dv true false)
      as (st' & Hrun & _ & Hlen & _).
    { simpl. by destruct Hsame0 as (-> & _). }
    { intros. by right. }
    pose proof (setValue_noUpdate_same_store (entry st0) false (wired st0)) as Hsame.
    pose proof (setValue_noUpdate_unnotified (entry st0) false (wired st0)) as Hq.
    pose proof (setValue_nodes_kept (entry st0) true false (wired st0))
      as (Hctl & _ & _ & _ & Hoff & Hdis & _).
    rewrite Hrun in Hsame, Hq, Hctl, Hoff, Hdis.
    simpl in Hsame, Hq, Hctl, Hoff, Hdis, Hlen.
    rewrite Hins0 in Hdis, Hlen. simpl in Hdis, Hlen.
    destruct (inputs st') as [|n [|? ?]] eqn:Hins'; try done.
    exists st', n. split; [done|].
    split; [trans st0; [done|]; by trans (wired st0)|].
    split; [trans st0; [done|]; by trans (wired st0)|].
    split; [done|]. split; [by injection Hdis|]. split; congruence.
  - eexists (wired st0), _. split; [reflexivity|].
    split; [by trans st0|]. split; [by trans st0|].
    simpl. rewrite Hins0. simpl. by repeat split.
Qed.

(** X11 (build, createInput, addInput, defaultValue, setValue, updateValue,
    onChange): building a single-value input-bound component whose key is a
    name [Object.prototype] does not define, over a data object whose
    [hasOwnProperty] is the method of [Object.prototype], when the default
    value is truthy and no sequence: one text input is rendered, it shows
    the string it keeps of the default, and that string is stored under the
    component's key and in the cache, whatever the data object held there.
    Unless updateValue finds no change to announce (the data object held
    exactly that string already, or the string is empty and the data object
    held a falsy value other than null and undefined), this schedules a
    validating change notification: 200ms later the component is no longer
    pristine, though nobody has touched it. *)
Theorem build_applies_the_default (st : Instance) (dv : JsValue) :
  Descriptor.input (component st) = true →
  Descriptor.multiple (component st) = false →
  ordinary_key st → plain_data st →
  inputs st = [] → defaultValue st = Ok dv st →
  truthy dv = true → isArray dv = false →
  ∃ st',
    build st = Ok tt st'
    ∧ displayed st' = [shown st dv]
    ∧ entry st' = shown st dv ∧ value st' = shown st dv
    ∧ Forall (λ n, node_disabled n = off st) (inputs st')
    ∧ pending st' = (if notifies (entry st) (shown st dv) then scheduled false
                     else pending st)
    ∧ (notifies (entry st) (shown st dv) = true →
       pristine (state_of (elapse debounce_wait st')) = false)
    ∧ read_value (PlainObject.get (Descriptor.key (component st)) (data st))
      = Some (entry st)
    ∧ PlainObject.hasOwnProperty (Descriptor.key (component st)) (data st)
      = Some (hasOwnEntry st).
Proof.
  intros Hin Hmul Hkey Hplain Hins Hdv Htruthy Harr.
  destruct (createInput_first st dv Hin Hins Hdv)
    as (st1 & n & Hrun1 & Hsame1 & (Hp1 & Hpr1 & Hev1) & Hins1 & Hen1 & _).
  unfold build.
  unfold bind at 1. unfold createWrapper at 1.
  unfold bind at 1. unfold gets at 1. rewrite Hmul. cbn [negb]. unfold ret at 1.
  cbn [negb]. unfold bind at 1. rewrite Hrun1.
  unfold bind at 1. unfold gets at 1.
  replace (readOnly st1 || Descriptor.disabled (component st1)) with (off st).
  2:{ unfold off. by destruct Hsame1 as (-> & _ & _ & _ & ->). }
  set (st2 := if off st then state_of (set_disabled_all true st1) else st1).
  set (n2 := {| node_value := node_value n; node_listeners := node_listeners n;
                node_disabled := off st |}).
  assert (same_store st1 st2 ∧ unnotified st1 st2 ∧ inputs st2 = [n2])
    as (Hsame2 & (Hp2 & Hpr2 & Hev2) & Hins2).
  { unfold st2, n2. destruct (off st); simpl.
    - rewrite Hins1. by repeat split.
    - rewrite Hins1. repeat split. destruct n. simpl in *. by subst. }
  assert (same_store st st2) as Hsame by (by trans st1).
  assert (defaultValue st2 = Ok dv st2) as Hdv2.
  { destruct Hsame as (Hc & Hd & _). by apply (defaultValue_frame st). }
  assert (entry st2 = entry st) as He2.
  { unfold entry. by destruct Hsame as (-> & -> & _). }
  assert (shown st2 dv = shown st dv) as Hsh by (by apply shown_scalar).
  destruct (setValue_single_scalar st2 n2 dv false)
    as (st' & Hrun & Hins' & He' & Hv' & Hp' & _ & Hpr' & _);
    [by rewrite (proj1 Hsame)..|done|by apply truthy_not_nullish|done|].
  rewrite Hsh in Hins', He', Hv', Hp'.
  assert (bind (if off st then set_disabled_all true else ret tt)
            (λ _, bind defaultValue
                    (λ dv0, if truthy dv0 then setValue dv0 false false else ret tt))
            st1 = Ok tt st') as Hrest.
  { unfold bind at 1. clear Hins2 Hins' Hsh. unfold st2 in *.
    destruct (off st).
    - change (set_disabled_all true st1)
        with (Ok tt (state_of (set_disabled_all true st1))).
      cbv iota. unfold bind at 1. by rewrite Hdv2, Htruthy.
    - change (ret tt st1) with (Ok tt st1).
      cbv iota. unfold bind at 1. by rewrite Hdv2, Htruthy. }
  exists st'. split; [exact Hrest|].
  split; [unfold displayed; by rewrite Hins'|]. split; [done|]. split; [done|].
  split; [rewrite Hins'; by repeat constructor|].
  rewrite He2, Hp2, Hp1 in Hp'.
  split; [exact Hp'|].
  split; [|split; [by apply entry_read|by apply hasOwnEntry_tested]].
  intros Hne. rewrite Hne in Hp'. simpl in Hp'.
  unfold elapse, bind, gets. rewrite Hp'. simpl.
  unfold onChange, bind, modify, gets. simpl.
  destruct (events st') eqn:Hev; [|done].
  unfold emit, bind, gets, modify. simpl. by rewrite Hev.
Qed.

Lemma build_applies_the_default_witness :
  let c := {| Descriptor.key := "n"; Descriptor.input := true;
              Descriptor.multiple := false; Descriptor.defaultValue := JNum 5;
              Descriptor.customDefaultValue := Descriptor.Absent;
              Descriptor.disabled := false; Descriptor.inputMask := false |} in
  ∃ st',
    build (create c false None {[ "n" := JNum 5 ]} []) = Ok tt st'
    ∧ displayed st' = [JStr "5"] ∧ entry st' = JStr "5"
    ∧ pending st' = scheduled false
    ∧ pristine (state_of (elapse debounce_wait st')) = false.
Proof.
  intros c.
  destruct (build_applies_the_default
              (create c false None {[ "n" := JNum 5 ]} []) (JNum 5))
    as (st' & Hrun & Hshown & He & _ & _ & Hp & Hpr & _).
  - vm_compute. reflexivity.
  - vm_compute. reflexivity.
  - vm_compute. reflexivity.
  - vm_compute. reflexivity.
  - vm_compute. reflexivity.
  - vm_compute. reflexivity.
  - vm_compute. reflexivity.
  - vm_compute. reflexivity.
  - exists st'. split; [exact Hrun|]. split; [exact Hshown|].
    split; [exact He|]. split; [exact Hp|]. apply Hpr. vm_compute. reflexivity.
Defined.

(** addNewValue() over an absent or otherwise falsy entry: a new sequence
    that holds the default value. *)
Lemma addNewValue_on_falsy (st : Instance) (dv : JsValue) :
  truthy (entry st) = false → default_is (component st) dv →
  addNewValue st
  = Ok tt (set_heap (heap st ++ [[dv]])
             (set_data (<[Descriptor.key (component st) := JArr (length (heap st))]>
                          (data st)) st)).
Proof.
  intros Hfalsy Hdv. unfold addNewValue.
  unfold bind at 1. unfold gets at 1. rewrite Hfalsy. cbn [negb].
  unfold bind at 1. unfold bind at 1. unfold new_array at 1.
  unfold write_entry at 1, modify at 1.
  set (st1 := set_data _ _).
  assert (entry st1 = JArr (length (heap st))) as He.
  { unfold entry, st1. simpl. by rewrite lookup_insert_eq. }
  unfold bind at 1. unfold gets at 1. rewrite He. cbn [isArray negb].
  unfold bind at 1. unfold ret at 1.
  unfold bind at 1. unfold gets at 1. rewrite He.
  unfold bind at 1. rewrite (Hdv st1 eq_refl).
  unfold push, modify. f_equal. unfold st1. simpl.
  rewrite alter_app_r_alt by lia. rewrite Nat.sub_diag. reflexivity.
Qed.

(** X12 (build, createWrapper, addNewValue, buildRows): building a
    multiple-value input-bound component whose key is a name
    [Object.prototype] does not define, over a data object whose
    [hasOwnProperty] is the method of [Object.prototype] and whose entry is
    absent or otherwise falsy, when the default value is falsy (the empty
    string of a descriptor without one, say), returns and seeds the data
    object: the entry becomes a new one-element sequence holding the default
    value, one row shows the string its text input keeps of it, with its
    remove button and the add button, and no other key of the data object
    changes. The data object is changed without any change notification
    being scheduled or published. *)
Theorem build_seeds_the_sequence (st : Instance) (dv : JsValue) :
  Descriptor.input (component st) = true →
  Descriptor.multiple (component st) = true →
  ordinary_key st → plain_data st →
  truthy (entry st) = false →
  default_is (component st) dv → truthy dv = false →
  ∃ st',
    build st = Ok tt st'
    ∧ entry_holds st' (length (heap st)) [dv]
    ∧ (∀ k, k ≠ Descriptor.key (component st) → data st' !! k = data st !! k)
    ∧ (∀ a l, heap st !! a = Some l → heap st' !! a = Some l)
    ∧ displayed st' = [shown st dv]
    ∧ length (controls st') = 2
    ∧ unnotified st st'
    ∧ read_value (PlainObject.get (Descriptor.key (component st)) (data st))
      = Some (entry st)
    ∧ PlainObject.hasOwnProperty (Descriptor.key (component st)) (data st')
      = Some true.
Proof.
  intros Hin Hmul Hkey Hplain Hfalsy Hdv Hdvf.
  set (sta := set_tbody true st).
  set (stb := set_heap (heap sta ++ [[dv]])
                (set_data (<[Descriptor.key (component sta)
                              := JArr (length (heap sta))]> (data sta)) sta)).
  assert (entry_holds stb (length (heap st)) [dv]) as Hsb.
  { split; simpl; [by rewrite lookup_insert_eq|by apply lookup_snoc_last]. }
  destruct (buildRows_on_sequence stb (length (heap st)) [dv] dv)
    as (stc & Hrun & Hsame & Hshown & Hctl & _); [done|done|done|by apply Hdv|].
  pose proof (buildRows_unnotified stb) as Hq. rewrite Hrun in Hq. simpl in Hq.
  assert (createWrapper st = Ok true stc) as Hwrap.
  { unfold createWrapper.
    unfold bind at 1. unfold gets at 1. rewrite Hmul. cbn [negb].
    unfold bind at 1. unfold modify at 1. fold sta.
    unfold bind at 1. unfold gets at 1.
    change (entry sta) with (entry st). rewrite Hfalsy. cbn [negb orb].
    unfold bind at 1.
    rewrite (addNewValue_on_falsy sta dv Hfalsy Hdv). fold stb.
    unfold bind at 1. by rewrite Hrun. }
  set (st' := if off st then state_of (set_disabled_all true stc) else stc).
  assert (build st = Ok tt st') as Hbuild.
  { unfold build. unfold bind at 1. rewrite Hwrap. cbn [negb].
    unfold bind at 1. unfold ret at 1.
    unfold bind at 1. unfold gets at 1.
    replace (readOnly stc || Descriptor.disabled (component stc)) with (off st)
      by (unfold off; by destruct Hsame as (-> & _ & _ & _ & ->)).
    unfold st'. destruct (off st).
    - unfold bind at 1.
      change (set_disabled_all true stc)
        with (Ok tt (state_of (set_disabled_all true stc))).
      cbv iota. unfold bind at 1.
      rewrite (Hdv (state_of (set_disabled_all true stc)) (proj1 Hsame)).
      by rewrite Hdvf.
    - unfold bind at 1. change (ret tt stc) with (Ok tt stc).
      cbv iota. unfold bind at 1.
      rewrite (Hdv _ (proj1 Hsame)). by rewrite Hdvf. }
  assert (same_store stc st' ∧ unnotified stc st' ∧ displayed st' = displayed stc
          ∧ controls st' = controls stc) as (Hsame' & Hq' & Hshown' & Hctl').
  { unfold st'. destruct (off st); [|done]. repeat split.
    unfold displayed. simpl. by rewrite map_map. }
  exists st'. split; [done|].
  split; [apply (entry_holds_same_store stb); [by trans stc|done]|].
  destruct (transitivity Hsame Hsame') as (_ & Hd & Hh & _).
  split; [intros k Hk; rewrite Hd; simpl; by rewrite lookup_insert_ne|].
  split.
  { intros a l Hl. rewrite Hh. simpl. rewrite lookup_app_l; [done|].
    by apply lookup_lt_Some in Hl. }
  split.
  { rewrite Hshown', Hshown. unfold rendered. simpl. rewrite written_self.
    f_equal. apply shown_scalar. by destruct dv. }
  split; [by rewrite Hctl', Hctl|].
  split; [by trans stc|]. split; [by apply entry_read|].
  rewrite plain_hasOwnProperty.
  - rewrite Hd. simpl. by rewrite lookup_insert_eq.
  - rewrite Hd. simpl. rewrite lookup_insert_ne; [done|].
    intros Heq. unfold ordinary_key in Hkey. by rewrite Heq in Hkey.
Qed.

Lemma build_seeds_the_sequence_witness :
  let c := {| Descriptor.key := "counts"; Descriptor.input := true;
              Descriptor.multiple := true; Descriptor.defaultValue := JUndefined;
              Descriptor.customDefaultValue := Descriptor.Source (λ _, Some (JNum 0));
              Descriptor.disabled := false; Descriptor.inputMask := false |} in
  ∃ st',
    build (create c false None ∅ []) = Ok tt st'
    ∧ elements (entry st') st' = [JNum 0]
    ∧ displayed st' = [JStr "0"]
    ∧ pending st' = None.
Proof.
  intros c.
  destruct (build_seeds_the_sequence (create c false None ∅ []) (JNum 0))
    as (st' & Hrun & Hs & _ & _ & Hshown & _ & (Hp & _) & _).
  - vm_compute. reflexivity.
  - vm_compute. reflexivity.
  - vm_compute. reflexivity.
  - vm_compute. reflexivity.
  - vm_compute. reflexivity.
  - intros st Hc. unfold defaultValue, bind, gets. rewrite Hc. reflexivity.
  - vm_compute. reflexivity.
  - exists st'. split; [exact Hrun|].
    destruct (entry_holds_entry _ _ _ Hs) as [He _]. destruct Hs as [_ Hheap].
    simpl in Hheap.
    split; [by rewrite He; simpl; rewrite Hheap|]. split; [exact Hshown|].
    rewrite Hp. vm_compute. reflexivity.
Defined.

(** ** The registry of external libraries *)

Section Keeps.
Context (R : relation World) `{!PreOrder R}.

Lemma keeps_ret {A} (a : A) : keeps R (ret a).
Proof. intros w. reflexivity. Qed.

Lemma keeps_gets {A} (f : World → A) : keeps R (gets f).
Proof. intros w. reflexivity. Qed.

Lemma keeps_throw {A} (e : Exn) : keeps R (@throw World A e).
Proof. intros w. reflexivity. Qed.

Lemma keeps_modify (f : World → World) : (∀ w, R w (f w)) → keeps R (modify f).
Proof. intros H w. apply H. Qed.

Lemma keeps_bind {A B} (m : L A) (k : A → L B) :
  keeps R m → (∀ a, keeps R (k a)) → keeps R (bind m k).
Proof.
  intros Hm Hk w. unfold bind. specialize (Hm w).
  destruct (m w) as [a w'|e w']; simpl in *; [|done].
  etransitivity; [exact Hm | apply Hk].
Qed.

Lemma keeps_for_each {A} (l : list A) (body : A → L unit) :
  (∀ x, keeps R (body x)) → keeps R (for_each l body).
Proof.
  intros Hbody. induction l as [|x l IH]; simpl.
  - apply keeps_ret.
  - apply keeps_bind; [apply Hbody | intros _; apply IH].
Qed.
End Keeps.

Create HintDb keeps.

Ltac keep_by tac :=
  repeat first
    [ solve [eauto with typeclass_instances keeps]
    | progress cbv zeta
    | apply keeps_ret; apply _
    | apply keeps_gets; apply _
    | apply keeps_throw; apply _
    | apply keeps_modify; intros ?; tac
    | apply keeps_bind; [apply _| |intros ?]
    | apply keeps_for_each; [apply _|intros ?]
    | match goal with
      | |- keeps _ (if ?b then _ else _) => destruct b
      | |- keeps _ (match ?x with _ => _ end) => destruct x
      | |- keeps _ (let '(_, _) := ?x in _) => destruct x
      end ].

Global Instance futures_grow_preorder : PreOrder futures_grow.
Proof.
  split.
  - intros w. by split.
  - intros w1 w2 w3 [Hl1 H1] [Hl2 H2]. split; [lia|]. intros p s Hp. eauto.
Qed.

Ltac futures_step :=
  first [ reflexivity
        | split; simpl;
          [ rewrite ?length_app; simpl; lia
          | intros ? ? Hp;
            first [ done
                  | rewrite lookup_app_l; [done|by apply lookup_lt_Some in Hp] ] ] ].

Lemma resolve_futures_grow p plugin : keeps futures_grow (resolve p plugin).
Proof.
  intros w. unfold resolve, modify. simpl.
  destruct (promises w !! p) as [[|s]|] eqn:Hp; [|reflexivity..].
  split; simpl; [by rewrite length_insert|].
  intros q s Hq. destruct (decide (q = p)) as [->|Hne]; [congruence|].
  by rewrite list_lookup_insert_ne.
Qed.
#[global] Hint Resolve resolve_futures_grow : keeps.

Lemma inject_futures_grow lib : keeps futures_grow (inject lib).
Proof. unfold inject. keep_by futures_step. Qed.
#[global] Hint Resolve inject_futures_grow : keeps.

Lemma requireLibrary_futures_grow name property src polling :
  keeps futures_grow (requireLibrary name property src polling).
Proof. unfold requireLibrary. keep_by futures_step. Qed.

Lemma checkLibrary_futures_grow name property :
  keeps futures_grow (checkLibrary name property).
Proof. unfold checkLibrary. keep_by futures_step. Qed.
#[global] Hint Resolve checkLibrary_futures_grow : keeps.

Lemma run_callback_futures_grow name : keeps futures_grow (run_callback name).
Proof. unfold run_callback. keep_by futures_step. Qed.

Lemma fire_timeout_futures_grow : keeps futures_grow fire_timeout.
Proof. unfold fire_timeout. keep_by futures_step. Qed.

Lemma after_futures_grow (evs : list Event) (w : World) :
  futures_grow w (after evs w).
Proof.
  revert w. induction evs as [|ev evs IH]; intros w; [reflexivity|].
  simpl. etrans; [|apply IH].
  destruct ev; simpl;
    [apply requireLibrary_futures_grow | apply fire_timeout_futures_grow
    | apply run_callback_futures_grow].
Qed.

(** X13 (requireLibrary, its callback and its polling timer): a future is
    settled once. Whatever requireLibrary calls, timer firings and script
    callbacks follow, a resolved [ready] promise keeps the value it was
    resolved with, and no promise is ever dropped. *)
Theorem settled_future_is_never_changed (evs : list Event) (w : World)
    (p : nat) (s : option WindowValue) :
  promises w !! p = Some (Resolved s) →
  promises (after evs w) !! p = Some (Resolved s).
Proof. intros Hp. by apply (after_futures_grow evs w). Qed.

Lemma settled_future_is_never_changed_witness :
  promises ace_world !! 0 = Some (Resolved (Some (Plain (JStr "plugin"))))
  ∧ promises (after [ScriptLoaded "ace"; TimerFired;
                     Require "ace" "other" (One NoLibrary) false;
                     Require "moment" "moment" (One (Url "moment.js")) true;
                     TimerFired] ace_world) !! 0
    = Some (Resolved (Some (Plain (JStr "plugin")))).
Proof.
  split; [vm_compute; reflexivity|].
  apply settled_future_is_never_changed. vm_compute. reflexivity.
Defined.

(** A first call, once the entry and its callback are in place. *)
Lemma requireLibrary_first_eq (name property : string) (src : Src)
    (polling : bool) (w : World) :
  externalLibraries w !! name = None →
  requireLibrary name property src polling w
  = bind (if present (window (entered name polling w) !! property)
          then resolve (length (promises w))
                 (window (entered name polling w) !! property)
          else bind (for_each (libraries src) inject)
                 (λ _, if polling
                       then modify (λ w0, set_timeouts
                                            (timeouts w0 ++ [(name, property)]) w0)
                       else ret tt))
      (λ _, bind (gets (λ w, externalLibraries w !! name))
              (λ e, match e with
                    | Some e => ret (ready e)
                    | None => throw TypeError
                    end))
      (entered name polling w).
Proof.
  intros Hnew. unfold requireLibrary.
  unfold bind at 1. unfold gets at 1.
  rewrite bool_decide_eq_false_2 by (rewrite Hnew; by intros [? ?]). cbn [negb].
  unfold bind at 1. unfold bind at 1. unfold gets at 1.
  unfold bind at 1. unfold modify at 1.
  unfold bind at 1. unfold modify at 1.
  unfold bind at 1. unfold gets at 1.
  unfold entered. cbv zeta. fold (libraries src).
  set (w0 := set_externalLibraries _ _).
  change (window w0) with (window w).
  unfold bind at 1.
  destruct (negb polling && negb (present (window w !! (name +:+ "Callback"))));
    reflexivity.
Qed.

Lemma entered_facts (name : string) (polling : bool) (w : World) :
  externalLibraries (entered name polling w)
  = <[name := {| ready := length (promises w) |}]> (externalLibraries w)
  ∧ promises (entered name polling w) = promises w ++ [Unsettled]
  ∧ head (entered name polling w) = head w
  ∧ timeouts (entered name polling w) = timeouts w.
Proof. unfold entered. cbv zeta. by destruct (_ && _). Qed.

Lemma entered_window (name property : string) (polling : bool) (w : World) :
  property ≠ name +:+ "Callback" ∨ present (window w !! property) = true →
  window (entered name polling w) !! property = window w !! property.
Proof.
  intros Hp. unfold entered. cbv zeta.
  destruct (negb polling && negb (present (window w !! (name +:+ "Callback"))))
    eqn:Hcond; [|done].
  simpl. apply lookup_insert_ne. intros <-.
  destruct Hp as [Hp|Hp]; [done|].
  rewrite Hp in Hcond. by destruct polling.
Qed.

Lemma resolve_unsettled (p : nat) (plugin : option WindowValue) (w : World) :
  promises w !! p = Some Unsettled →
  resolve p plugin w = Ok tt (set_promises (<[p := Resolved plugin]> (promises w)) w).
Proof. intros Hp. unfold resolve, modify. by rewrite Hp. Qed.



Lemma inject_all (libs : list Library) (w : World) :
  Forall (λ lib, is_Some (injectable lib)) libs →
  for_each libs inject w = Ok tt (set_head (head w ++ omap injectable libs) w).
Proof.
  intros Hwf.
  destruct (inject_loop libs w) as (injected & Hst & _ & Hall & Hret).
  specialize (Hret Hwf). specialize (Hall Hret).
  destruct (for_each libs inject w) as [[] w'|e w']; [|done].
  simpl in Hst. by rewrite Hst, Hall.
Qed.





(** ** A first call that fails *)

Lemma state_of_bind {S A B} (m : Eff S A) (k : A → Eff S B) (s : S) :
  state_of (bind m k s)
  = match m s with
    | Ok a s' => state_of (k a s')
    | Throw _ s' => s'
    end.
Proof. unfold bind. by destruct (m s). Qed.

Lemma inject_returned_all (libs : list Library) (w : World) :
  returned (for_each libs inject w) = true →
  Forall (λ lib, is_Some (injectable lib)) libs.
Proof.
  revert w. induction libs as [|lib libs IH]; intros w; [by constructor|].
  simpl. unfold bind at 1.
  destruct (inject_state lib w) as [_ Hret].
  destruct (inject lib w) as [[] w'|e w']; simpl in *.
  - intros Hrest. constructor; [|by apply (IH w')].
    symmetry in Hret. by apply bool_decide_eq_true in Hret.
  - done.
Qed.

Lemma stuck_frame (name : string) (p : nat) (w w' : World) :
  externalLibraries w' = externalLibraries w → promises w' = promises w →
  window w' = window w → timeouts w' = timeouts w →
  stuck name p w → stuck name p w'.
Proof.
  intros Hr Hp Hw Ht. unfold stuck, tidy. by rewrite Hr, Hp, Hw, Ht.
Qed.

Lemma resolve_stuck (name : string) (p q : nat) (plugin : option WindowValue)
    (w : World) :
  q ≠ p → stuck name p w → stuck name p (state_of (resolve q plugin w)).
Proof.
  intros Hne Hst. unfold resolve, modify. simpl.
  destruct (promises w !! q) as [[|s]|]; [|done..].
  destruct Hst as (Hreg & Hp & Hinj & Hready & Htime & Hwin).
  split; [done|]. split; [simpl; by rewrite list_lookup_insert_ne|].
  split; [done|]. split; [|done].
  intros n e He. simpl. rewrite length_insert. by apply (Hready n).
Qed.

Lemma inject_loop_stuck (name : string) (p : nat) (libs : list Library)
    (w : World) :
  stuck name p w → stuck name p (state_of (for_each libs inject w)).
Proof.
  intros Hst. destruct (inject_loop libs w) as (injected & -> & _).
  by apply (stuck_frame name p w).
Qed.

Lemma arm_stuck (name : string) (p : nat) (n property : string) (w : World) :
  n ≠ name → stuck name p w →
  stuck name p (set_timeouts (timeouts w ++ [(n, property)]) w).
Proof.
  intros Hne (Hreg & Hp & Hinj & Hready & Htime & Hwin).
  split; [done|]. split; [done|]. split; [done|]. split; [done|].
  split; [|done]. simpl. intros n' property' Hin.
  apply elem_of_app in Hin as [Hin|Hin]; [by apply (Htime n' property')|].
  apply list_elem_of_singleton in Hin. by injection Hin as -> _.
Qed.

Lemma entered_stuck (name : string) (p : nat) (n : string) (polling : bool)
    (w : World) :
  n ≠ name → stuck name p w →
  stuck name p (entered n polling w) ∧ length (promises w) ≠ p.
Proof.
  intros Hne (Hreg & Hp & Hinj & Hready & Htime & Hwin).
  assert (p < length (promises w)) as Hlt by (by apply lookup_lt_Some in Hp).
  split; [|lia].
  assert (stuck name p
            (set_externalLibraries
               (<[n := {| ready := length (promises w) |}]> (externalLibraries w))
               (set_promises (promises w ++ [Unsettled]) w))) as Hst0.
  { split; [simpl; by rewrite lookup_insert_ne|].
    split; [simpl; by rewrite lookup_app_l|].
    split; [|split; [|done]]; simpl.
    - intros n' e. destruct (decide (n' = n)) as [->|Hn'].
      + rewrite lookup_insert_eq. intros [= <-]. simpl. lia.
      + rewrite lookup_insert_ne by done. apply Hinj.
    - intros n' e. rewrite length_app. simpl.
      destruct (decide (n' = n)) as [->|Hn'].
      + rewrite lookup_insert_eq. intros [= <-]. simpl. lia.
      + rewrite lookup_insert_ne by done. intros He.
        specialize (Hready n' e He). lia. }
  unfold entered. cbv zeta. destruct (_ && _); [|done].
  destruct Hst0 as (Hreg0 & Hp0 & Hinj0 & Hready0 & Htime0 & Hwin0).
  split; [done|]. split; [done|]. split; [done|]. split; [done|].
  split; [done|]. simpl. intros k lib.
  destruct (decide (k = n +:+ "Callback")) as [->|Hk].
  - rewrite lookup_insert_eq. by intros [= <-].
  - rewrite lookup_insert_ne by done. apply Hwin.
Qed.

Lemma requireLibrary_stuck (name : string) (p : nat) (n property : string)
    (src : Src) (polling : bool) (w : World) :
  stuck name p w → stuck name p (state_of (requireLibrary n property src polling w)).
Proof.
  intros Hst.
  destruct (externalLibraries w !! n) as [e|] eqn:Hn.
  { by rewrite (requireLibrary_known n property src polling w e Hn). }
  assert (n ≠ name) as Hne.
  { intros ->. destruct Hst as (Hreg & _). congruence. }
  rewrite (requireLibrary_first_eq n property src polling w Hn).
  destruct (entered_stuck name p n polling w Hne Hst) as [Hst1 Hfresh].
  generalize dependent (entered n polling w). intros wa Hst1.
  rewrite state_of_bind.
  assert (∀ w', state_of (bind (gets (λ w0, externalLibraries w0 !! n))
                            (λ e, match e with
                                  | Some e => ret (ready e)
                                  | None => throw TypeError
                                  end) w') = w') as Hread.
  { intros w'. unfold bind, gets. by destruct (externalLibraries w' !! n). }
  destruct (present (window wa !! property)).
  - pose proof (resolve_stuck name p _ (window wa !! property) wa Hfresh Hst1) as H.
    destruct (resolve _ _ wa) as [[] w'|e w']; simpl in H; by rewrite ?Hread.
  - pose proof (inject_loop_stuck name p (libraries src) wa Hst1) as H.
    unfold bind at 1.
    destruct (for_each (libraries src) inject wa) as [[] w'|e w']; simpl in H;
      [|done].
    destruct polling; unfold modify, ret; rewrite Hread; [|done].
    by apply arm_stuck.
Qed.

Lemma checkLibrary_stuck (name : string) (p : nat) (n property : string)
    (w : World) :
  n ≠ name → stuck name p w → stuck name p (state_of (checkLibrary n property w)).
Proof.
  intros Hne Hst. unfold checkLibrary, bind, gets.
  destruct (present (window w !! property)).
  - destruct (externalLibraries w !! n) as [e|] eqn:He; [|done].
    apply resolve_stuck; [|done].
    intros Hp. destruct Hst as (_ & _ & Hinj & _). by apply Hne, (Hinj n e).
  - unfold modify. simpl. by apply arm_stuck.
Qed.

Lemma step_stuck (name : string) (p : nat) (s : Step) (w : World) :
  stuck name p w → stuck name p (step s w).
Proof.
  intros Hst. destruct s as [[n property src polling| |k]|property v]; simpl.
  - by apply requireLibrary_stuck.
  - unfold fire_timeout, bind, gets.
    destruct (timeouts w) as [|[n property] rest] eqn:Ht; [done|].
    unfold modify at 1. cbv iota beta.
    assert (n ≠ name) as Hne.
    { destruct Hst as (_ & _ & _ & _ & Htime & _).
      apply (Htime n property). rewrite Ht. by left. }
    apply checkLibrary_stuck; [done|].
    destruct Hst as (Hreg & Hp & Hinj & Hready & Htime & Hwin).
    split; [done|]. split; [done|]. split; [done|]. split; [done|].
    split; [|done]. simpl. intros n' property' Hin.
    apply (Htime n' property'). rewrite Ht. by right.
  - unfold run_callback, bind, gets.
    destruct (window w !! (k +:+ "Callback")) as [[v|lib]|] eqn:Hcb; [done| |done].
    destruct (externalLibraries w !! lib) as [e|] eqn:He; [|done].
    apply resolve_stuck; [|done].
    intros Hp. destruct Hst as (_ & _ & Hinj & _ & _ & Hwin).
    apply (Hwin _ _ Hcb). by apply (Hinj lib e).
  - destruct Hst as (Hreg & Hp & Hinj & Hready & Htime & Hwin).
    split; [done|]. split; [done|]. split; [done|]. split; [done|].
    split; [done|]. simpl. intros k lib.
    destruct (decide (k = property)) as [->|Hk].
    + by rewrite lookup_insert_eq.
    + rewrite lookup_insert_ne by done. apply Hwin.
Qed.

Lemma run_stuck (name : string) (p : nat) (steps : list Step) (w : World) :
  stuck name p w → stuck name p (run steps w).
Proof.
  revert w. induction steps as [|s steps IH]; intros w Hst; [done|].
  simpl. by apply IH, step_stuck.
Qed.

(** ** Worlds of ordinary names *)

Lemma plain_frame (w w' : World) :
  externalLibraries w' = externalLibraries w → window w' = window w →
  timeouts w' = timeouts w → plain_world w → plain_world w'.
Proof. intros Hr Hw Ht. unfold plain_world. by rewrite Hr, Hw, Ht. Qed.

Lemma resolve_plain (p : nat) (plugin : option WindowValue) (w : World) :
  plain_world w → plain_world (state_of (resolve p plugin w)).
Proof.
  intros H. unfold resolve, modify. simpl.
  destruct (promises w !! p) as [[|s]|]; [|done..].
  by apply (plain_frame w).
Qed.

Lemma inject_loop_plain (libs : list Library) (w : World) :
  plain_world w → plain_world (state_of (for_each libs inject w)).
Proof.
  intros H. destruct (inject_loop libs w) as (injected & -> & _).
  by apply (plain_frame w).
Qed.

Lemma arm_plain (n property : string) (w : World) :
  PlainObject.ordinary n = true → plain_world w →
  plain_world (set_timeouts (timeouts w ++ [(n, property)]) w).
Proof.
  intros Hn (Hreg & Htime & Hwin). split; [done|]. split; [|done].
  simpl. intros n' property' Hin.
  apply elem_of_app in Hin as [Hin|Hin]; [by apply (Htime n' property')|].
  apply list_elem_of_singleton in Hin. by injection Hin as -> _.
Qed.

Lemma entered_plain (n : string) (polling : bool) (w : World) :
  PlainObject.ordinary n = true → plain_world w →
  plain_world (entered n polling w).
Proof.
  intros Hn (Hreg & Htime & Hwin).
  assert (plain_world
            (set_externalLibraries
               (<[n := {| ready := length (promises w) |}]> (externalLibraries w))
               (set_promises (promises w ++ [Unsettled]) w))) as H0.
  { split; [|done]. simpl. intros n' Hn'.
    destruct (decide (n' = n)) as [->|Hne]; [done|].
    rewrite lookup_insert_ne in Hn' by done. by apply Hreg. }
  unfold entered. cbv zeta. destruct (_ && _); [|done].
  destruct H0 as (Hreg0 & Htime0 & Hwin0).
  split; [done|]. split; [done|]. simpl. intros k lib.
  destruct (decide (k = n +:+ "Callback")) as [->|Hk].
  - rewrite lookup_insert_eq. by intros [= <-].
  - rewrite lookup_insert_ne by done. apply Hwin.
Qed.

Lemma requireLibrary_plain (n property : string) (src : Src) (polling : bool)
    (w : World) :
  PlainObject.ordinary n = true → plain_world w →
  plain_world (state_of (requireLibrary n property src polling w)).
Proof.
  intros Hord Hpl.
  destruct (externalLibraries w !! n) as [e|] eqn:Hn.
  { by rewrite (requireLibrary_known n property src polling w e Hn). }
  rewrite (requireLibrary_first_eq n property src polling w Hn).
  pose proof (entered_plain n polling w Hord Hpl) as Hpl1.
  generalize dependent (entered n polling w). intros wa Hpl1.
  rewrite state_of_bind.
  assert (∀ w', state_of (bind (gets (λ w0, externalLibraries w0 !! n))
                            (λ e, match e with
                                  | Some e => ret (ready e)
                                  | None => throw TypeError
                                  end) w') = w') as Hread.
  { intros w'. unfold bind, gets. by destruct (externalLibraries w' !! n). }
  destruct (present (window wa !! property)).
  - pose proof (resolve_plain (length (promises w)) (window wa !! property) wa Hpl1)
      as H.
    destruct (resolve _ _ wa) as [[] w'|e w']; simpl in H; by rewrite ?Hread.
  - pose proof (inject_loop_plain (libraries src) wa Hpl1) as H.
    unfold bind at 1.
    destruct (for_each (libraries src) inject wa) as [[] w'|e w']; simpl in H;
      [|done].
    destruct polling; unfold modify, ret; rewrite Hread; [|done].
    by apply arm_plain.
Qed.

Lemma checkLibrary_plain (n property : string) (w : World) :
  PlainObject.ordinary n = true → plain_world w →
  plain_world (state_of (checkLibrary n property w)).
Proof.
  intros Hn Hpl. unfold checkLibrary, bind, gets.
  destruct (present (window w !! property)).
  - destruct (externalLibraries w !! n) as [e|]; [|done]. by apply resolve_plain.
  - unfold modify. simpl. by apply arm_plain.
Qed.

Lemma step_plain (s : Step) (w : World) :
  ordinary_step s → plain_world w → plain_world (step s w).
Proof.
  intros Hs Hpl. destruct s as [[n property src polling| |k]|property v]; simpl.
  - by apply requireLibrary_plain.
  - unfold fire_timeout, bind, gets.
    destruct (timeouts w) as [|[n property] rest] eqn:Ht; [done|].
    unfold modify at 1. cbv iota beta.
    destruct Hpl as (Hreg & Htime & Hwin).
    apply checkLibrary_plain.
    + apply (Htime n property). rewrite Ht. by left.
    + split; [done|]. split; [|done]. simpl. intros n' property' Hin.
      apply (Htime n' property'). rewrite Ht. by right.
  - unfold run_callback, bind, gets.
    destruct (window w !! (k +:+ "Callback")) as [[v|lib]|]; try done.
    destruct (externalLibraries w !! lib) as [e|]; [|done].
    by apply resolve_plain.
  - destruct Hpl as (Hreg & Htime & Hwin).
    split; [done|]. split; [done|]. simpl. intros k lib.
    destruct (decide (k = property)) as [->|Hk].
    + by rewrite lookup_insert_eq.
    + rewrite lookup_insert_ne by done. apply Hwin.
Qed.

(** Calls for ordinary names, timers, callbacks and loaded scripts keep a
    world of ordinary names one. *)
Lemma run_plain (steps : list Step) (w : World) :
  Forall ordinary_step steps → plain_world w → plain_world (run steps w).
Proof.
  intros Hsteps. revert w.
  induction Hsteps as [|s steps Hs Hsteps IH]; intros w Hpl; [done|].
  simpl. by apply IH, step_plain.
Qed.

Lemma after_plain (evs : list Event) (w : World) :
  Forall ordinary_event evs → plain_world w → plain_world (after evs w).
Proof.
  intros Hevs. revert w.
  induction Hevs as [|ev evs Hev Hevs IH]; intros w Hpl; [done|].
  simpl. apply IH. by apply (step_plain (Happens ev)).
Qed.

(** On a world of ordinary names, the guard of requireLibrary and
    libraryReady tells whether the name has an entry. *)
Lemma plain_guard (name : string) (w : World) :
  plain_world w →
  PlainObject.hasOwnProperty name (externalLibraries w)
  = Some (bool_decide (is_Some (externalLibraries w !! name))).
Proof.
  intros (Hreg & _). apply plain_hasOwnProperty.
  destruct (externalLibraries w !! "hasOwnProperty") as [e|] eqn:He; [|done].
  by specialize (Hreg "hasOwnProperty" (mk_is_Some _ _ He)).
Qed.

(** ** Ill-formed libraries *)

(** X18 (requireLibrary, checkLibrary, the installed callback): a first
    call with polling whose [src] is ill-formed raises after it has
    registered the name, and leaves a future that nothing will settle. For a
    name that [Object.prototype] does not define, in a world of such names
    where the name was unknown and nothing refers to it, and the global is
    not there, the call raises; and whatever requireLibrary calls for such
    names (for this name too, with a well-formed [src]), timer firings,
    script callbacks and definitions of globals follow, the future of the
    name stays unsettled and every later call for the name finds the entry
    and returns that future without retrying. *)
Theorem failed_polling_call_leaves_a_dead_future (name property : string)
    (src : Src) (w : World) (steps : list Step) :
  PlainObject.ordinary name = true → plain_world w →
  Forall ordinary_step steps →
  externalLibraries w !! name = None → tidy name w →
  present (window w !! property) = false → ¬ well_formed src →
  let o := requireLibrary name property src true w in
  let w' := run steps (state_of o) in
  returned o = false
  ∧ promises w' !! length (promises w) = Some Unsettled
  ∧ PlainObject.hasOwnProperty name (externalLibraries w') = Some true
  ∧ ∀ property' src' polling',
      requireLibrary name property' src' polling' w'
      = Ok (length (promises w)) w'.
Proof.
  intros Hord Hpl Hsteps Hnew (Hready & Htime & Hwin) Hplugin Hwf. cbv zeta.
  assert (plain_world
            (run steps (state_of (requireLibrary name property src true w))))
    as Hpl'.
  { apply run_plain; [done|]. by apply requireLibrary_plain. }
  revert Hpl'.
  rewrite (requireLibrary_first_eq name property src true w Hnew).
  destruct (entered_facts name true w) as (Hreg & Hprom & Hhead & Htimes).
  assert (window (entered name true w) = window w) as Hwindow by done.
  rewrite Hwindow, Hplugin.
  generalize dependent (entered name true w).
  intros wa Hreg Hprom Hhead Htimes Hwindow.
  assert (stuck name (length (promises w)) wa) as Hst.
  { split; [by rewrite Hreg, lookup_insert_eq|].
    split; [rewrite Hprom; apply lookup_snoc_last|].
    split; [|split; [|split]].
    - intros n e. rewrite Hreg.
      destruct (decide (n = name)) as [->|Hn]; [done|].
      rewrite lookup_insert_ne by done. intros He Hp.
      specialize (Hready n e He). lia.
    - intros n e. rewrite Hreg, Hprom, length_app. simpl.
      destruct (decide (n = name)) as [->|Hn].
      + rewrite lookup_insert_eq. intros [= <-]. simpl. lia.
      + rewrite lookup_insert_ne by done. intros He.
        specialize (Hready n e He). lia.
    - by rewrite Htimes.
    - by rewrite Hwindow. }
  match goal with
  | |- context [bind ?m ?k wa] =>
      assert (∃ e w1, bind m k wa = Throw e w1
                      ∧ stuck name (length (promises w)) w1)
        as (e & w1 & -> & Hst1)
  end.
  { pose proof (inject_loop_stuck name _ (libraries src) wa Hst) as Hst1.
    unfold bind at 1. unfold bind at 1.
    destruct (for_each (libraries src) inject wa) as [[] w1|e w1] eqn:Hloop.
    { exfalso. apply Hwf, (inject_returned_all _ wa). by rewrite Hloop. }
    by exists e, w1. }
  simpl. intros Hpl'. split; [done|].
  destruct (run_stuck name _ steps w1 Hst1) as (Hreg' & Hp' & _).
  split; [done|]. split.
  { by rewrite (plain_guard name _ Hpl'), Hreg'. }
  intros. by rewrite (requireLibrary_known _ _ _ _ _ _ Hreg').
Qed.

Lemma failed_polling_call_leaves_a_dead_future_witness :
  let o := requireLibrary "ace" "ace" (Many [Url "ace.js"; NoLibrary]) true
             empty_world in
  let w' := run [Defines "ace" (JStr "plugin"); Happens TimerFired;
                 Happens (ScriptLoaded "ace");
                 Happens (Require "ace" "ace" (One (Url "ace.js")) true);
                 Happens TimerFired] (state_of o) in
  returned o = false
  ∧ head w' = [ScriptElement "ace.js"]
  ∧ promises w' !! 0 = Some Unsettled.
Proof.
  cbv zeta.
  destruct (failed_polling_call_leaves_a_dead_future "ace" "ace"
              (Many [Url "ace.js"; NoLibrary]) empty_world
              [Defines "ace" (JStr "plugin"); Happens TimerFired;
               Happens (ScriptLoaded "ace");
               Happens (Require "ace" "ace" (One (Url "ace.js")) true);
               Happens TimerFired])
    as (Hraised & Hp & _).
  - vm_compute. reflexivity.
  - split; [|split].
    + intros n [e He]. simpl in He. by rewrite lookup_empty in He.
    + intros n pr Hin. simpl in Hin. by apply elem_of_nil in Hin.
    + intros k lib Hk. simpl in Hk. by rewrite lookup_empty in Hk.
  - repeat constructor.
  - vm_compute. reflexivity.
  - split; [|split].
    + intros n e He. simpl in He. by rewrite lookup_empty in He.
    + intros n pr Hin. simpl in Hin. by apply elem_of_nil in Hin.
    + intros k lib Hk. simpl in Hk. by rewrite lookup_empty in Hk.
  - vm_compute. reflexivity.
  - intros Hwf. apply Forall_cons in Hwf as [_ Hwf].
    apply Forall_cons in Hwf as [[? Hno] _]. discriminate Hno.
  - split; [exact Hraised|]. split; [vm_compute; reflexivity|exact Hp].
Defined.

(** ** One future per name *)




(** X17 (libraryReady, requireLibrary): for a name that [Object.prototype]
    does not define, in a world of such names: once requireLibrary has been
    called for the name, whether that call returned or raised, and whatever
    calls for such names, timers and callbacks follow, libraryReady(name)
    returns the very future that every later requireLibrary call for the
    name returns, and neither changes the registry. For a name that was
    never required, libraryReady returns a promise rejected with the text
    name + ' library was not required.'. *)
Theorem libraryReady_agrees_with_requireLibrary (name property : string)
    (src : Src) (polling : bool) (evs : list Event) (w : World) :
  PlainObject.ordinary name = true → plain_world w →
  Forall ordinary_event evs →
  (let w2 := after evs (state_of (requireLibrary name property src polling w)) in
   ∃ p,
     PlainObject.hasOwnProperty name (externalLibraries w2) = Some true
     ∧ libraryReady name w2 = Ok (Ready p) w2
     ∧ ∀ property' src' polling',
         requireLibrary name property' src' polling' w2 = Ok p w2)
  ∧ (externalLibraries w !! name = None →
     PlainObject.hasOwnProperty name (externalLibraries w) = Some false
     ∧ libraryReady name w
       = Ok (Rejected (name +:+ " library was not required.")) w).
Proof.
  intros Hord Hpl Hevs. split.
  - cbv zeta.
    assert (∃ e, externalLibraries
                   (state_of (requireLibrary name property src polling w)) !! name
                 = Some e) as [e He].
    { destruct (externalLibraries w !! name) as [e|] eqn:Hw.
      - exists e. by rewrite (requireLibrary_known name property src polling w e Hw).
      - destruct (requireLibrary_first name property src polling w Hw) as (Hreg & _).
        eexists. rewrite Hreg. apply lookup_insert_eq. }
    apply (entry_persists_after evs) in He.
    exists (ready e). split; [|split].
    + rewrite plain_guard, He; [done|].
      apply after_plain; [done|]. by apply requireLibrary_plain.
    + unfold libraryReady, bind, gets. by rewrite He.
    + intros. by apply requireLibrary_known.
  - intros Hnew. split; [by rewrite (plain_guard name w Hpl), Hnew|].
    unfold libraryReady, bind, gets. by rewrite Hnew.
Qed.

Lemma libraryReady_agrees_with_requireLibrary_witness :
  let w2 := after [TimerFired; Require "other" "Other" (Many []) false]
              (state_of (requireLibrary "ace" "ace" (Many [NoLibrary]) true
                           empty_world)) in
  libraryReady "ace" w2 = Ok (Ready 0) w2
  ∧ requireLibrary "ace" "ace" (One (Url "ace.js")) false w2 = Ok 0 w2
  ∧ libraryReady "ace" empty_world
    = Ok (Rejected "ace library was not required.") empty_world.
Proof.
  cbv zeta.
  destruct (libraryReady_agrees_with_requireLibrary "ace" "ace" (Many [NoLibrary])
              true [TimerFired; Require "other" "Other" (Many []) false]
              empty_world)
    as [(p & _ & Hready & Hlater) Hnever].
  - vm_compute. reflexivity.
  - split; [|split].
    + intros n [e He]. simpl in He. by rewrite lookup_empty in He.
    + intros n pr Hin. simpl in Hin. by apply elem_of_nil in Hin.
    + intros k lib Hk. simpl in Hk. by rewrite lookup_empty in Hk.
  - repeat constructor.
  - assert (p = 0) as ->.
    { specialize (Hlater "ace" (One (Url "ace.js")) false).
      vm_compute in Hlater. by injection Hlater as <-. }
    split; [exact Hready|]. split; [apply Hlater|].
    apply Hnever. vm_compute. reflexivity.
Defined.

(** ** What destroy gives back to the hub *)

Lemma occurrences_app (p : string * Callback) l1 l2 :
  occurrences p (l1 ++ l2) = occurrences p l1 + occurrences p l2.
Proof. unfold occurrences. by rewrite filter_app, length_app. Qed.

Lemma occurrences_cons (p q : string * Callback) l :
  occurrences p (q :: l) = occurrences p [q] + occurrences p l.
Proof. apply (occurrences_app p [q] l). Qed.

Lemma occurrences_split (p : string * Callback) (all : bool)
    (ls : list ListenerRecord) :
  occurrences p (map pair_of ls)
  = occurrences p (map pair_of (filter (λ l, all || l_internal l = true) ls))
    + occurrences p (map pair_of (filter (λ l, (all || l_internal l) = false) ls)).
Proof.
  induction ls as [|l ls IH]; [done|].
  rewrite !filter_cons. simpl. rewrite occurrences_cons, IH.
  destruct (all || l_internal l) eqn:Hb.
  - rewrite decide_True by done. rewrite decide_False by done. simpl.
    set (x := occurrences p [pair_of l]).
    rewrite (occurrences_cons p (pair_of l)). fold x. lia.
  - rewrite decide_False by done. rewrite decide_True by done. simpl.
    set (x := occurrences p [pair_of l]).
    rewrite (occurrences_cons p (pair_of l)). fold x. lia.
Qed.

Lemma quiet_accounted regs0 (st st' : Instance) :
  quiet st st' → accounted regs0 st → accounted regs0 st'.
Proof.
  intros (_ & _ & Hev & Hl & _). unfold accounted, registrations.
  by rewrite Hev, Hl.
Qed.

Lemma on_accounted regs0 event cb internal (st : Instance) :
  accounted regs0 st → accounted regs0 (state_of (on event cb internal st)).
Proof.
  unfold accounted, registrations, on, bind, gets, modify, ret.
  destruct (events st) as [h|] eqn:Hev; simpl; [|by rewrite Hev].
  intros ->. by rewrite map_app, app_assoc.
Qed.

Lemma elapse_accounted regs0 dt (st : Instance) :
  accounted regs0 st → accounted regs0 (state_of (elapse dt st)).
Proof.
  unfold accounted, registrations. intros Hacc.
  unfold elapse, onChange, emit, bind, gets, modify, ret.
  destruct (pending st) as [p|]; [|done].
  destruct (remaining p <=? dt); simpl; [|done].
  destruct (events st) as [h|] eqn:Hev;
    destruct (lastArgs p); simpl; rewrite ?Hev; simpl; rewrite ?Hev; done.
Qed.

Lemma history_accounted regs0 (ms : list Method) (st : Instance) :
  never_destroyed ms → accounted regs0 st → accounted regs0 (history ms st).
Proof.
  revert st. induction ms as [|m ms IH]; intros st Hms Hst; [done|].
  apply Forall_cons in Hms as [Hm Hms]. simpl. apply IH; [done|].
  destruct m as [|v nu nv|nv| |index|event cb internal|all|dt|row v]; simpl.
  - apply (quiet_accounted regs0 st); [apply build_quiet|done].
  - apply (quiet_accounted regs0 st); [apply setValue_quiet|done].
  - apply (quiet_accounted regs0 st); [apply updateValue_quiet|done].
  - apply (quiet_accounted regs0 st); [apply addValue_quiet|done].
  - apply (quiet_accounted regs0 st); [apply removeValue_quiet|done].
  - by apply on_accounted.
  - by destruct (Hm all).
  - by apply elapse_accounted.
  - unfold type_into. by destruct (inputs st !! _).
Qed.

(** X19 (on, destroy, constructor): destroy gives back to the hub what on
    took. On an instance created by the constructor and never destroyed
    before, after any history of build, setValue, updateValue, addValue,
    removeValue, on, timer and typing steps, destroy(all) returns and leaves
    every event-name/callback pair registered on the hub exactly as often as
    it was at construction, plus once per listener record that the call
    passes over: none when [all] is set, the records not marked internal
    otherwise. *)
Theorem destroy_gives_back_what_on_took (c : Descriptor.t) (opt_readOnly : bool)
    (opt_events : option Hub) (d : gmap string JsValue)
    (arrays : list (list JsValue)) (ms : list Method) (all : bool)
    (p : string * Callback) :
  never_destroyed ms →
  let st0 := create c opt_readOnly opt_events d arrays in
  let st := history ms st0 in
  ∃ st',
    destroy all st = Ok tt st'
    ∧ occurrences p (registrations st')
      = occurrences p (registrations st0) + occurrences p (passed_over all st).
Proof.
  intros Hms st0 st.
  assert (accounted (registrations st0) st) as Hacc.
  { apply history_accounted; [done|].
    unfold accounted. simpl. by rewrite app_nil_r. }
  unfold accounted in Hacc. unfold registrations at 1 in Hacc.
  destruct (events st) as [h|] eqn:Hev.
  - rewrite (destroy_Ok all st h Hev). eexists. split; [reflexivity|].
    unfold registrations at 1. simpl.
    rewrite occurrences_off_all, Hacc, occurrences_app.
    rewrite (occurrences_split p all (eventListeners st)).
    unfold deregistered, passed_over. fold pair_of. lia.
  - symmetry in Hacc. apply app_eq_nil in Hacc as [Hregs Hls].
    apply map_eq_nil in Hls.
    rewrite (destroy_no_hub all st Hev).
    unfold deregistered, passed_over. rewrite Hls. simpl.
    eexists. split; [reflexivity|].
    unfold registrations at 1. simpl. by rewrite Hev, Hregs.
Qed.

Lemma destroy_gives_back_what_on_took_witness :
  let h := {| registered := [("formio.submit", HostFunction 7)]; emitted := [] |} in
  let st := history [Build; On "submit" (HostFunction 7) true;
                     On "change" (HostFunction 8) false; UpdateValue false;
                     Elapse 200]
              (create text_field false (Some h) ∅ []) in
  ∃ st',
    destroy false st = Ok tt st'
    ∧ occurrences ("formio.submit", HostFunction 7) (registrations st) = 2
    ∧ occurrences ("formio.submit", HostFunction 7) (registrations st') = 1.
Proof.
  intros h st.
  destruct (destroy_gives_back_what_on_took text_field false (Some h) ∅ []
              [Build; On "submit" (HostFunction 7) true;
               On "change" (HostFunction 8) false; UpdateValue false; Elapse 200]
              false ("formio.submit", HostFunction 7))
    as (st' & Hrun & Hocc).
  - repeat constructor; intros all; discriminate.
  - exists st'. split; [exact Hrun|]. split; [vm_compute; reflexivity|].
    rewrite Hocc. vm_compute. reflexivity.
Defined.

(** ** The buttons of the row region *)

Global Instance controls_kept_preorder : PreOrder controls_kept.
Proof.
  split; [by intros st|]. intros st1 st2 st3 H1 H2. unfold controls_kept in *.
  congruence.
Qed.

Lemma createInput_controls_kept : preserves controls_kept createInput.
Proof.
  intros st. rewrite createInput_eq, addInput_eq.
  set (st0 := if Descriptor.inputMask (component st)
              then set_inputMask (Some true) st else st).
  assert (controls st0 = controls st) as H0
    by (unfold st0; by destruct (Descriptor.inputMask _)).
  destruct (hasOwnEntry st0); [|done].
  destruct (setValue_nodes_kept (entry st0) true false (wired st0)) as [Hc _].
  unfold controls_kept. by rewrite Hc.
Qed.

Lemma bind_Ok_inv {S A B} (m : Eff S A) (k : A → Eff S B) (s s' : S) (b : B) :
  bind m k s = Ok b s' → ∃ a s1, m s = Ok a s1 ∧ k a s1 = Ok b s'.
Proof. unfold bind. destruct (m s) as [a s1|e s1]; [by exists a, s1|done]. Qed.

Lemma remove_buttons_loop (m : nat) :
  ∀ (k : nat) (st st' : Instance),
    for_each (seq k m) (λ index, bind createInput (λ _, removeButton index)) st
    = Ok tt st' →
    remove_buttons k (controls st) → remove_buttons (k + m) (controls st').
Proof.
  induction m as [|m IH]; intros k st st' Hrun Hk.
  { injection Hrun as <-. by rewrite Nat.add_0_r. }
  simpl in Hrun.
  apply bind_Ok_inv in Hrun as ([] & st2 & Hbody & Hrun).
  apply bind_Ok_inv in Hbody as ([] & st1 & Hcreate & Hbutton).
  pose proof (createInput_controls_kept st) as Hc.
  rewrite Hcreate in Hc. unfold controls_kept in Hc. simpl in Hc.
  rewrite removeButton_eq in Hbutton. injection Hbutton as <-.
  replace (k + S m) with (S k + m) by lia.
  apply (IH (S k) _ st' Hrun).
  destruct Hk as [Hlen Hk]. simpl. rewrite Hc. split.
  - rewrite length_app. simpl. lia.
  - intros i Hi. destruct (decide (i = k)) as [->|Hne].
    + eexists _, _. rewrite <- Hlen at 1. split; [apply lookup_snoc_last|done].
    + destruct (Hk i ltac:(lia)) as (b & id & Hb & Hl).
      exists b, id. split; [|done]. rewrite lookup_app_l by lia. done.
Qed.

(** When buildRows() returns, the row region has one remove button per
    element, bound to its index, and the add button. *)
Lemma buildRows_buttons (st st' : Instance) :
  tbody st = true → buildRows st = Ok tt st' →
  buttons (each_count (entry st) st) (controls st').
Proof.
  intros Htb. unfold buildRows.
  unfold bind at 1. unfold gets at 1. rewrite Htb. cbn [negb].
  unfold bind at 1. unfold modify at 1.
  unfold bind at 1. unfold modify at 1.
  unfold bind at 1. unfold gets at 1.
  set (st0 := set_controls [] (set_inputs [] st)).
  change (each_count (entry st0) st0) with (each_count (entry st) st).
  generalize (each_count (entry st) st). intros n Hrun.
  apply bind_Ok_inv in Hrun as ([] & st1 & Hloop & Hrun).
  apply (remove_buttons_loop n 0 st0 st1) in Hloop; [|split; [done|lia]].
  simpl in Hloop. destruct Hloop as [Hlen Hrm].
  apply bind_Ok_inv in Hrun as ([] & st2 & Hadd & Hrun).
  rewrite addButton_eq in Hadd. injection Hadd as <-.
  assert (controls st' = controls st1 ++ [attach "click" (AddClick (closures st1))
                                            fresh_node]) as ->.
  { unfold bind, gets in Hrun. simpl in Hrun.
    destruct (readOnly st1 || Descriptor.disabled (component st1));
      by injection Hrun as <-. }
  split; [rewrite length_app; simpl; lia|]. split.
  - intros i Hi. destruct (Hrm i Hi) as (b & id & Hb & Hl).
    exists b, id. split; [|done]. by rewrite lookup_app_l by lia.
  - eexists _, _. rewrite <- Hlen at 1. split; [apply lookup_snoc_last|done].
Qed.

Lemma click_eq (j : nat) (st : Instance) (b : Node) (f : Callback) :
  controls st !! j = Some b → node_listeners b = [("click", f)] →
  click j st = bind (on_click f) (λ _, ret tt) st.
Proof.
  intros Hb Hl. unfold click. unfold bind at 1. unfold gets at 1.
  by rewrite Hb, Hl.
Qed.

Lemma bind_ret_tt {S} (m : Eff S unit) (s : S) : bind m (λ _, ret tt) s = m s.
Proof. unfold bind, ret. by destruct (m s) as [[] ?|? ?]. Qed.

(** X20 (buildRows, removeButton, addButton, removeValue, addValue): the
    buttons buildRows() renders act on the rows they stand beside. After
    buildRows() on a multiple-value component whose entry is a sequence,
    over a data object whose [hasOwnProperty] is the method of
    [Object.prototype], a click on the remove button of row i removes
    element i from the sequence and renders the rows anew from what is
    left, and a click on the add button appends the default value to the
    sequence and renders the rows anew with one more for it; each row shows
    the string its text input keeps of its element. *)
Theorem buttons_act_on_their_rows (st : Instance) (a : nat) (s : list JsValue)
    (dv : JsValue) :
  tbody st = true → Descriptor.input (component st) = true →
  plain_data st →
  entry_holds st a s → defaultValue st = Ok dv st →
  ∃ st',
    buildRows st = Ok tt st'
    ∧ length (controls st') = S (length s)
    ∧ (∀ i, i < length s →
         ∃ st'', click i st' = Ok tt st''
                 ∧ entry_holds st'' a (delete i s)
                 ∧ displayed st'' = rendered st'' dv (delete i s))
    ∧ (∃ st'', click (length s) st' = Ok tt st''
               ∧ entry_holds st'' a (s ++ [dv])
               ∧ displayed st'' = rendered st'' dv (s ++ [dv]))
    ∧ PlainObject.hasOwnProperty (Descriptor.key (component st)) (data st)
      = Some true.
Proof.
  intros Htb Hin Hplain Hs Hdv.
  destruct (buildRows_on_sequence st a s dv Htb Hin Hs Hdv)
    as (st' & Hrun & Hsame & _ & Hctl & _).
  pose proof (buildRows_buttons st st' Htb Hrun) as (_ & Hrm & Hadd).
  replace (each_count (entry st) st) with (length s) in Hrm, Hadd.
  2:{ destruct (entry_holds_entry st a s Hs) as [-> _]. simpl.
      destruct Hs as [_ Hheap]. by rewrite Hheap. }
  destruct (same_store_frame st st' a s dv Hsame Hs Hdv) as [Hs' Hdv'].
  assert (tbody st' = true ∧ Descriptor.input (component st') = true)
    as [Htb' Hin'].
  { destruct Hsame as (-> & _ & _ & -> & _). by split. }
  exists st'. split; [done|]. split; [done|]. split; [|split].
  - intros i Hi. destruct (Hrm i Hi) as (b & id & Hb & Hl).
    rewrite (click_eq i st' b _ Hb Hl), bind_ret_tt. simpl.
    destruct (removeValue_rows st' a i s dv Htb' Hin' Hs' Hdv')
      as (st'' & Hrun' & _ & Hs'' & Hshown & _).
    by exists st''.
  - destruct Hadd as (b & id & Hb & Hl).
    rewrite (click_eq _ st' b _ Hb Hl), bind_ret_tt. simpl.
    destruct (addValue_rows st' a s dv Htb' Hin' Hs' Hdv')
      as (st'' & Hrun' & _ & Hs'' & Hshown & _).
    by exists st''.
  - by apply (entry_holds_tested st a s).
Qed.

Lemma buttons_act_on_their_rows_witness :
  let st := state_of (build (create tags_field false None {[ "tags" := JArr 0 ]}
                               [[JNum 5; JStr "b"]])) in
  ∃ st',
    buildRows st = Ok tt st'
    ∧ (∃ st'', click 0 st' = Ok tt st'' ∧ displayed st'' = [JStr "b"])
    ∧ (∃ st'', click 2 st' = Ok tt st''
               ∧ displayed st'' = [JStr "5"; JStr "b"; JStr ""]).
Proof.
  cbv zeta.
  destruct (buttons_act_on_their_rows
              (state_of (build (create tags_field false None {[ "tags" := JArr 0 ]}
                                  [[JNum 5; JStr "b"]])))
              0 [JNum 5; JStr "b"] (JStr ""))
    as (st' & Hrun & _ & Hrm & Hadd & _).
  - vm_compute. reflexivity.
  - vm_compute. reflexivity.
  - vm_compute. reflexivity.
  - split; vm_compute; reflexivity.
  - vm_compute. reflexivity.
  - exists st'. split; [exact Hrun|]. split.
    + destruct (Hrm 0) as (st'' & Hc & _ & Hshown); [simpl; lia|].
      exists st''. by split.
    + destruct Hadd as (st'' & Hc & _ & Hshown). exists st''. by split.
Defined.

(** ** Input masks *)

(** X21 (getInputMask, maskPlaceholder): the placeholder of a mask string
    lines up with the mask. It has the length of the mask, shows an
    underscore at every position where the mask has 9, A or *, and the
    character of the mask at every other position; and a mask that is
    already an array is returned as it is, so that getInputMask may be
    applied to its own result. *)
Theorem maskPlaceholder_lines_up (s : string) (items : list MaskItem) :
  maskPlaceholder (getInputMask (MaskString s)) = string_map placeholder_char s
  ∧ String.length (maskPlaceholder (getInputMask (MaskString s))) = String.length s
  ∧ (∀ i, String.get i (maskPlaceholder (getInputMask (MaskString s)))
          = placeholder_char <$> String.get i s)
  ∧ getInputMask (MaskArray (getInputMask (MaskString s)))
    = getInputMask (MaskString s)
  ∧ getInputMask (MaskArray items) = items.
Proof.
  assert (maskPlaceholder (mask_items s) = string_map placeholder_char s) as Heq.
  { induction s as [|c s IH]; [done|].
    unfold maskPlaceholder in *. simpl. rewrite IH.
    unfold mask_item, placeholder_char.
    by destruct (Ascii.eqb c "9"%char), (Ascii.eqb c "A"%char),
      (Ascii.eqb c "*"%char). }
  simpl. rewrite Heq. split; [done|]. split; [|split; [|done]].
  - clear. induction s as [|c s IH]; simpl; [done|]. by rewrite IH.
  - clear. induction s as [|c s IH]; intros [|i]; simpl; done.
Qed.

(** ** Select elements *)

Lemma selectOptions_Ok (options : list (string * string)) (dv : JsValue)
    (sel : SelectElement) :
  ∃ sel',
    selectOptions options dv sel = Ok tt sel'
    ∧ map opt_value (sel_options sel')
      = map opt_value (sel_options sel) ++ map fst options
    ∧ sel_onchange sel' = sel_onchange sel ∧ sel_onselect sel' = sel_onselect sel
    ∧ sel_changes sel' = sel_changes sel.
Proof.
  revert sel. induction options as [|[v l] options IH]; intros sel.
  { exists sel. by rewrite app_nil_r. }
  unfold selectOptions. simpl. unfold bind at 1. unfold modify at 1.
  fold (selectOptions options dv).
  destruct (IH {| sel_options := sel_options sel
                    ++ [{| opt_value := v; opt_label := l;
                           opt_selected := negb (strict_eq dv JUndefined)
                                           && strict_eq (JStr v) dv |}];
                  sel_onchange := sel_onchange sel;
                  sel_onselect := sel_onselect sel;
                  sel_changes := sel_changes sel |})
    as (sel' & Hrun & Hvals & Hc & Hs & Hn).
  exists sel'. split; [exact Hrun|]. simpl in *.
  rewrite Hvals, map_app, <- app_assoc. done.
Qed.

(** X22 (setSelectValue, selectOptions): setSelectValue(select, value)
    leaves the [selected] attribute on exactly the options whose value is
    [value], whatever was selected before, also for options that
    selectOptions has just added with another default. It calls the
    select's onchange handler once when only onchange is set and twice when
    onselect is set as well; when onselect is set and onchange is not, it
    raises a TypeError after it has marked the options. *)
Theorem setSelectValue_marks_and_notifies (options : list (string * string))
    (dv value : JsValue) (sel : SelectElement) :
  ∃ sel1,
    selectOptions options dv sel = Ok tt sel1
    ∧ let o := setSelectValue value sel1 in
      map opt_value (sel_options (state_of o))
      = map opt_value (sel_options sel) ++ map fst options
      ∧ Forall (λ opt, opt_selected opt = strict_eq (JStr (opt_value opt)) value)
          (sel_options (state_of o))
      ∧ returned o = (sel_onchange sel || negb (sel_onselect sel))
      ∧ sel_changes (state_of o)
        = sel_changes sel
          + (if sel_onchange sel then if sel_onselect sel then 2 else 1 else 0).
Proof.
  destruct (selectOptions_Ok options dv sel) as (sel1 & Hrun & Hvals & Hc & Hs & Hn).
  exists sel1. split; [exact Hrun|]. cbv zeta.
  unfold setSelectValue, call_onchange, bind, gets, modify, ret, throw. simpl.
  rewrite Hc, Hs, <- Hvals.
  destruct (sel_onchange sel), (sel_onselect sel); simpl; rewrite ?Hc; simpl;
    (split; [by rewrite map_map|]);
    (split; [apply Forall_map; by apply Forall_forall|]);
    (split; [done|lia]).
Qed.

(** ** Calculated values *)

Lemma try_catch_returned {A} (body : M A) (a : A) (st : Instance) :
  returned (try_catch body (λ _, ret a) st) = true.
Proof. unfold try_catch. by destruct (body st). Qed.

Lemma updateValue_returned (noValidate : bool) (st : Instance) :
  returned (updateValue noValidate st) = true.
Proof.
  destruct (getValue_total st) as (v & h & x & Hget).
  by rewrite (updateValue_Ok noValidate st _ _ Hget).
Qed.

Lemma setValue_eq (v : JsValue) (noUpdate noValidate : bool) (st : Instance) :
  setValue v noUpdate noValidate st
  = if Descriptor.input (component st)
    then bind (for_each (seq 0 (length (inputs st)))
                 (λ i, bind (gets (λ st, if isArray v then element v i st else v))
                         (λ x, setValueAt i x)))
           (λ _, if negb noUpdate then updateValue noValidate else ret tt)
           (set_value v st)
    else Ok tt st.
Proof.
  unfold setValue. unfold bind at 1. unfold gets at 1.
  destruct (Descriptor.input (component st)); [|done]. cbn [negb].
  unfold bind at 1. unfold modify at 1.
  unfold bind at 1. unfold gets at 1. reflexivity.
Qed.

(** When setValue raises, it raises before it updates the data. *)
Lemma setValue_raised_before_update (v : JsValue) (noValidate : bool)
    (st : Instance) :
  returned (setValue v false noValidate st) = false →
  state_of (setValue v false noValidate st)
  = state_of (setValue v true noValidate st).
Proof.
  rewrite !setValue_eq.
  destruct (Descriptor.input (component st)); [|done].
  unfold bind. destruct (for_each _ _ _) as [[] st'|e st']; [|done].
  cbn [negb]. intros Hraised.
  by rewrite updateValue_returned in Hraised.
Qed.

(** X23 (calculateValue, setValue): what calculateValue raises and leaves.
    With a string of code it never raises: an exception of the code is
    swallowed, leaving only the empty array that was made for [value]; and
    when setValue raises while it applies the result, that exception is
    swallowed too, the inputs written by then stay written, and neither is
    the data object updated nor a change notification scheduled. With a
    logic tree it returns exactly when the evaluation and setValue return,
    and whatever exception either raises, calculateValue raises a
    ReferenceError in its place. Without a calculation it does nothing. *)
Theorem calculateValue_errors (global : gmap string JsValue) (st : Instance) :
  (∀ run,
     ∃ st',
       calculateValue (Script run) global st = Ok tt st'
       ∧ match run global (data st) (JArr (length (heap st))) with
         | inr _ => st' = set_heap (heap st ++ [[]]) st
         | inl v =>
             let o := setValue v false false (set_heap (heap st ++ [[]]) st) in
             st' = state_of o
             ∧ (returned o = false → data st' = data st ∧ unnotified st st')
         end)
  ∧ (∀ apply,
       calculateValue (Tree apply) global st
       = match apply global (data st) with
         | inl v =>
             match setValue v false false st with
             | Ok _ st' => Ok tt st'
             | Throw _ st' => Throw ReferenceError st'
             end
         | inr _ => Throw ReferenceError st
         end)
  ∧ calculateValue NoCalculation global st = Ok tt st.
Proof.
  split; [|split; [|done]].
  - intros run. unfold calculateValue, try_catch.
    unfold bind at 1. unfold new_array at 1. unfold bind at 1. unfold gets at 1.
    cbn [data set_heap].
    destruct (run global (data st) (JArr (length (heap st)))) as [v|e].
    + set (st1 := set_heap (heap st ++ [[]]) st).
      exists (state_of (setValue v false false st1)).
      split; [by destruct (setValue v false false st1) as [[] ?|? ?]|].
      split; [done|]. intros Hraised.
      rewrite (setValue_raised_before_update v false st1 Hraised).
      destruct (setValue_noUpdate_same_store v false st1) as (_ & Hd & _).
      split; [by rewrite Hd|].
      by destruct (setValue_noUpdate_unnotified v false st1) as (? & ? & ?).
    + by eexists.
  - intros apply. unfold calculateValue, try_catch, bind, gets.
    destruct (apply global (data st)) as [v|e]; [|done].
    by destruct (setValue v false false st) as [[] ?|? ?].
Qed.

Lemma calculateValue_errors_witness :
  ∃ st',
    calculateValue (Script (λ _ _ _, inl JNull)) ∅ failing_default_field
    = Ok tt st'
    ∧ returned (setValue JNull false false failing_default_field) = false
    ∧ data st' = data failing_default_field.
Proof.
  destruct (calculateValue_errors ∅ failing_default_field) as (Hscript & _).
  destruct (Hscript (λ _ _ _, inl JNull)) as (st' & Hrun & Hst & Hraised).
  exists st'. split; [exact Hrun|]. split; [vm_compute; reflexivity|].
  apply Hraised. vm_compute. reflexivity.
Defined.

(** ** Validity *)

(** X24 (checkValidity, setCustomValidity, removeClass, emit): when
    checkValidity raises. It returns true and changes nothing when the
    component is not input-bound, or is pristine and the check is not a
    dirty one. Otherwise it raises exactly when build() has not created the
    wrapping element yet, or when an error was found and the instance has no
    event hub (onChange tests for the hub, emit does not); what it raises
    then is a TypeError. *)
Theorem checkValidity_raises_exactly (message : string) (dirty : bool)
    (v : Validity.View) :
  returned (Validity.checkValidity message dirty v)
  = negb (runs dirty v
          && (bool_decide (Validity.element v = None)
              || negb (String.eqb message "")
                 && bool_decide (events (Validity.instance v) = None)))
  ∧ (∀ e v', Validity.checkValidity message dirty v = Throw e v' → e = TypeError)
  ∧ (runs dirty v = false → Validity.checkValidity message dirty v = Ok true v).
Proof.
  destruct v as [inst hl [cls|] er va pu];
    unfold runs; simpl;
    destruct (Descriptor.input (component inst)) eqn:Hin, dirty,
      (pristine inst) eqn:Hpr, hl, (String.eqb message "") eqn:Hm,
      (events inst) as [h|] eqn:Hev;
    unfold Validity.checkValidity, Validity.setCustomValidity,
      Validity.addInputError, Validity.emit_error, Validity.removeClass,
      Validity.addClass, bind, gets, modify, ret, throw;
    repeat (simpl; rewrite ?Hin, ?Hpr, ?Hm, ?Hev);
    repeat case_bool_decide; simpl; repeat split; intros; congruence.
Qed.

Lemma checkValidity_invalid (message : string) (dirty : bool) (v : Validity.View)
    (cls : string) :
  runs dirty v = true → String.eqb message "" = false →
  Validity.element v = Some cls →
  Validity.checkValidity message dirty v
  = match events (Validity.instance v) with
    | Some _ =>
        Ok false
          (Validity.set_validity
             (map (λ _, message) (inputs (Validity.instance v)))
             (Validity.set_element
                (Some (if dirty && Validity.highlightErrors v
                       then (cleared (Validity.highlightErrors v) cls
                             +:+ " " +:+ "has-error")
                            +:+ " " +:+ "alert alert-danger"
                       else cleared (Validity.highlightErrors v) cls
                            +:+ " " +:+ "has-error"))
                (Validity.set_published (Validity.published v ++ [message])
                   (Validity.set_error (Some message) v))))
    | None =>
        Throw TypeError
          (Validity.set_error (Some message)
             (Validity.set_element
                (Some (cleared (Validity.highlightErrors v) cls)) v))
    end.
Proof.
  destruct v as [inst hl el er va pu]. unfold runs, cleared. simpl.
  intros Hruns Hm ->.
  destruct (Descriptor.input (component inst)) eqn:Hin; [|done].
  unfold Validity.checkValidity, Validity.setCustomValidity,
    Validity.addInputError, Validity.emit_error, Validity.removeClass,
    Validity.addClass, bind, gets, modify, ret, throw.
  simpl. rewrite Hin. simpl in *.
  replace (negb dirty && pristine inst) with false
    by (by destruct dirty, (pristine inst)).
  destruct hl, dirty, (events inst) as [h|] eqn:Hev;
    repeat (simpl; rewrite ?Hm, ?Hev); reflexivity.
Qed.

(** X25 (checkValidity, setCustomValidity, emit, errors): without an event
    hub an error leaves the component half-marked. When a check that is not
    skipped finds an error on a rendered component that has no hub, the
    call raises a TypeError after it has recorded the error: the errors
    getter reports the message, but no input has been given the message as
    its custom validity and the wrapping element has not been given the
    has-error class. *)
Theorem error_without_hub_is_half_recorded (message : string) (dirty : bool)
    (v : Validity.View) (cls : string) :
  runs dirty v = true → String.eqb message "" = false →
  Validity.element v = Some cls → events (Validity.instance v) = None →
  ∃ v',
    Validity.checkValidity message dirty v = Throw TypeError v'
    ∧ Validity.errors v' = [message]
    ∧ Validity.validity v' = Validity.validity v
    ∧ Validity.element v' = Some (cleared (Validity.highlightErrors v) cls)
    ∧ Validity.published v' = Validity.published v.
Proof.
  intros Hruns Hm Hel Hev.
  rewrite (checkValidity_invalid message dirty v cls Hruns Hm Hel), Hev.
  by eexists.
Qed.

Lemma error_without_hub_is_half_recorded_witness :
  ∃ v',
    Validity.checkValidity "required" true (built_text_field None)
    = Throw TypeError v'
    ∧ Validity.errors v' = ["required"]
    ∧ Validity.validity v' = [""]
    ∧ Validity.element v' = Some "form-group has-feedback formio-component".
Proof.
  destruct (error_without_hub_is_half_recorded "required" true
              (built_text_field None) "form-group has-feedback formio-component")
    as (v' & Hrun & Herr & Hval & Hel & _).
  - vm_compute. reflexivity.
  - vm_compute. reflexivity.
  - vm_compute. reflexivity.
  - vm_compute. reflexivity.
  - exists v'. split; [exact Hrun|]. split; [exact Herr|].
    split; [rewrite Hval; vm_compute; reflexivity|].
    rewrite Hel. vm_compute. reflexivity.
Defined.

(** X26 (checkValidity, errors): a verdict of true does not mean that there
    are no errors. On a rendered, input-bound, pristine component with a
    hub, a dirty check that finds an error returns false and records it,
    telling every input; the component stays pristine, so that every later
    check that is not dirty is skipped and returns true, whatever the
    validator would find, while the errors getter still reports the
    error. *)
Theorem skipped_check_returns_true_over_an_error (message : string)
    (v : Validity.View) (cls : string) (h : Hub) :
  Descriptor.input (component (Validity.instance v)) = true →
  pristine (Validity.instance v) = true →
  String.eqb message "" = false →
  Validity.element v = Some cls → events (Validity.instance v) = Some h →
  ∃ v1,
    Validity.checkValidity message true v = Ok false v1
    ∧ Validity.errors v1 = [message]
    ∧ Validity.validity v1 = map (λ _, message) (inputs (Validity.instance v))
    ∧ Validity.published v1 = Validity.published v ++ [message]
    ∧ ∀ message',
        Validity.checkValidity message' false v1 = Ok true v1.
Proof.
  intros Hin Hpr Hm Hel Hev.
  assert (runs true v = true) as Hruns by (unfold runs; by rewrite Hin).
  rewrite (checkValidity_invalid message true v cls Hruns Hm Hel), Hev.
  eexists. split; [reflexivity|]. split; [done|]. split; [done|].
  split; [done|]. intros message'.
  unfold Validity.checkValidity, bind, gets, ret, id. simpl.
  by rewrite Hin, Hpr.
Qed.

Lemma skipped_check_returns_true_over_an_error_witness :
  ∃ v1,
    Validity.checkValidity "required" true
      (built_text_field (Some {| registered := []; emitted := [] |}))
    = Ok false v1
    ∧ Validity.errors v1 = ["required"]
    ∧ Validity.checkValidity "required" false v1 = Ok true v1.
Proof.
  destruct (skipped_check_returns_true_over_an_error "required"
              (built_text_field (Some {| registered := []; emitted := [] |}))
              "form-group has-feedback formio-component"
              {| registered := []; emitted := [] |})
    as (v1 & Hrun & Herr & _ & _ & Hskip).
  - vm_compute. reflexivity.
  - vm_compute. reflexivity.
  - vm_compute. reflexivity.
  - vm_compute. reflexivity.
  - vm_compute. reflexivity.
  - exists v1. split; [exact Hrun|]. split; [exact Herr|]. apply Hskip.
Defined.

Lemma append_cons_string (c : Ascii.ascii) (s t : string) :
  String c s +:+ t = String c (s +:+ t).
Proof. reflexivity. Qed.

Lemma append_nil_l_string (t : string) : "" +:+ t = t.
Proof. reflexivity. Qed.

Lemma append_assoc_string (s t u : string) : (s +:+ t) +:+ u = s +:+ (t +:+ u).
Proof.
  induction s as [|c s IH]; [done|]. rewrite !append_cons_string. by f_equal.
Qed.

Lemma append_nil_r_string (s : string) : s +:+ "" = s.
Proof.
  induction s as [|c s IH]; [done|]. rewrite append_cons_string. by f_equal.
Qed.

Lemma length_snoc_string (s : string) : String.length (s +:+ " ") = S (String.length s).
Proof.
  induction s as [|c s IH]; [done|]. rewrite append_cons_string. simpl.
  by f_equal.
Qed.

Lemma drop_chars_all (s : string) : Validity.drop_chars (String.length s) s = "".
Proof. induction s as [|c s IH]; simpl; done. Qed.

Lemma replace_first_unfold (pat s : string) :
  Validity.replace_first pat s
  = if String.prefix pat s then Validity.drop_chars (String.length pat) s
    else match s with
         | EmptyString => EmptyString
         | String c rest => String c (Validity.replace_first pat rest)
         end.
Proof. by destruct s. Qed.

Lemma index_of_unfold (pat s : string) :
  index_of pat s
  = if String.prefix pat s then Some 0
    else match s with
         | EmptyString => None
         | String _ rest => S <$> index_of pat rest
         end.
Proof. by destruct s. Qed.

Lemma replace_first_at (pat s t : string) :
  index_of pat (s +:+ t) = Some (String.length s) →
  Validity.replace_first pat (s +:+ t)
  = s +:+ Validity.drop_chars (String.length pat) t.
Proof.
  induction s as [|c s IH].
  - rewrite !append_nil_l_string, index_of_unfold, replace_first_unfold.
    destruct (String.prefix pat t); [done|].
    destruct t as [|c t]; [done|]. by destruct (index_of pat t).
  - rewrite !append_cons_string, index_of_unfold, replace_first_unfold.
    destruct (String.prefix pat (String c (s +:+ t))); [done|].
    destruct (index_of pat (s +:+ t)) as [n|] eqn:Hn; [|done].
    simpl. intros [= ->]. by rewrite IH.
Qed.

(** X27 (addClass, removeClass): removing a class that was added does not
    restore the class attribute. When the class name first occurs in the
    attribute where addClass has appended it, addClass followed by
    removeClass returns and leaves the attribute longer by the blank that
    addClass put before the name; on an instance that build() has not given
    its wrapping element, either call raises a TypeError. *)
Theorem removing_an_added_class_leaves_a_blank (className cls : string)
    (v : Validity.View) :
  Validity.element v = Some cls →
  index_of className (cls +:+ " " +:+ className) = Some (S (String.length cls)) →
  bind (Validity.addClass className) (λ _, Validity.removeClass className) v
  = Ok tt (Validity.set_element (Some (cls +:+ " ")) v)
  ∧ ∀ v0, Validity.element v0 = None →
      Validity.addClass className v0 = Throw TypeError v0
      ∧ Validity.removeClass className v0 = Throw TypeError v0.
Proof.
  intros Hel Hfirst. split.
  - unfold Validity.addClass, Validity.removeClass, bind, gets, modify.
    rewrite Hel. simpl.
    rewrite <- (append_assoc_string cls " " className) in *.
    rewrite <- length_snoc_string in Hfirst.
    rewrite (replace_first_at className (cls +:+ " ") className Hfirst).
    by rewrite drop_chars_all, append_nil_r_string.
  - intros v0 H0. unfold Validity.addClass, Validity.removeClass, bind, gets.
    by rewrite H0.
Qed.

Lemma removing_an_added_class_leaves_a_blank_witness :
  bind (Validity.addClass "has-error") (λ _, Validity.removeClass "has-error")
    (built_text_field None)
  = Ok tt (Validity.set_element
             (Some "form-group has-feedback formio-component ")
             (built_text_field None)).
Proof.
  destruct (removing_an_added_class_leaves_a_blank "has-error"
              "form-group has-feedback formio-component" (built_text_field None))
    as [Hrun _].
  - vm_compute. reflexivity.
  - vm_compute. reflexivity.
  - exact Hrun.
Defined.

(** ** Localization *)

Lemma localize_each_initialized (options : list string) (w : Localization.I18n) :
  Localization.initialized w = true →
  localize_each options w = Ok (map (λ _, Localization.Immediately) options) w.
Proof.
  intros Hw. induction options as [|i18n rest IH]; [done|].
  simpl. unfold bind at 1. unfold Localization.localize at 1.
  unfold bind at 1. unfold gets at 1. rewrite Hw. unfold ret at 1.
  unfold bind at 1. by rewrite IH.
Qed.

(** X28 (localize): i18next is initialised once, with the options of the
    first caller. Of any number of localize() calls after the module was
    loaded, the first calls i18next.init with its own options and returns a
    promise that the callback of that call settles; every later call makes
    no init call, whatever its options are, and returns a promise that is
    resolved at once, whether or not the initialisation has come back, and
    whether or not it will fail. *)
Theorem localize_initialises_once (first : string) (others : list string) :
  localize_each (first :: others) Localization.loaded
  = Ok (Localization.AfterInit 0 :: map (λ _, Localization.Immediately) others)
       {| Localization.initialized := true; Localization.inits := [first] |}.
Proof.
  simpl. unfold bind at 1. unfold Localization.localize at 1.
  unfold bind, gets, modify, ret at 1. simpl.
  by rewrite localize_each_initialized.
Qed.
